(** * LoW-to-SSIM converter: a shallow embedding of [main_v1.py]

    The development follows the script top-down: the Python primitives it
    relies on (string slicing and padding, [int()], [datetime]), the date
    parser, the static time-zone estimator, the LoW reader, the record
    encoder and the chained writer, and then the scan of the file, the
    table of offsets, the first writer and [main].  The properties come
    after all the definitions.

    Conventions of the model.
    - Python [str] is [string]; the model is exact on ASCII text.  Codes
      above 127 are kept as they are by [upper] and are neither digits nor
      white space.
    - Python [int] is [Z]; a [float] UTC offset is a rational [Q] (every
      offset the estimator produces is an integer, hence exact).
    - A [dict] read by key is a [gmap]; the [shells] dict, whose iteration
      order matters, is an association list in insertion order.
    - Exceptions are values of [pyerr]; a function that may raise returns a
      sum.  [datetime.now()] is an explicit argument.
    - [csv.DictReader] gives every row the keys of the header, with
      [None] for the cells that a short record lacks.  [DictReader] and
      [read_low_csv_file] follow it, with the errors that a [None] cell
      raises.  [read_low_csv] is the same reader on rows whose cells are
      all strings; the two agree on a file without short records, and the
      writers and [main] are stated for such rows.
    - The file is the list of its rows; what [airportsdata] and [zoneinfo]
      give is a pair of functions. *)

From Stdlib Require Import ZArith QArith Qround Qabs Ascii String List Lia.
From Stdlib Require Import DecimalString DecimalPos DecimalFacts Permutation Sorted.
From stdpp Require Import gmap strings list.

Local Open Scope Z_scope.

(** ** Exceptions *)

Inductive pyerr : Type :=
| KeyError (key : string)
| ValueError
| IndexError
| OverflowError
| TypeError
| AttributeError (name : string).

Definition result (A : Type) : Type := pyerr + A.

Definition ret {A} (a : A) : result A := inr a.
Definition raise {A} (e : pyerr) : result A := inl e.
Definition bind {A B} (m : result A) (k : A -> result B) : result B :=
  match m with inl e => inl e | inr a => k a end.

Notation "'let*' x ':=' m 'in' k" := (bind m (fun x => k))
  (at level 10, x name, m at level 100, k at level 200).

(** [try: m  except Exception: d] *)
Definition try_except {A} (m : result A) (d : A) : A :=
  match m with inl _ => d | inr a => a end.

(** ** Python strings *)

Module Str.

Fixpoint take (n : nat) (s : string) : string :=
  match n, s with
  | S n', String c s' => String c (take n' s')
  | _, _ => EmptyString
  end.

Fixpoint drop (n : nat) (s : string) : string :=
  match n, s with
  | S n', String _ s' => drop n' s'
  | _, _ => s
  end.

Fixpoint rep (n : nat) (c : ascii) : string :=
  match n with
  | O => EmptyString
  | S n' => String c (rep n' c)
  end.

(** [s[i : i+n]] *)
Definition slice (i n : nat) (s : string) : string := take n (drop i s).

(** The field at 1-indexed inclusive positions [lo..hi] of a record. *)
Definition positions (lo hi : nat) (s : string) : string :=
  slice (lo - 1) (hi + 1 - lo) s.

(** [s[-n:]] for [n > 0] *)
Definition last_n (n : nat) (s : string) : string :=
  drop (String.length s - n) s.

Definition ljust (w : nat) (fill : ascii) (s : string) : string :=
  s +:+ rep (w - String.length s) fill.

Definition rjust (w : nat) (fill : ascii) (s : string) : string :=
  rep (w - String.length s) fill +:+ s.

(** ASCII white space as [str.strip()] sees it. *)
Definition is_space (c : ascii) : bool :=
  let n := N_of_ascii c in
  ((9 <=? n)%N && (n <=? 13)%N) || ((28 <=? n)%N && (n <=? 32)%N).

(** ASCII white space as [int()] sees it: the separators 28..31 are not. *)
Definition is_c_space (c : ascii) : bool :=
  let n := N_of_ascii c in
  ((9 <=? n)%N && (n <=? 13)%N) || (n =? 32)%N.

Fixpoint lstrip_by (sp : ascii -> bool) (s : string) : string :=
  match s with
  | String c s' => if sp c then lstrip_by sp s' else s
  | EmptyString => EmptyString
  end.

(** Drop the white space that runs to the end of the string. *)
Fixpoint rstrip_by (sp : ascii -> bool) (s : string) : string :=
  match s with
  | EmptyString => EmptyString
  | String c s' =>
      match rstrip_by sp s' with
      | EmptyString => if sp c then EmptyString else String c EmptyString
      | r => String c r
      end
  end.

Definition strip_by (sp : ascii -> bool) (s : string) : string :=
  rstrip_by sp (lstrip_by sp s).

Definition strip (s : string) : string := strip_by is_space s.

Definition upper_char (c : ascii) : ascii :=
  let n := N_of_ascii c in
  if ((97 <=? n)%N && (n <=? 122)%N) then ascii_of_N (n - 32) else c.

Definition lower_char (c : ascii) : ascii :=
  let n := N_of_ascii c in
  if ((65 <=? n)%N && (n <=? 90)%N) then ascii_of_N (n + 32) else c.

Fixpoint upper (s : string) : string :=
  match s with
  | EmptyString => EmptyString
  | String c s' => String (upper_char c) (upper s')
  end.

Fixpoint lower (s : string) : string :=
  match s with
  | EmptyString => EmptyString
  | String c s' => String (lower_char c) (lower s')
  end.

(** [s.zfill(w)]: zeros go after a leading sign. *)
Definition zfill (w : nat) (s : string) : string :=
  match s with
  | String c s' =>
      if (Ascii.eqb c "+" || Ascii.eqb c "-")%bool
      then String c (rep (w - String.length s) "0" +:+ s')
      else rep (w - String.length s) "0" +:+ s
  | EmptyString => rep w "0"
  end.

Definition is_digit (c : ascii) : bool :=
  let n := N_of_ascii c in ((48 <=? n)%N && (n <=? 57)%N).

Definition digit_val (c : ascii) : Z := Z.of_N (N_of_ascii c) - 48.

(** [str(n)] for an [int]. *)
Definition of_Z (z : Z) : string := NilZero.string_of_int (Z.to_int z).

Definition eqb (a b : string) : bool := bool_decide (a = b).

End Str.

(** ** [int(s)] on a string, base 10

    White space is stripped on both sides, one sign may follow, then come
    decimal digits, where single underscores may separate digits. *)

Fixpoint int_digits (s : string) (acc : Z) (after_digit : bool) : option Z :=
  match s with
  | EmptyString => if after_digit then Some acc else None
  | String c s' =>
      if Str.is_digit c then int_digits s' (10 * acc + Str.digit_val c) true
      else if (Ascii.eqb c "_" && after_digit)%bool then int_digits s' acc false
      else None
  end.

Definition py_int (s : string) : result Z :=
  match Str.strip_by Str.is_c_space s with
  | String c s' =>
      if Ascii.eqb c "-" then
        match int_digits s' 0 false with Some v => ret (- v) | None => raise ValueError end
      else if Ascii.eqb c "+" then
        match int_digits s' 0 false with Some v => ret v | None => raise ValueError end
      else
        match int_digits (String c s') 0 false with Some v => ret v | None => raise ValueError end
  | EmptyString => raise ValueError
  end.

(** ** Field padding, [pad_right] and [pad_left] *)

(** [str(s)[:length].ljust(length)] *)
Definition pad_right (s : string) (length : nat) : string :=
  Str.ljust length " " (Str.take length s).

(** [str(s)[-length:].rjust(length, fill)]; for [length = 0] the slice
    [s[-0:]] is the whole string. *)
Definition pad_left (s : string) (length : nat) (fill : ascii) : string :=
  Str.rjust length fill
    (match length with O => s | S _ => Str.last_n length s end).

Definition ssim_time_field (t : string) : string := Str.zfill 4 t.

(** ** [datetime]

    The calendar arithmetic follows CPython's [datetime] module
    ([_is_leap], [_days_before_year], [_ymd2ord], [_ord2ymd]). *)

Record datetime : Type := mk_datetime {
  year : Z; month : Z; day : Z;
  hour : Z; minute : Z; second : Z; microsecond : Z }.

Global Instance datetime_eq_dec : EqDecision datetime.
Proof. solve_decision. Defined.

Definition is_leap (y : Z) : bool :=
  (y mod 4 =? 0) && (negb (y mod 100 =? 0) || (y mod 400 =? 0)).

Definition DAYS_IN_MONTH : list Z := [31; 28; 31; 30; 31; 30; 31; 31; 30; 31; 30; 31].

Definition days_in_month (y m : Z) : Z :=
  if (m =? 2) && is_leap y then 29
  else nth (Z.to_nat (m - 1)) DAYS_IN_MONTH 0.

Definition days_before_year (y : Z) : Z :=
  let y1 := y - 1 in y1 * 365 + y1 / 4 - y1 / 100 + y1 / 400.

Definition days_before_month (y m : Z) : Z :=
  fold_right Z.add 0 (firstn (Z.to_nat (m - 1)) DAYS_IN_MONTH)
  + (if (2 <? m) && is_leap y then 1 else 0).

Definition ymd2ord (y m d : Z) : Z :=
  days_before_year y + days_before_month y m + d.

Definition ord2ymd (ordinal : Z) : Z * Z * Z :=
  let n := ordinal - 1 in
  let n400 := n / 146097 in let n := n mod 146097 in
  let n100 := n / 36524 in let n := n mod 36524 in
  let n4 := n / 1461 in let n := n mod 1461 in
  let n1 := n / 365 in let n := n mod 365 in
  let y := n400 * 400 + 1 + n100 * 100 + n4 * 4 + n1 in
  if (n1 =? 4) || (n100 =? 4) then (y - 1, 12, 31)
  else
    let leapyear := (n1 =? 3) && (negb (n4 =? 24) || (n100 =? 3)) in
    let m := Z.shiftr (n + 50) 5 in
    let preceding :=
      fold_right Z.add 0 (firstn (Z.to_nat (m - 1)) DAYS_IN_MONTH)
      + (if (2 <? m) && leapyear then 1 else 0) in
    if n <? preceding then
      let m' := m - 1 in
      let preceding' :=
        preceding - (nth (Z.to_nat (m' - 1)) DAYS_IN_MONTH 0
                     + (if (m' =? 2) && leapyear then 1 else 0)) in
      (y, m', n - preceding' + 1)
    else (y, m, n - preceding + 1).

Definition MAXORDINAL : Z := 3652059.

Definition toordinal (dt : datetime) : Z := ymd2ord (year dt) (month dt) (day dt).

(** [datetime(y, m, d, hh, mm, ss, us)] with the constructor's range checks. *)
Definition make_datetime (y m d hh mm ss us : Z) : result datetime :=
  if (1 <=? y) && (y <=? 9999) && (1 <=? m) && (m <=? 12)
     && (1 <=? d) && (d <=? days_in_month y m)
     && (0 <=? hh) && (hh <=? 23) && (0 <=? mm) && (mm <=? 59)
     && (0 <=? ss) && (ss <=? 59) && (0 <=? us) && (us <=? 999999)
  then ret (mk_datetime y m d hh mm ss us)
  else raise ValueError.

(** [dt.replace(hour=hh, minute=mm)] *)
Definition replace_hour_minute (dt : datetime) (hh mm : Z) : result datetime :=
  make_datetime (year dt) (month dt) (day dt) hh mm (second dt) (microsecond dt).

(** Microseconds since the start of ordinal day 0. *)
Definition to_micros (dt : datetime) : Z :=
  (((toordinal dt * 24 + hour dt) * 60 + minute dt) * 60 + second dt) * 1000000
  + microsecond dt.

(** [dt + timedelta(microseconds=us)] *)
Definition add_micros (dt : datetime) (us : Z) : result datetime :=
  let t := to_micros dt + us in
  let days := t / 86400000000 in
  let r := t mod 86400000000 in
  if (0 <? days) && (days <=? MAXORDINAL) then
    let '(y, m, d) := ord2ymd days in
    ret (mk_datetime y m d (r / 3600000000) (r / 60000000 mod 60)
           (r / 1000000 mod 60) (r mod 1000000))
  else raise OverflowError.

(** [round(x)] to an integer, ties to even. *)
Definition round_half_even (x : Q) : Z :=
  let f := Qfloor x in
  let r := (x - inject_Z f)%Q in
  match (r ?= 1 # 2)%Q with
  | Lt => f
  | Gt => f + 1
  | Eq => if Z.even f then f else f + 1
  end.

(** [timedelta(hours=h)] in microseconds. *)
Definition timedelta_hours (h : Q) : Z :=
  round_half_even (h * inject_Z 3600000000)%Q.

Definition timedelta_days (d : Z) : Z := d * 86400000000.

(** Comparison of two [datetime]s. *)
Definition datetime_ltb (a b : datetime) : bool := to_micros a <? to_micros b.

(** [min(l)] and [max(l)] on a non-empty list: the first extremal element. *)
Definition min_datetime (d : datetime) (l : list datetime) : datetime :=
  fold_left (fun m x => if datetime_ltb x m then x else m) l d.

Definition max_datetime (d : datetime) (l : list datetime) : datetime :=
  fold_left (fun m x => if datetime_ltb m x then x else m) l d.

Definition MONTH_ABBR : list string :=
  ["Jan"; "Feb"; "Mar"; "Apr"; "May"; "Jun"; "Jul"; "Aug"; "Sep"; "Oct"; "Nov"; "Dec"].

(** [dt.strftime('%d%b%y')] in the C locale. *)
Definition strftime_dby (dt : datetime) : string :=
  Str.zfill 2 (Str.of_Z (day dt))
  +:+ nth (Z.to_nat (month dt - 1)) MONTH_ABBR ""
  +:+ Str.zfill 2 (Str.of_Z (year dt mod 100)).

(** [dt.strftime('%u')]: the ISO weekday, Monday is 1. *)
Definition strftime_u (dt : datetime) : string :=
  Str.of_Z (let w := toordinal dt mod 7 in if w =? 0 then 7 else w).

(** ** [datetime.strptime]

    The model follows CPython's [_strptime]: the format is turned into a
    regular expression with one group per directive, the expression is
    matched case-insensitively against a prefix of the input, input left
    over after the match is an error, and the groups are converted to a
    date.  Only the directives of [date_formats] are modelled; month names
    are those of the C locale. *)

Inductive directive : Type :=
| Dir_d | Dir_m | Dir_y | Dir_Y | Dir_b
| Lit (c : ascii).

Fixpoint compile_format (format : string) : option (list directive) :=
  match format with
  | EmptyString => Some []
  | String "%" (String c rest) =>
      let dir :=
        if Ascii.eqb c "d" then Some Dir_d
        else if Ascii.eqb c "m" then Some Dir_m
        else if Ascii.eqb c "y" then Some Dir_y
        else if Ascii.eqb c "Y" then Some Dir_Y
        else if Ascii.eqb c "b" then Some Dir_b
        else None in
      match dir, compile_format rest with
      | Some d, Some ds => Some (d :: ds)
      | _, _ => None
      end
  | String "%" EmptyString => None
  | String c rest =>
      match compile_format rest with
      | Some ds => Some (Lit c :: ds)
      | None => None
      end
  end.

Definition in_range (lo hi : ascii) (c : ascii) : bool :=
  ((N_of_ascii lo <=? N_of_ascii c)%N && (N_of_ascii c <=? N_of_ascii hi)%N).

(** One alternative of a group: two characters, or one. *)
Definition alt2 (p1 p2 : ascii -> bool) (s : string) : list (string * string) :=
  match s with
  | String a (String b rest) =>
      if p1 a && p2 b then [(String a (String b EmptyString), rest)] else []
  | _ => []
  end.

Definition alt1 (p : ascii -> bool) (s : string) : list (string * string) :=
  match s with
  | String a rest => if p a then [(String a EmptyString, rest)] else []
  | _ => []
  end.

(** The ways a directive can match a prefix of [s], in the order in which
    the regular expression tries them; each gives the text captured and
    the rest of the input. *)
Definition alternatives (d : directive) (s : string) : list (string * string) :=
  match d with
  | Dir_d =>                            (* 3[0-1]|[1-2]\d|0[1-9]|[1-9]| [1-9] *)
      alt2 (Ascii.eqb "3") (in_range "0" "1") s
      ++ alt2 (in_range "1" "2") Str.is_digit s
      ++ alt2 (Ascii.eqb "0") (in_range "1" "9") s
      ++ alt1 (in_range "1" "9") s
      ++ alt2 (Ascii.eqb " ") (in_range "1" "9") s
  | Dir_m =>                            (* 1[0-2]|0[1-9]|[1-9] *)
      alt2 (Ascii.eqb "1") (in_range "0" "2") s
      ++ alt2 (Ascii.eqb "0") (in_range "1" "9") s
      ++ alt1 (in_range "1" "9") s
  | Dir_y =>                            (* \d\d *)
      alt2 Str.is_digit Str.is_digit s
  | Dir_Y =>                            (* \d\d\d\d *)
      if forallb Str.is_digit (list_ascii_of_string (Str.take 4 s))
         && (String.length (Str.take 4 s) =? 4)%nat
      then [(Str.take 4 s, Str.drop 4 s)] else []
  | Dir_b =>                            (* jan|feb|...|dec *)
      if bool_decide (Str.lower (Str.take 3 s) ∈ map Str.lower MONTH_ABBR)
      then [(Str.take 3 s, Str.drop 3 s)] else []
  | Lit c =>
      alt1 (fun a => Ascii.eqb (Str.lower_char a) (Str.lower_char c)) s
  end.

Fixpoint first_some {A B} (f : A -> option B) (l : list A) : option B :=
  match l with
  | [] => None
  | a :: l' => match f a with Some b => Some b | None => first_some f l' end
  end.

(** Backtracking match of the compiled format against a prefix of [s]. *)
Fixpoint re_match (fmt : list directive) (s : string)
    (groups : list (directive * string)) : option (list (directive * string) * string) :=
  match fmt with
  | [] => Some (groups, s)
  | d :: fmt' =>
      first_some (fun '(cap, rest) => re_match fmt' rest ((d, cap) :: groups))
        (alternatives d s)
  end.

(** Position of a month abbreviation, counted from 1. *)
Fixpoint month_index (name : string) (names : list string) (i : Z) : result Z :=
  match names with
  | [] => raise ValueError
  | n :: names' =>
      if Str.eqb (Str.lower n) name then ret i else month_index name names' (i + 1)
  end.

(** The conversion loop over the groups found; the fields start from the
    defaults year 1900, month 1, day 1. *)
Fixpoint convert_groups (groups : list (directive * string)) (ymd : Z * Z * Z)
    : result (Z * Z * Z) :=
  match groups with
  | [] => ret ymd
  | (d, v) :: groups' =>
      let '(y, m, dd) := ymd in
      let* ymd' :=
        match d with
        | Dir_y => let* n := py_int v in
                   ret (if n <=? 68 then n + 2000 else n + 1900, m, dd)
        | Dir_Y => let* n := py_int v in ret (n, m, dd)
        | Dir_m => let* n := py_int v in ret (y, n, dd)
        | Dir_b => let* n := month_index (Str.lower v) MONTH_ABBR 1 in ret (y, n, dd)
        | Dir_d => let* n := py_int v in ret (y, m, n)
        | Lit _ => ret ymd
        end in
      convert_groups groups' ymd'
  end.

(** Matching and conversion for a compiled format. *)
Definition strptime_compiled (data_string : string) (fmt : list directive)
    : result datetime :=
  match re_match fmt data_string [] with
  | None => raise ValueError
  | Some (groups, rest) =>
      if negb (String.length rest =? 0)%nat then raise ValueError
      else
        let* ymd := convert_groups (rev groups) (1900, 1, 1) in
        let '(y, m, d) := ymd in
        make_datetime y m d 0 0 0 0
  end.

Definition strptime (data_string format : string) : result datetime :=
  match compile_format format with
  | None => raise ValueError
  | Some fmt => strptime_compiled data_string fmt
  end.

(** ** [parse_flexible_date] *)

Definition date_formats : list string :=
  [ "%d%b%y";      (* 20Dec25 *)
    "%m/%d/%Y";    (* 10/09/2025 *)
    "%m/%d/%y";    (* 10/09/25 *)
    "%d-%b-%y";    (* 20-Dec-25 *)
    "%d/%m/%Y";    (* 20/12/2025 *)
    "%Y-%m-%d";    (* 2025-12-20 *)
    "%d%b%Y";      (* 20Dec2025 *)
    "%m-%d-%Y" ].  (* 10-09-2025 *)

(** The [for fmt in date_formats: try ... except ValueError: continue]
    loop; an exception other than [ValueError] is not caught. *)
Fixpoint try_formats (date_string : string) (formats : list string)
    : result (option datetime) :=
  match formats with
  | [] => ret None
  | fmt :: formats' =>
      match strptime date_string fmt with
      | inr dt => ret (Some dt)
      | inl ValueError => try_formats date_string formats'
      | inl e => raise e
      end
  end.

Definition parse_flexible_date (date_string : string) : result (option datetime) :=
  if (String.length date_string =? 0)%nat
     || (String.length (Str.strip date_string) =? 0)%nat
  then ret None
  else try_formats (Str.strip date_string) date_formats.

(** ** [estimate_us_timezone_offset] *)

Definition eastern_airports : gset string :=
  {[ "ATL"; "DTW"; "CHA"; "CLE"; "CVG"; "PIT"; "RIC"; "ORF"; "BWI";
     "BDL"; "PHL"; "BUF"; "JFK"; "LGA"; "EWR"; "BOS"; "MIA"; "FLL";
     "TPA"; "MCO"; "TLH"; "CHS"; "GRR"; "RSW"; "SRQ" ]}.

Definition central_airports : gset string :=
  {[ "MEM"; "MSP"; "ORD"; "DFW"; "MCI"; "STL"; "MSY"; "IAH"; "HOU";
     "SAT"; "AUS"; "OKC"; "TUL"; "LIT"; "BHM"; "MOB"; "HSV" ]}.

Definition mountain_airports : gset string :=
  {[ "DEN"; "PHX"; "SLC"; "ABQ"; "BOI"; "BIL"; "GJT"; "COS" ]}.

Definition pacific_airports : gset string :=
  {[ "LAX"; "SFO"; "SEA"; "LAS"; "SAN"; "PDX"; "SMF"; "OAK"; "SJC" ]}.

Definition estimate_us_timezone_offset (airport_code : string)
    (reference_date : datetime) : Q :=
  let month := month reference_date in
  let is_dst := (3 <=? month) && (month <=? 10) in
  if bool_decide (airport_code ∈ eastern_airports) then
    if is_dst then (-4 # 1)%Q else (-5 # 1)%Q
  else if bool_decide (airport_code ∈ central_airports) then
    if is_dst then (-5 # 1)%Q else (-6 # 1)%Q
  else if bool_decide (airport_code ∈ mountain_airports) then
    if Str.eqb airport_code "PHX" then (-7 # 1)%Q
    else if is_dst then (-6 # 1)%Q else (-7 # 1)%Q
  else if bool_decide (airport_code ∈ pacific_airports) then
    if is_dst then (-7 # 1)%Q else (-8 # 1)%Q
  else
    if is_dst then (-4 # 1)%Q else (-5 # 1)%Q.

(** ** Legs and shells

    A leg is the dict [{**row, "Dept DateTime": ..., ...}]: the row's own
    columns and six computed entries.  The four computed entries that are
    not strings are fields of the record; the zero-filled times override
    the row's columns of the same name. *)

Record Leg : Type := mk_leg {
  row : gmap string string;
  Dept_DateTime : option datetime;
  Arvl_DateTime : option datetime;
  Dept_UTC_Offset : option Q;
  Arvl_UTC_Offset : option Q;
  Dept_Time : string;
  Arvl_Time : string }.

(** [leg.get(key, default)] for a key whose value is a string. *)
Definition leg_get (leg : Leg) (key default : string) : string :=
  if String.eqb key "Dept Time" then Dept_Time leg
  else if String.eqb key "Arvl Time" then Arvl_Time leg
  else match row leg !! key with Some v => v | None => default end.

(** The [shells] dict in insertion order. *)
Abbreviation Shells := (list (string * list Leg)).

(** [shells[shell_id]] *)
Fixpoint shells_lookup (shells : Shells) (shell_id : string) : option (list Leg) :=
  match shells with
  | [] => None
  | (k, legs) :: rest =>
      if String.eqb k shell_id then Some legs else shells_lookup rest shell_id
  end.

(** [if shell_id not in shells: shells[shell_id] = []] followed by
    [shells[shell_id].append(leg)] *)
Fixpoint shells_append (shells : Shells) (shell_id : string) (leg : Leg) : Shells :=
  match shells with
  | [] => [(shell_id, [leg])]
  | (k, legs) :: rest =>
      if String.eqb k shell_id then (k, legs ++ [leg]) :: rest
      else (k, legs) :: shells_append rest shell_id leg
  end.

(** ** [read_low_csv] *)

(** [row[key]] *)
Definition row_get (r : gmap string string) (key : string) : result string :=
  match r !! key with Some v => ret v | None => raise (KeyError key) end.

(** [date_obj.replace(hour=int(t[:2]), minute=int(t[2:]))] under
    [try ... except Exception], for a date that parsed. *)
Definition combine_date_time (date_obj : option datetime) (t : string)
    : option datetime :=
  match date_obj with
  | Some d =>
      try_except
        (let* hh := py_int (Str.take 2 t) in
         let* mm := py_int (Str.drop 2 t) in
         let* dt := replace_hour_minute d hh mm in
         ret (Some dt))
        None
  | None => None
  end.

(** The body of the loop over the rows, up to the construction of [leg]. *)
Definition make_leg (r : gmap string string) (airport_offsets : gmap string Q)
    : result Leg :=
  let* dept_time_raw := row_get r "Dept Time" in
  let dept_time := Str.zfill 4 dept_time_raw in
  let* arvl_time_raw := row_get r "Arvl Time" in
  let arvl_time := Str.zfill 4 arvl_time_raw in
  let* dept_date_obj :=
    parse_flexible_date (match r !! "Dept Date" with Some v => v | None => "" end) in
  let dept_dt := combine_date_time dept_date_obj dept_time in
  let* arvl_date_obj :=
    parse_flexible_date (match r !! "Arvl Date" with Some v => v | None => "" end) in
  let arvl_dt := combine_date_time arvl_date_obj arvl_time in
  let* dept_sta := row_get r "Dept Sta" in
  let dept_offset := airport_offsets !! Str.upper dept_sta in
  let* arvl_sta := row_get r "Arvl Sta" in
  let arvl_offset := airport_offsets !! Str.upper arvl_sta in
  ret (mk_leg r dept_dt arvl_dt dept_offset arvl_offset dept_time arvl_time).

Fixpoint read_rows (rows : list (gmap string string))
    (airport_offsets : gmap string Q) (all_legs : list Leg) (shells : Shells)
    : result (list Leg * Shells) :=
  match rows with
  | [] => ret (all_legs, shells)
  | r :: rows' =>
      let* leg := make_leg r airport_offsets in
      let all_legs := all_legs ++ [leg] in
      let* shell_id := row_get r "Line Num" in
      read_rows rows' airport_offsets all_legs (shells_append shells shell_id leg)
  end.

(** The sort key [lambda x: int(x.get("Leg Seq num", "1"))]. *)
Definition leg_seq_key (x : Leg) : result Z :=
  py_int (leg_get x "Leg Seq num" "1").

Fixpoint keyed (legs : list Leg) : result (list (Z * Leg)) :=
  match legs with
  | [] => ret []
  | x :: legs' =>
      let* k := leg_seq_key x in
      let* rest := keyed legs' in
      ret ((k, x) :: rest)
  end.

(** Stable insertion: [x] goes before the first element whose key is not
    smaller, so elements with equal keys keep their order. *)
Fixpoint insert_by_key (kx : Z * Leg) (l : list (Z * Leg)) : list (Z * Leg) :=
  match l with
  | [] => [kx]
  | ky :: l' =>
      if fst kx <=? fst ky then kx :: l else ky :: insert_by_key kx l'
  end.

(** [shell.sort(key=...)]: every key is computed first, then the list is
    sorted, stably and ascending. *)
Definition sort_shell (legs : list Leg) : result (list Leg) :=
  let* ks := keyed legs in
  ret (map snd (fold_right insert_by_key [] ks)).

Fixpoint sort_shells (shells : Shells) : result Shells :=
  match shells with
  | [] => ret []
  | (k, legs) :: rest =>
      let* legs' := sort_shell legs in
      let* rest' := sort_shells rest in
      ret ((k, legs') :: rest')
  end.

Definition read_low_csv (rows : list (gmap string string))
    (airport_offsets : gmap string Q) : result (list Leg * Shells) :=
  let* r := read_rows rows airport_offsets [] [] in
  let* shells := sort_shells (snd r) in
  ret (fst r, shells).

(** ** The rows of [csv.DictReader]

    The file is the list of its records, each a list of cells, as
    [csv.reader] yields them; the first record is the header.  A blank
    record is skipped.  For the others, [dict(zip(fieldnames, row))] is
    followed by [d[key] = restval], which is [None], for the keys that the
    record is too short to fill.  The cells of a record that is longer than
    the header go in a list under the key [None], which the script never
    reads. *)

(** A cell is a string or [None]. *)
Abbreviation cell := (option string).

Fixpoint dict_row (fieldnames record : list string) (d : gmap string cell)
    : gmap string cell :=
  match fieldnames with
  | [] => d
  | key :: fieldnames' =>
      match record with
      | [] => dict_row fieldnames' [] (<[key := None]> d)
      | v :: record' => dict_row fieldnames' record' (<[key := Some v]> d)
      end
  end.

Definition DictReader (records : list (list string)) : list (gmap string cell) :=
  match records with
  | [] => []
  | fieldnames :: rest =>
      map (fun record => dict_row fieldnames record ∅)
        (filter (fun record => record <> []) rest)
  end.

(** ** [read_low_csv] on the rows of [csv.DictReader] *)

(** The leg [{**row, ...}] of such a row. *)
Record CsvLeg : Type := mk_csv_leg {
  csv_row : gmap string cell;
  csv_Dept_DateTime : option datetime;
  csv_Arvl_DateTime : option datetime;
  csv_Dept_UTC_Offset : option Q;
  csv_Arvl_UTC_Offset : option Q;
  csv_Dept_Time : string;
  csv_Arvl_Time : string }.

(** The [shells] dict in insertion order; [row["Line Num"]] may be [None]. *)
Abbreviation CsvShells := (list (cell * list CsvLeg)).

(** [row[key]] *)
Definition cell_at (r : gmap string cell) (key : string) : result cell :=
  match r !! key with Some c => ret c | None => raise (KeyError key) end.

(** [row[key].name(...)], a method of [str] called on the cell. *)
Definition str_method (r : gmap string cell) (key name : string) : result string :=
  let* c := cell_at r key in
  match c with Some s => ret s | None => raise (AttributeError name) end.

(** [parse_flexible_date(row.get(key, ''))]: for the cell [None] the test
    [not date_string] holds and the parser returns [None]. *)
Definition parse_cell (r : gmap string cell) (key : string)
    : result (option datetime) :=
  match r !! key with
  | Some (Some date_string) => parse_flexible_date date_string
  | Some None => ret None
  | None => parse_flexible_date ""
  end.

Definition make_csv_leg (r : gmap string cell) (airport_offsets : gmap string Q)
    : result CsvLeg :=
  let* dept_time_raw := str_method r "Dept Time" "zfill" in
  let dept_time := Str.zfill 4 dept_time_raw in
  let* arvl_time_raw := str_method r "Arvl Time" "zfill" in
  let arvl_time := Str.zfill 4 arvl_time_raw in
  let* dept_date_obj := parse_cell r "Dept Date" in
  let dept_dt := combine_date_time dept_date_obj dept_time in
  let* arvl_date_obj := parse_cell r "Arvl Date" in
  let arvl_dt := combine_date_time arvl_date_obj arvl_time in
  let* dept_sta := str_method r "Dept Sta" "upper" in
  let dept_offset := airport_offsets !! Str.upper dept_sta in
  let* arvl_sta := str_method r "Arvl Sta" "upper" in
  let arvl_offset := airport_offsets !! Str.upper arvl_sta in
  ret (mk_csv_leg r dept_dt arvl_dt dept_offset arvl_offset dept_time arvl_time).

Fixpoint csv_shells_append (shells : CsvShells) (shell_id : cell) (leg : CsvLeg)
    : CsvShells :=
  match shells with
  | [] => [(shell_id, [leg])]
  | (k, legs) :: rest =>
      if decide (k = shell_id) then (k, legs ++ [leg]) :: rest
      else (k, legs) :: csv_shells_append rest shell_id leg
  end.

Fixpoint read_csv_rows (rows : list (gmap string cell))
    (airport_offsets : gmap string Q) (all_legs : list CsvLeg) (shells : CsvShells)
    : result (list CsvLeg * CsvShells) :=
  match rows with
  | [] => ret (all_legs, shells)
  | r :: rows' =>
      let* leg := make_csv_leg r airport_offsets in
      let all_legs := all_legs ++ [leg] in
      let* shell_id := cell_at r "Line Num" in
      read_csv_rows rows' airport_offsets all_legs
        (csv_shells_append shells shell_id leg)
  end.

(** The sort key [lambda x: int(x.get("Leg Seq num", "1"))]: [int(None)]
    raises [TypeError]. *)
Definition csv_leg_seq_key (x : CsvLeg) : result Z :=
  match csv_row x !! "Leg Seq num" with
  | Some (Some v) => py_int v
  | Some None => raise TypeError
  | None => py_int "1"
  end.

Fixpoint csv_keyed (legs : list CsvLeg) : result (list (Z * CsvLeg)) :=
  match legs with
  | [] => ret []
  | x :: legs' =>
      let* k := csv_leg_seq_key x in
      let* rest := csv_keyed legs' in
      ret ((k, x) :: rest)
  end.

Fixpoint csv_insert_by_key (kx : Z * CsvLeg) (l : list (Z * CsvLeg))
    : list (Z * CsvLeg) :=
  match l with
  | [] => [kx]
  | ky :: l' =>
      if fst kx <=? fst ky then kx :: l else ky :: csv_insert_by_key kx l'
  end.

Definition csv_sort_shell (legs : list CsvLeg) : result (list CsvLeg) :=
  let* ks := csv_keyed legs in
  ret (map snd (fold_right csv_insert_by_key [] ks)).

Fixpoint csv_sort_shells (shells : CsvShells) : result CsvShells :=
  match shells with
  | [] => ret []
  | (k, legs) :: rest =>
      let* legs' := csv_sort_shell legs in
      let* rest' := csv_sort_shells rest in
      ret ((k, legs') :: rest')
  end.

Definition read_low_csv_file (records : list (list string))
    (airport_offsets : gmap string Q) : result (list CsvLeg * CsvShells) :=
  let* r := read_csv_rows (DictReader records) airport_offsets [] [] in
  let* shells := csv_sort_shells (snd r) in
  ret (fst r, shells).

(** ** Operation date range *)

Definition convert_date_to_utc_if_needed (local_datetime : datetime)
    (timezone_offset : option Q) (time_zone_mode : string) : result datetime :=
  match timezone_offset with
  | Some off =>
      if String.eqb time_zone_mode "U"
      then add_micros local_datetime (- timedelta_hours off)
      else ret local_datetime
  | None => ret local_datetime
  end.

Fixpoint operation_dates (all_legs : list Leg) (time_zone_mode : string)
    : result (list datetime) :=
  match all_legs with
  | [] => ret []
  | leg :: legs' =>
      let* d :=
        match Dept_DateTime leg with
        | Some dept_dt =>
            let* x := convert_date_to_utc_if_needed dept_dt (Dept_UTC_Offset leg) time_zone_mode in
            ret [x]
        | None => ret []
        end in
      let* a :=
        match Arvl_DateTime leg with
        | Some arvl_dt =>
            let* x := convert_date_to_utc_if_needed arvl_dt (Arvl_UTC_Offset leg) time_zone_mode in
            ret [x]
        | None => ret []
        end in
      let* rest := operation_dates legs' time_zone_mode in
      ret (d ++ a ++ rest)
  end.

(** [now] is the value of [datetime.now()] in the fallback branch. *)
Definition find_operation_date_range (all_legs : list Leg)
    (time_zone_mode : string) (now : datetime) : result (datetime * datetime) :=
  let* all_operation_dates := operation_dates all_legs time_zone_mode in
  match all_operation_dates with
  | d :: ds => ret (min_datetime d ds, max_datetime d ds)
  | [] =>
      let* tomorrow := add_micros now (timedelta_days 1) in
      ret (now, tomorrow)
  end.

(** ** Field formatting *)

Definition format_ssim_date (dt : option datetime) : string :=
  match dt with
  | Some d => Str.upper (strftime_dby d)
  | None => Str.ljust 7 " " ""
  end.

(** [f"{sign}{hours:02d}{mins:02d}"] *)
Definition format_utc_offset (offset : option Q) : string :=
  match offset with
  | None => "0000"
  | Some off =>
      let sign := if Qlt_le_dec off 0 then "-" else "+" in
      let abs_offset := Qabs off in
      let hours := Qfloor abs_offset in
      let mins := round_half_even ((abs_offset - inject_Z hours) * inject_Z 60)%Q in
      sign +:+ Str.zfill 2 (Str.of_Z hours) +:+ Str.zfill 2 (Str.of_Z mins)
  end.

(** ** The records *)

(** The Type-1 header line, as written in the script. *)
Definition TYPE1_HEADER : string :=
  "1AIRLINE STANDARD SCHEDULE DATA SET                                                                                                                                                            001000001".

(** The text that follows the three dates in the Type-2 header. *)
Definition HEADER2_TAIL : string :=
  "                                    PCreated by Python LoW-to-SSIM Converter".

Definition zero_line : string := Str.rep 200 "0".

Definition header2_record (time_zone : string)
    (first_op_date last_op_date today_date : datetime) : string :=
  let header2 :=
    "2" +:+ time_zone +:+ "DL  0008    "
    +:+ Str.upper (strftime_dby first_op_date)
    +:+ Str.upper (strftime_dby last_op_date)
    +:+ Str.upper (strftime_dby today_date)
    +:+ HEADER2_TAIL in
  pad_right header2 188 +:+ "EN1140000002".

(** The Type-3 record of [leg]; [next_leg] is the onward leg, if any. *)
Definition type3_record (leg : Leg) (next_leg : option Leg) (record_serial : Z)
    : string :=
  let raw_airline_code := leg_get leg "Aln" "DL" in
  let raw_flight_number := leg_get leg "Flt Num" "" in
  let raw_itinerary_var := leg_get leg "Line Num" "1" in
  let raw_leg_seq_num := leg_get leg "Leg Seq num" "1" in
  let raw_service_type := leg_get leg "Service Type" "J" in
  let raw_dep_dt := Dept_DateTime leg in
  let raw_dep_date_str := format_ssim_date raw_dep_dt in
  let raw_day_of_week :=
    match raw_dep_dt with Some d => strftime_u d | None => "1" end in
  let raw_dep_airport := leg_get leg "Dept Sta" "" in
  let raw_arr_airport := leg_get leg "Arvl Sta" "" in
  let raw_dep_time := Dept_Time leg in
  let raw_arr_time := Arvl_Time leg in
  let raw_dep_offset_hours := Dept_UTC_Offset leg in
  let raw_arr_offset_hours := Arvl_UTC_Offset leg in
  let raw_ac_type := leg_get leg "Equip" "73J" in
  let raw_ac_config := leg_get leg "AC Config" "" in
  let raw_ac_owner := "" in
  let raw_onward_airline :=
    match next_leg with Some n => leg_get n "Aln" "" | None => "" end in
  let raw_onward_fltno :=
    match next_leg with Some n => leg_get n "Flt Num" "" | None => "" end in
  let raw_onward_leg_var := "" in
  let raw_onward_leg_seq := "" in
  let formatted_dep_time := ssim_time_field raw_dep_time in
  let formatted_arr_time := ssim_time_field raw_arr_time in
  let formatted_dep_offset := format_utc_offset raw_dep_offset_hours in
  let formatted_arr_offset := format_utc_offset raw_arr_offset_hours in
  let formatted_period_of_op := raw_dep_date_str +:+ raw_dep_date_str in
  let rec :=
    pad_right "3" 1                                (* 1: record type *)
    +:+ pad_right "" 1                             (* 2: operational suffix *)
    +:+ pad_right raw_airline_code 3               (* 3-5: airline code *)
    +:+ pad_left raw_flight_number 4 " "           (* 6-9: flight number *)
    +:+ pad_left raw_itinerary_var 2 "0"           (* 10-11: itinerary variant *)
    +:+ pad_left raw_leg_seq_num 2 "0"             (* 12-13: leg sequence *)
    +:+ pad_right raw_service_type 1               (* 14: service type *)
    +:+ pad_right formatted_period_of_op 14        (* 15-28: period of operation *)
    +:+ pad_left raw_day_of_week 7 " "             (* 29-35: days of operation *)
    +:+ pad_right "" 1                             (* 36: frequency rate *)
    +:+ pad_right raw_dep_airport 3                (* 37-39: departure airport *)
    +:+ pad_right formatted_dep_time 4             (* 40-43: departure time *)
    +:+ pad_right formatted_dep_time 4             (* 44-47: departure time *)
    +:+ pad_right formatted_dep_offset 5           (* 48-52: departure UTC offset *)
    +:+ pad_right "" 2                             (* 53-54: departure terminal *)
    +:+ pad_right raw_arr_airport 3                (* 55-57: arrival airport *)
    +:+ pad_right formatted_arr_time 4             (* 58-61: arrival time *)
    +:+ pad_right formatted_arr_time 4             (* 62-65: arrival time *)
    +:+ pad_right formatted_arr_offset 5           (* 66-70: arrival UTC offset *)
    +:+ pad_right "" 2                             (* 71-72: arrival terminal *)
    +:+ pad_right raw_ac_type 3                    (* 73-75: aircraft type *)
    +:+ pad_right "" 23                            (* 76-98 *)
    +:+ pad_right raw_ac_owner 3                   (* 99-101: aircraft owner *)
    +:+ pad_right "" 36                            (* 102-137 *)
    +:+ pad_right raw_onward_airline 3             (* 138-140: onward airline *)
    +:+ pad_left raw_onward_fltno 4 " "            (* 141-144: onward flight number *)
    +:+ pad_left raw_onward_leg_var 1 " "          (* 145 *)
    +:+ pad_left raw_onward_leg_seq 1 " "          (* 146 *)
    +:+ pad_right "" 26                            (* 147-172 *)
    +:+ pad_right (raw_ac_config +:+ "VV10") 20    (* 173-192: aircraft configuration *)
    +:+ pad_right "" 2                             (* 193-194 *)
    +:+ pad_left (Str.of_Z record_serial) 6 "0"    (* 195-200: record serial *)
  in
  pad_right rec 200.

(** The Type-4 record of [leg]. *)
Definition type4_record (leg : Leg) (record_serial : Z) : string :=
  let raw_airline_code := leg_get leg "Aln" "DL" in
  let raw_flight_number := leg_get leg "Flt Num" "" in
  let raw_itinerary_var := leg_get leg "Line Num" "1" in
  let raw_leg_seq_num := leg_get leg "Leg Seq num" "1" in
  let raw_service_type := leg_get leg "Service Type" "J" in
  let raw_dep_airport := leg_get leg "Dept Sta" "" in
  let raw_arr_airport := leg_get leg "Arvl Sta" "" in
  let reason_code := leg_get leg "REASON CODE" " " in
  let seg :=
    pad_right "4" 1                                (* 1: record type *)
    +:+ pad_right "" 1                             (* 2 *)
    +:+ pad_right raw_airline_code 3               (* 3-5 *)
    +:+ pad_left raw_flight_number 4 " "           (* 6-9 *)
    +:+ pad_left raw_itinerary_var 2 "0"           (* 10-11 *)
    +:+ pad_left raw_leg_seq_num 2 "0"             (* 12-13 *)
    +:+ pad_right raw_service_type 1               (* 14 *)
    +:+ pad_right "" 13                            (* 15-27 *)
    +:+ pad_right "" 1                             (* 28 *)
    +:+ pad_right "A" 1                            (* 29: board point indicator *)
    +:+ pad_right "B" 1                            (* 30: off point indicator *)
    +:+ pad_left "997" 3 "0"                       (* 31-33: data element id *)
    +:+ pad_right raw_dep_airport 3                (* 34-36: board point *)
    +:+ pad_right raw_arr_airport 3                (* 37-39: off point *)
    +:+ pad_right reason_code 155                  (* 40-194 *)
    +:+ pad_left (Str.of_Z record_serial) 6 "0"    (* 195-200: record serial *)
  in
  pad_right seg 200.

(** The Type-5 trailer. *)
Definition type5_record (today_date : datetime) (record_serial : Z) : string :=
  let las :=
    pad_right "5" 1
    +:+ pad_right "" 1
    +:+ pad_right "DL" 3
    +:+ pad_left (Str.upper (strftime_dby today_date)) 7 " "
    +:+ pad_left "" 175 " "
    +:+ pad_left "000999" 6 " "
    +:+ pad_left "E" 1 " "
    +:+ pad_left (Str.of_Z record_serial) 6 "0"
  in
  pad_right las 200.

(** ** The chained writer, [write_ssim_with_segments] *)

(** Truth value of a string, as in [if shell_id:]. *)
Definition truthy (s : string) : bool := negb (String.length s =? 0)%nat.

Fixpoint find_connecting_shell (shells : Shells) (processed_shells : gset string)
    (arrival_airport : string) : option string :=
  match shells with
  | [] => None
  | (shell_id, shell_legs) :: rest =>
      if bool_decide (shell_id ∈ processed_shells)
      then find_connecting_shell rest processed_shells arrival_airport
      else
        match shell_legs with
        | [] => find_connecting_shell rest processed_shells arrival_airport
        | first_flight :: _ =>
            let first_dept_airport := leg_get first_flight "Dept Sta" "" in
            if Str.eqb (Str.upper first_dept_airport) (Str.upper arrival_airport)
            then Some shell_id
            else find_connecting_shell rest processed_shells arrival_airport
        end
  end.

(** The onward leg of the last leg of a shell. *)
Definition connecting_leg (shells : Shells) (processed_shells : gset string)
    (leg : Leg) : option Leg :=
  let last_arrival_airport := leg_get leg "Arvl Sta" "" in
  match find_connecting_shell shells processed_shells last_arrival_airport with
  | Some connecting_shell_id =>
      if truthy connecting_shell_id then
        match shells_lookup shells connecting_shell_id with
        | Some (first :: _) => Some first
        | _ => None
        end
      else None
  | None => None
  end.

(** [for idx, leg in enumerate(current_shell_legs)]: two records for each
    leg; gives the lines written and the serial after them. *)
Fixpoint emit_shell (shells : Shells) (processed_shells : gset string)
    (current_shell_legs : list Leg) (record_serial : Z) : list string * Z :=
  match current_shell_legs with
  | [] => ([], record_serial)
  | leg :: rest =>
      let next_leg :=
        match rest with
        | next_leg_in_shell :: _ => Some next_leg_in_shell
        | [] => connecting_leg shells processed_shells leg
        end in
      let rec := type3_record leg next_leg record_serial in
      let record_serial := record_serial + 1 in
      let seg := type4_record leg record_serial in
      let record_serial := record_serial + 1 in
      let '(more, final_serial) :=
        emit_shell shells processed_shells rest record_serial in
      (rec :: seg :: more, final_serial)
  end.

(** [[s for s in shells.keys() if s not in processed_shells]] *)
Definition unprocessed_shells (shells : Shells) (processed_shells : gset string)
    : list string :=
  filter (fun s => s ∉ processed_shells) (map fst shells).

(** How a run of the writer ends. *)
Inductive status : Type :=
| Completed
| NoShells                  (* the early [return] after "No shells found!" *)
| Raised (e : pyerr)
| OutOfFuel.

(** [while len(processed_shells) < len(shells)]; [fuel] bounds the number
    of iterations. *)
Fixpoint chain_loop (fuel : nat) (shells : Shells) (processed_shells : gset string)
    (current_shell_id : string) (record_serial : Z) (out : list string)
    : list string * Z * status :=
  if (size processed_shells <? length shells)%nat then
    match fuel with
    | O => (out, record_serial, OutOfFuel)
    | S fuel' =>
        match shells_lookup shells current_shell_id with
        | None => (out, record_serial, Raised (KeyError current_shell_id))
        | Some current_shell_legs =>
            let processed_shells := processed_shells ∪ {[ current_shell_id ]} in
            let '(recs, record_serial) :=
              emit_shell shells processed_shells current_shell_legs record_serial in
            let out := out ++ recs in
            if (size processed_shells <? length shells)%nat then
              match last current_shell_legs with
              | None => (out, record_serial, Raised IndexError)
              | Some last_leg =>
                  let last_arrival_airport := leg_get last_leg "Arvl Sta" "" in
                  let pick_unprocessed :=
                    match unprocessed_shells shells processed_shells with
                    | s :: _ => s
                    | [] => current_shell_id
                    end in
                  let current_shell_id :=
                    match find_connecting_shell shells processed_shells
                            last_arrival_airport with
                    | Some next_shell_id =>
                        if truthy next_shell_id then next_shell_id
                        else pick_unprocessed
                    | None => pick_unprocessed
                    end in
                  chain_loop fuel' shells processed_shells current_shell_id
                    record_serial out
              end
            else
              chain_loop fuel' shells processed_shells current_shell_id
                record_serial out
        end
    end
  else (out, record_serial, Completed).

Definition zero_lines (n : nat) : list string := repeat zero_line n.

(** What a run leaves behind: the lines written, each of which is followed
    by a newline in the file, and how the run ended. *)
Record written : Type := mk_written {
  lines : list string;
  final_status : status }.

(** [now_range] is the clock read by [find_operation_date_range] when no
    leg has a date, [today_date] the clock read for the header.  Console
    output is not modelled. *)
Definition write_ssim_with_segments (fuel : nat) (all_legs : list Leg)
    (shells : Shells) (now_range today_date : datetime) : written :=
  let time_zone := "L" in
  match find_operation_date_range all_legs time_zone now_range with
  | inl e => mk_written [] (Raised e)
  | inr (first_op_date, last_op_date) =>
      let head :=
        [TYPE1_HEADER] ++ zero_lines 4
        ++ [header2_record time_zone first_op_date last_op_date today_date]
        ++ zero_lines 4 in
      match shells with
      | [] => mk_written head NoShells
      | (first_shell_id, _) :: _ =>
          let '(body, record_serial, st) :=
            chain_loop fuel shells ∅ first_shell_id 3 [] in
          match st with
          | Completed =>
              mk_written
                (head ++ body ++ zero_lines 4
                 ++ [type5_record today_date record_serial] ++ zero_lines 14)
                Completed
          | _ => mk_written (head ++ body) st
          end
      end
  end.

(** The bytes of the output file. *)
Definition file_contents (w : written) : string :=
  fold_right (fun l acc => l +:+ String "010" acc) "" (lines w).

(** ** Reference definitions

    These follow the wording of the specification, not the script; the
    properties below compare them with the definitions above. *)

(** The date formats as the specification names them, in trial order. *)
Definition spec_date_formats : list (list directive) :=
  [ [Dir_d; Dir_b; Dir_y];                       (* ddMONyy *)
    [Dir_m; Lit "/"; Dir_d; Lit "/"; Dir_Y];     (* mm/dd/yyyy *)
    [Dir_m; Lit "/"; Dir_d; Lit "/"; Dir_y];     (* mm/dd/yy *)
    [Dir_d; Lit "-"; Dir_b; Lit "-"; Dir_y];     (* dd-MON-yy *)
    [Dir_d; Lit "/"; Dir_m; Lit "/"; Dir_Y];     (* dd/mm/yyyy *)
    [Dir_Y; Lit "-"; Dir_m; Lit "-"; Dir_d];     (* yyyy-mm-dd *)
    [Dir_d; Dir_b; Dir_Y];                       (* ddMONyyyy *)
    [Dir_m; Lit "-"; Dir_d; Lit "-"; Dir_Y] ].   (* mm-dd-yyyy *)

(** A string is blank when it is empty or made of white space only. *)
Definition blank (s : string) : bool :=
  forallb Str.is_space (list_ascii_of_string s).

(** "Attempt each format until one succeeds; return the first success";
    a blank input, or no success, is no value. *)
Definition spec_parse_date (s : string) : option datetime :=
  if blank s then None
  else
    first_some
      (fun fmt =>
         match strptime_compiled (Str.strip s) fmt with
         | inr dt => Some dt
         | inl _ => None
         end)
      spec_date_formats.

(** The four zones of the estimator. *)
Inductive zone : Type := Eastern | Central | Mountain | Pacific.

(** The zone of a code; a code in none of the four sets follows the
    Eastern rule. *)
Definition spec_zone (code : string) : zone :=
  if bool_decide (code ∈ pacific_airports) then Pacific
  else if bool_decide (code ∈ mountain_airports) then Mountain
  else if bool_decide (code ∈ central_airports) then Central
  else Eastern.

(** Daylight saving is in effect when the month is March to October. *)
Definition spec_is_dst (d : datetime) : bool :=
  bool_decide (month d ∈ [3; 4; 5; 6; 7; 8; 9; 10]).

Definition spec_offset (code : string) (d : datetime) : Q :=
  if bool_decide (code = "PHX") then (-7 # 1)%Q
  else
    match spec_zone code, spec_is_dst d with
    | Eastern, true => (-4 # 1)%Q | Eastern, false => (-5 # 1)%Q
    | Central, true => (-5 # 1)%Q | Central, false => (-6 # 1)%Q
    | Mountain, true => (-6 # 1)%Q | Mountain, false => (-7 # 1)%Q
    | Pacific, true => (-7 # 1)%Q | Pacific, false => (-8 # 1)%Q
    end.

(** The onward leg of each leg of a shell, in order. *)
Fixpoint onward_legs (shells : Shells) (processed_shells : gset string)
    (legs : list Leg) : list (option Leg) :=
  match legs with
  | [] => []
  | leg :: rest =>
      match rest with
      | next :: _ => Some next
      | [] => connecting_leg shells processed_shells leg
      end :: onward_legs shells processed_shells rest
  end.

(** One Type-3/Type-4 pair for each leg, the serial advancing by one after
    each record. *)
Fixpoint record_pairs (record_serial : Z) (pairs : list (Leg * option Leg))
    : list string :=
  match pairs with
  | [] => []
  | (leg, next) :: rest =>
      type3_record leg next record_serial
      :: type4_record leg (record_serial + 1)
      :: record_pairs (record_serial + 2) rest
  end.

(** The legs of a shell, none for an unknown id. *)
Definition legs_of (shells : Shells) (shell_id : string) : list Leg :=
  match shells_lookup shells shell_id with Some legs => legs | None => [] end.

(** The legs met, each with its onward leg, when the shells are visited in
    the given order. *)
Fixpoint visit (shells : Shells) (processed_shells : gset string)
    (order : list string) : list (Leg * option Leg) :=
  match order with
  | [] => []
  | shell_id :: rest =>
      let processed_shells := processed_shells ∪ {[ shell_id ]} in
      let legs := legs_of shells shell_id in
      zip legs (onward_legs shells processed_shells legs)
      ++ visit shells processed_shells rest
  end.

(** The lines before the records, and those after them. *)
Definition head_lines (first_op_date last_op_date today_date : datetime)
    : list string :=
  [TYPE1_HEADER] ++ zero_lines 4
  ++ [header2_record "L" first_op_date last_op_date today_date]
  ++ zero_lines 4.

Definition tail_lines (today_date : datetime) (record_serial : Z) : list string :=
  zero_lines 4 ++ [type5_record today_date record_serial] ++ zero_lines 14.

(** The serial field of a record, and the integer it reads as. *)
Definition serial_field (line : string) : string := Str.positions 195 200 line.

Definition serial_value (line : string) : result Z := py_int (serial_field line).

(** The calendar date of a [datetime]. *)
Definition date_of (d : datetime) : Z * Z * Z := (year d, month d, day d).

(** The time of day of a [datetime] is in range. *)
Definition valid_time (d : datetime) : Prop :=
  0 <= hour d <= 23 /\ 0 <= minute d <= 59 /\ 0 <= second d <= 59
  /\ 0 <= microsecond d <= 999999.

(** The columns that [read_low_csv] reads with [row[...]]. *)
Definition required_columns : list string :=
  ["Dept Time"; "Arvl Time"; "Dept Sta"; "Arvl Sta"; "Line Num"].

Definition has_required_columns (r : gmap string string) : Prop :=
  Forall (fun c => is_Some (r !! c)) required_columns.

(** The leg-sequence cell of a row is absent, or [int()] accepts it. *)
Definition seq_num_ok (r : gmap string string) : Prop :=
  match r !! "Leg Seq num" with
  | None => True
  | Some v => exists n, py_int v = inr n
  end.

(** The integer sort key of a leg, 1 when the column is absent. *)
Definition seq_num (x : Leg) : Z :=
  match leg_seq_key x with inr n => n | inl _ => 1 end.

(** A line of the output has the fixed record length. *)
Definition is_200 (l : string) : Prop := String.length l = 200%nat.

(** All the legs of all the shells. *)
Definition all_shell_legs (shells : Shells) : list Leg := concat (map snd shells).

(** The number that a decimal numeral denotes when its digits are read from
    the left, continuing from [acc]. *)
Fixpoint uint_value (d : Decimal.uint) (acc : Z) : Z :=
  match d with
  | Decimal.Nil => acc
  | Decimal.D0 l => uint_value l (10 * acc + 0)
  | Decimal.D1 l => uint_value l (10 * acc + 1)
  | Decimal.D2 l => uint_value l (10 * acc + 2)
  | Decimal.D3 l => uint_value l (10 * acc + 3)
  | Decimal.D4 l => uint_value l (10 * acc + 4)
  | Decimal.D5 l => uint_value l (10 * acc + 5)
  | Decimal.D6 l => uint_value l (10 * acc + 6)
  | Decimal.D7 l => uint_value l (10 * acc + 7)
  | Decimal.D8 l => uint_value l (10 * acc + 8)
  | Decimal.D9 l => uint_value l (10 * acc + 9)
  end.

(** The string holds decimal digits only. *)
Fixpoint digits_only (s : string) : bool :=
  match s with
  | EmptyString => true
  | String c s' => Str.is_digit c && digits_only s'
  end.

(** ** Example data

    Two one-leg rotations that connect at ATL, as in the scenario of the
    specification, and a clock. *)

Definition row_JFK_ATL : gmap string string :=
  list_to_map
    [ ("Dept Sta", "JFK"); ("Arvl Sta", "ATL");
      ("Dept Date", "20Dec25"); ("Arvl Date", "20Dec25");
      ("Dept Time", "930"); ("Arvl Time", "1145");
      ("Line Num", "1"); ("Leg Seq num", "1");
      ("Aln", "DL"); ("Flt Num", "100"); ("Service Type", "J");
      ("Equip", "73J"); ("AC Config", "F12Y100"); ("REASON CODE", "") ].

Definition row_ATL_JFK (line_num : string) : gmap string string :=
  list_to_map
    [ ("Dept Sta", "ATL"); ("Arvl Sta", "JFK");
      ("Dept Date", "20Dec25"); ("Arvl Date", "20Dec25");
      ("Dept Time", "1300"); ("Arvl Time", "1510");
      ("Line Num", line_num); ("Leg Seq num", "1");
      ("Aln", "AA"); ("Flt Num", "200"); ("Service Type", "J");
      ("Equip", "73J"); ("AC Config", "F12Y100"); ("REASON CODE", "") ].

Definition example_offsets : gmap string Q :=
  list_to_map [ ("JFK", (-5 # 1)%Q); ("ATL", (-5 # 1)%Q) ].

Definition leg_JFK_ATL : Leg :=
  mk_leg row_JFK_ATL
    (Some (mk_datetime 2025 12 20 9 30 0 0)) (Some (mk_datetime 2025 12 20 11 45 0 0))
    (Some (-5 # 1)%Q) (Some (-5 # 1)%Q) "0930" "1145".

Definition leg_ATL_JFK (line_num : string) : Leg :=
  mk_leg (row_ATL_JFK line_num)
    (Some (mk_datetime 2025 12 20 13 0 0 0)) (Some (mk_datetime 2025 12 20 15 10 0 0))
    (Some (-5 # 1)%Q) (Some (-5 # 1)%Q) "1300" "1510".

(** The shells read from the two rows, the second rotation having the
    given id. *)
Definition example_shells (line_num : string) : Shells :=
  [ ("1", [leg_JFK_ATL]); (line_num, [leg_ATL_JFK line_num]) ].

Definition example_legs (line_num : string) : list Leg :=
  [ leg_JFK_ATL; leg_ATL_JFK line_num ].

Definition example_now : datetime := mk_datetime 2026 11 3 10 0 0 0.

(** A leg without dates, and a single rotation of [n] such legs. *)
Definition bare_leg : Leg :=
  mk_leg (list_to_map [ ("Line Num", "1"); ("Arvl Sta", "ATL"); ("Dept Sta", "ATL") ])
    None None None None "0000" "0000".

Definition long_rotation (n : N) : Shells := [ ("1", repeat bare_leg (N.to_nat n)) ].

(** A shell connects to an arrival airport when it is unvisited and its
    first leg departs from that airport, whatever the case of the letters. *)
Definition connects (P : gset string) (a : string) (kl : string * list Leg) : Prop :=
  (fst kl ∉ P)
  /\ exists first rest,
       snd kl = first :: rest
       /\ Str.upper (leg_get first "Dept Sta" "") = Str.upper a.

(** The rotation id of a leg. *)
Definition leg_shell_id (leg : Leg) : string :=
  match row leg !! "Line Num" with Some v => v | None => "" end.

(** Grouping legs into shells, in the order of the rows. *)
Definition group_legs (legs : list Leg) (shells : Shells) : Shells :=
  fold_left (fun sh leg => shells_append sh (leg_shell_id leg) leg) legs shells.

(** A row whose leg-sequence cell is not a number. *)
Definition row_bad_seq : gmap string string :=
  <[ "Leg Seq num" := "abc" ]> row_JFK_ATL.

(** Order of keyed legs. *)
Definition by_key (a b : Z * Leg) : Prop := fst a <= fst b.

(** A row whose departure date is not a date, and the leg read from it. *)
Definition row_bad_date : gmap string string :=
  <[ "Dept Date" := "not-a-date" ]> row_JFK_ATL.

Definition leg_bad_date : Leg :=
  mk_leg row_bad_date
    None (Some (mk_datetime 2025 12 20 11 45 0 0))
    (Some (-5 # 1)%Q) (Some (-5 # 1)%Q) "0930" "1145".

(** ** [extract_airport_codes_and_date_range]

    The first pass over the LoW file.  [file] is the rows that
    [csv.DictReader] yields, [None] when the file does not exist; [now] is
    the clock read when no date is found. *)

(** [if row.get(key): d = parse_flexible_date(row[key]); if d:
    all_dates.append(d)] *)
Definition scan_date (r : gmap string string) (key : string)
    : result (list datetime) :=
  match r !! key with
  | Some v =>
      if truthy v then
        let* d := parse_flexible_date v in
        ret (match d with Some dt => [dt] | None => [] end)
      else ret []
  | None => ret []
  end.

Fixpoint scan_rows (rows : list (gmap string string)) (codes : gset string)
    (all_dates : list datetime) : result (gset string * list datetime) :=
  match rows with
  | [] => ret (codes, all_dates)
  | r :: rows' =>
      let* dept_sta := row_get r "Dept Sta" in
      let codes := codes ∪ {[ Str.upper dept_sta ]} in
      let* arvl_sta := row_get r "Arvl Sta" in
      let codes := codes ∪ {[ Str.upper arvl_sta ]} in
      let* dept_dates := scan_date r "Dept Date" in
      let* arvl_dates := scan_date r "Arvl Date" in
      scan_rows rows' codes (all_dates ++ dept_dates ++ arvl_dates)
  end.

Definition extract_airport_codes_and_date_range
    (file : option (list (gmap string string))) (now : datetime)
    : result (gset string * option datetime * option datetime) :=
  match file with
  | None => ret (∅, None, None)          (* [except FileNotFoundError] *)
  | Some rows =>
      let* r := scan_rows rows ∅ [] in
      let codes := fst r ∖ {[ "" ]} in
      match snd r with
      | d :: ds => ret (codes, Some (min_datetime d ds), Some (max_datetime d ds))
      | [] =>
          let first_date := now in
          let* last_date := add_micros first_date (timedelta_days 1) in
          ret (codes, Some first_date, Some last_date)
      end
  end.

(** ** [calculate_airport_utc_offsets]

    What the script takes from [airportsdata] and [zoneinfo]:
    [airport_tz code] is the time-zone name [info['tz']] of an airport that
    is listed with a non-empty one, and [tz_utcoffset tz d] is the offset in
    hours that the [try] block computes, [None] when that block raises. *)
Record tz_libraries : Type := mk_tz_libraries {
  airport_tz : string -> option string;
  tz_utcoffset : string -> datetime -> option Q }.

(** The offset stored for one code; [libraries] is [None] when
    [AIRPORTSDATA_AVAILABLE and ZONEINFO_AVAILABLE] is false. *)
Definition airport_offset (libraries : option tz_libraries) (code : string)
    (reference_date : datetime) : Q :=
  match libraries with
  | Some lib =>
      match airport_tz lib code with
      | None => estimate_us_timezone_offset code reference_date
      | Some tz =>
          match tz_utcoffset lib tz reference_date with
          | Some offset_hours => offset_hours
          | None => estimate_us_timezone_offset code reference_date
          end
      end
  | None => estimate_us_timezone_offset code reference_date
  end.

(** [for code in airport_codes: offsets[code] = ...] *)
Definition calculate_airport_utc_offsets (libraries : option tz_libraries)
    (airport_codes : gset string) (reference_date : datetime) : gmap string Q :=
  fold_left
    (fun offsets code => <[ code := airport_offset libraries code reference_date ]> offsets)
    (elements airport_codes) ∅.

(** ** The first writer, [write_ssim_with_segments_v0]

    The shells are written in the order of the dict; the onward leg of a
    leg is the next leg of its own shell. *)

(** The trailer line, as written in the script. *)
Definition V0_TRAILER : string :=
  "5                                                                                            000999".

Fixpoint emit_shell_v0 (shell_legs : list Leg) (record_serial : Z)
    : list string * Z :=
  match shell_legs with
  | [] => ([], record_serial)
  | leg :: rest =>
      let next_leg :=
        match rest with
        | next :: _ => Some next
        | [] => None
        end in
      let rec := type3_record leg next_leg record_serial in
      let record_serial := record_serial + 1 in
      let seg := type4_record leg record_serial in
      let record_serial := record_serial + 1 in
      let '(more, final_serial) := emit_shell_v0 rest record_serial in
      (rec :: seg :: more, final_serial)
  end.

(** [for shell_id, shell_legs in shells.items()] *)
Fixpoint emit_shells_v0 (shells : Shells) (record_serial : Z) : list string * Z :=
  match shells with
  | [] => ([], record_serial)
  | (_, shell_legs) :: rest =>
      let '(recs, record_serial) := emit_shell_v0 shell_legs record_serial in
      let '(more, final_serial) := emit_shells_v0 rest record_serial in
      (recs ++ more, final_serial)
  end.

Definition write_ssim_with_segments_v0 (all_legs : list Leg) (shells : Shells)
    (now_range today_date : datetime) : written :=
  let time_zone := "L" in
  match find_operation_date_range all_legs time_zone now_range with
  | inl e => mk_written [] (Raised e)
  | inr (first_op_date, last_op_date) =>
      let head :=
        [TYPE1_HEADER] ++ zero_lines 4
        ++ [header2_record time_zone first_op_date last_op_date today_date]
        ++ zero_lines 4 in
      let '(body, _) := emit_shells_v0 shells 3 in
      mk_written (head ++ body ++ [V0_TRAILER]) Completed
  end.

(** ** [main]

    Both passes read the same file.  The three clocks are those read by the
    scan, by [find_operation_date_range] and for the header. *)

(** How a run of [main] ends. *)
Inductive outcome : Type :=
| NoAirports                (* the early [return] after "No airport codes found" *)
| Failed (e : pyerr)
| NoDate                    (* [first_date] is [None] where a date is used *)
| NotFound                  (* [open] fails in [read_low_csv] *)
| Wrote (w : written).

Definition main (libraries : option tz_libraries)
    (file : option (list (gmap string string))) (fuel : nat)
    (now_scan now_range today_date : datetime) : outcome :=
  match extract_airport_codes_and_date_range file now_scan with
  | inl e => Failed e
  | inr (airport_codes, first_date, last_date) =>
      if decide (airport_codes = ∅) then NoAirports
      else
        match first_date with
        | None => NoDate
        | Some first_date =>
            let airport_offsets :=
              calculate_airport_utc_offsets libraries airport_codes first_date in
            match file with
            | None => NotFound
            | Some rows =>
                match read_low_csv rows airport_offsets with
                | inl e => Failed e
                | inr (all_legs, shells) =>
                    Wrote (write_ssim_with_segments fuel all_legs shells
                             now_range today_date)
                end
            end
        end
  end.

(** ** Reference definitions for the remaining functions *)

(** The first of the columns read with [row[...]] that a row lacks. *)
Definition first_missing (r : gmap string string) : option string :=
  List.find (fun c => bool_decide (r !! c = None)) required_columns.

(** The distinct elements of a list, in the order of their first occurrence. *)
Fixpoint first_occurrences (l : list string) : list string :=
  match l with
  | [] => []
  | x :: l' => x :: filter (fun y => y <> x) (first_occurrences l')
  end.

(** A row of a rotation, without dates, and four rows of two rotations that
    are not in the order of their sequence numbers. *)
Definition row_of (line_num seq_num dept arvl flt : string) : gmap string string :=
  list_to_map
    [ ("Line Num", line_num); ("Leg Seq num", seq_num);
      ("Dept Sta", dept); ("Arvl Sta", arvl);
      ("Dept Time", "800"); ("Arvl Time", "0930"); ("Flt Num", flt) ].

Definition example_rows : list (gmap string string) :=
  [ row_of "7" "2" "ATL" "JFK" "10"; row_of "3" "1" "jfk" "BOS" "11";
    row_of "7" "1" "BOS" "ATL" "12"; row_of "7" "2" "JFK" "MIA" "13" ].

(** The calendar date of a [datetime] exists. *)
Definition valid_date (d : datetime) : Prop :=
  1 <= year d <= 9999 /\ 1 <= month d <= 12
  /\ 1 <= day d <= days_in_month (year d) (month d).

(** The year that [%y] gives to a two-digit year. *)
Definition pivot_year (yy : Z) : Z := if yy <=? 68 then yy + 2000 else yy + 1900.

(** The same day at 00:00. *)
Definition midnight (d : datetime) : datetime :=
  mk_datetime (year d) (month d) (day d) 0 0 0 0.

(** No character of the string is white space. *)
Fixpoint no_space (s : string) : bool :=
  match s with
  | EmptyString => true
  | String c s' => negb (Str.is_space c) && no_space s'
  end.

(** One step of the check of [p] on 0, 1, 2, ... *)
Definition check_step (p : Z -> bool) (st : Z * bool) : Z * bool :=
  (fst st + 1, snd st && p (fst st)).

(** The four-character time [t] reads as hour [n / 100] and minute
    [n mod 100]. *)
Definition reads_hhmm (n : Z) : bool :=
  let t := Str.zfill 4 (Str.of_Z n) in
  match py_int (Str.take 2 t), py_int (Str.drop 2 t) with
  | inr hh, inr mm => (hh =? n / 100) && (mm =? n mod 100)
  | _, _ => false
  end.

(** The onward leg of each leg of a shell when only the shell itself is
    looked at: the last leg has none. *)
Fixpoint onward_in_shell (legs : list Leg) : list (option Leg) :=
  match legs with
  | [] => []
  | leg :: rest =>
      match rest with
      | next :: _ => Some next
      | [] => None
      end :: onward_in_shell rest
  end.

(** The legs of the shells in the order of the dict, each with the next leg
    of its own shell. *)
Definition pairs_in_order (shells : Shells) : list (Leg * option Leg) :=
  flat_map (fun kl => zip (snd kl) (onward_in_shell (snd kl))) shells.

(** No shell starts at the airport where a shell ends. *)
Definition no_connection (shells : Shells) : Prop :=
  forall kl kl' last_leg first rest,
    kl ∈ shells -> kl' ∈ shells ->
    last (snd kl) = Some last_leg -> snd kl' = first :: rest ->
    Str.upper (leg_get first "Dept Sta" "")
    <> Str.upper (leg_get last_leg "Arvl Sta" "").

(** Two rotations that do not connect. *)
Definition separate_shells : Shells :=
  [ ("1", [leg_JFK_ATL]); ("2", [leg_JFK_ATL]) ].

(** The date-times of a leg, departure first. *)
Definition leg_dates (leg : Leg) : list datetime :=
  match Dept_DateTime leg with Some d => [d] | None => [] end
  ++ match Arvl_DateTime leg with Some d => [d] | None => [] end.

(** The date that a cell of a row holds, if the column is there and the
    parser accepts the cell. *)
Definition cell_dates (r : gmap string string) (key : string) : list datetime :=
  match r !! key with
  | Some v => match spec_parse_date v with Some d => [d] | None => [] end
  | None => []
  end.

Definition row_dates (r : gmap string string) : list datetime :=
  cell_dates r "Dept Date" ++ cell_dates r "Arvl Date".

(** The station cells of a row. *)
Definition row_stations (r : gmap string string) : list string :=
  match r !! "Dept Sta" with Some v => [v] | None => [] end
  ++ match r !! "Arvl Sta" with Some v => [v] | None => [] end.

(** The legs and the shells that the reader makes of [example_rows]. *)
Definition example_rows_leg (r : gmap string string) : Leg :=
  mk_leg r None None None None "0800" "0930".

Definition example_rows_legs : list Leg := map example_rows_leg example_rows.

Definition example_rows_shells : Shells :=
  [ ("7", [ example_rows_leg (row_of "7" "1" "BOS" "ATL" "12");
            example_rows_leg (row_of "7" "2" "ATL" "JFK" "10");
            example_rows_leg (row_of "7" "2" "JFK" "MIA" "13") ]);
    ("3", [ example_rows_leg (row_of "3" "1" "jfk" "BOS" "11") ]) ].

(** Every onward leg is the leg of the pair that follows; [after] is the
    leg that follows the whole list, if any. *)
Fixpoint linked_to (pairs : list (Leg * option Leg)) (after : option Leg) : Prop :=
  match pairs with
  | [] => True
  | (leg, onward) :: rest =>
      (forall n, onward = Some n ->
         match rest with
         | (next, _) :: _ => Some next
         | [] => after
         end = Some n)
      /\ linked_to rest after
  end.

(** The leg of the first pair. *)
Definition first_leg (pairs : list (Leg * option Leg)) : option Leg :=
  match pairs with
  | (leg, _) :: _ => Some leg
  | [] => None
  end.

(** ** Reference definitions for the rows of [csv.DictReader] *)

(** What stops the reader at a cell on which it calls a method: the header
    lacks the column, or the record is too short to have the cell. *)
Definition cell_fault (r : gmap string cell) (key name : string) : option pyerr :=
  match r !! key with
  | None => Some (KeyError key)
  | Some None => Some (AttributeError name)
  | Some (Some _) => None
  end.

(** What stops the reader at a row, in the order in which it reads the
    cells.  The rotation id is only looked up: [None] is an id. *)
Definition row_fault (r : gmap string cell) : option pyerr :=
  match cell_fault r "Dept Time" "zfill" with
  | Some e => Some e
  | None =>
  match cell_fault r "Arvl Time" "zfill" with
  | Some e => Some e
  | None =>
  match cell_fault r "Dept Sta" "upper" with
  | Some e => Some e
  | None =>
  match cell_fault r "Arvl Sta" "upper" with
  | Some e => Some e
  | None =>
  match r !! "Line Num" with
  | None => Some (KeyError "Line Num")
  | Some _ => None
  end end end end end.

(** The leg-sequence cell of a row: a string that [int()] accepts, or no
    such column; the cell [None] of a short record; a string that [int()]
    rejects. *)
Definition seq_cell_ok (r : gmap string cell) : Prop :=
  match r !! "Leg Seq num" with
  | None => True
  | Some None => False
  | Some (Some v) => exists n, py_int v = inr n
  end.

Definition seq_cell_none (r : gmap string cell) : Prop :=
  r !! "Leg Seq num" = Some None.

Definition seq_cell_rejected (r : gmap string cell) : Prop :=
  exists v, r !! "Leg Seq num" = Some (Some v) /\ py_int v = inl ValueError.

(** The integer sort key of a leg, 1 when the column is absent. *)
Definition csv_seq_num (x : CsvLeg) : Z :=
  match csv_leg_seq_key x with inr n => n | inl _ => 1 end.

Definition csv_by_key (a b : Z * CsvLeg) : Prop := fst a <= fst b.

Definition csv_all_shell_legs (shells : CsvShells) : list CsvLeg :=
  concat (map snd shells).

(** The rotation id of a leg, and the grouping of legs in the order of
    the rows. *)
Definition csv_leg_shell_id (leg : CsvLeg) : cell :=
  match csv_row leg !! "Line Num" with Some c => c | None => None end.

Definition csv_group_legs (legs : list CsvLeg) (shells : CsvShells) : CsvShells :=
  fold_left (fun sh leg => csv_shells_append sh (csv_leg_shell_id leg) leg)
    legs shells.

(** The leg and the row of [csv.DictReader] whose cells are those of a
    row of strings. *)
Definition csv_leg (x : Leg) : CsvLeg :=
  mk_csv_leg (Some <$> row x) (Dept_DateTime x) (Arvl_DateTime x)
    (Dept_UTC_Offset x) (Arvl_UTC_Offset x) (Dept_Time x) (Arvl_Time x).

Definition csv_shells (shells : Shells) : CsvShells :=
  map (fun kl => (Some (fst kl), map csv_leg (snd kl))) shells.

(** [dict(zip(fieldnames, record))] for a record that is not shorter than
    the header. *)
Fixpoint string_row (fieldnames record : list string) (d : gmap string string)
    : gmap string string :=
  match fieldnames, record with
  | key :: fieldnames', v :: record' =>
      string_row fieldnames' record' (<[key := v]> d)
  | _, _ => d
  end.

(** The records of a file that are not blank. *)
Definition data_records (rest : list (list string)) : list (list string) :=
  filter (fun record => record <> []) rest.

(** A file with the columns of the examples: the header, a flight from JFK
    to ATL and the flight back, in one rotation. *)
Definition example_header : list string :=
  ["Line Num"; "Aln"; "Flt Num"; "Dept Sta"; "Arvl Sta";
   "Dept Date"; "Arvl Date"; "Dept Time"; "Arvl Time"; "Leg Seq num"].

Definition example_file : list (list string) :=
  [ example_header;
    ["1"; "AA"; "100"; "JFK"; "ATL"; "20Dec25"; "20Dec25"; "930"; "1145"; "1"];
    [];
    ["1"; "AA"; "200"; "ATL"; "JFK"; "20Dec25"; "20Dec25"; "1300"; "1515"; "2"] ].

(** The same file without the column of the leg sequence. *)
Definition example_file_no_seq : list (list string) :=
  map (take 9) example_file.

(** The same file with a second record that stops before its last cell,
    and with one that stops before its arrival time. *)
Definition example_file_short_seq : list (list string) :=
  [ example_header;
    ["1"; "AA"; "100"; "JFK"; "ATL"; "20Dec25"; "20Dec25"; "930"; "1145"; "1"];
    ["1"; "AA"; "200"; "ATL"; "JFK"; "20Dec25"; "20Dec25"; "1300"; "1515"] ].

Definition example_file_short_time : list (list string) :=
  [ example_header;
    ["1"; "AA"; "100"; "JFK"; "ATL"; "20Dec25"; "20Dec25"; "930"; "1145"; "1"];
    ["1"; "AA"; "200"; "ATL"; "JFK"; "20Dec25"; "20Dec25"; "1300"] ].

(** ** Reference definitions for the lines of the file *)

(** The lines of a text, as a reader of the file sees them: a line ends
    at the newline that follows it, and what comes after the last newline
    is a line when it is not empty. *)
Fixpoint text_lines (s : string) : list string :=
  match s with
  | EmptyString => []
  | String c s' =>
      if Ascii.eqb c "010" then EmptyString :: text_lines s'
      else
        match text_lines s' with
        | [] => [String c EmptyString]
        | l :: ls => String c l :: ls
        end
  end.

(** A string without a line break. *)
Fixpoint no_line_break (s : string) : bool :=
  match s with
  | EmptyString => true
  | String c s' => negb (Ascii.eqb c "010") && no_line_break s'
  end.

(** No cell of the leg has a line break. *)
Definition leg_no_line_break (leg : Leg) : Prop :=
  map_Forall (fun _ v => no_line_break v = true) (row leg)
  /\ no_line_break (Dept_Time leg) = true
  /\ no_line_break (Arvl_Time leg) = true.

(** A row whose flight number is a cell of two lines, [12] and [4]; in a
    CSV file such a cell stands between quotes. *)
Definition row_line_break : gmap string string :=
  <[ "Flt Num" := String "1" (String "2" (String "010" (String "4" EmptyString))) ]>
    row_JFK_ATL.

(** * Properties *)

(** ** Strings *)

Lemma str_app_cons (c : ascii) (a b : string) :
  String c a +:+ b = String c (a +:+ b).
Proof. reflexivity. Qed.

Lemma str_app_nil (b : string) : "" +:+ b = b.
Proof. reflexivity. Qed.

Lemma str_length_app (a b : string) :
  String.length (a +:+ b) = (String.length a + String.length b)%nat.
Proof.
  induction a as [|c a IH]; [reflexivity|].
  rewrite str_app_cons. cbn. now rewrite IH.
Qed.

Lemma str_app_assoc (a b c : string) : (a +:+ b) +:+ c = a +:+ (b +:+ c).
Proof.
  induction a as [|x a IH]; [reflexivity|].
  rewrite !str_app_cons. now rewrite IH.
Qed.

Lemma str_app_empty_r (a : string) : a +:+ "" = a.
Proof.
  induction a as [|x a IH]; [reflexivity|].
  rewrite str_app_cons. now rewrite IH.
Qed.

Lemma length_rep (n : nat) (c : ascii) : String.length (Str.rep n c) = n.
Proof. induction n as [|n IH]; cbn; [reflexivity | now rewrite IH]. Qed.

Lemma length_take (n : nat) (s : string) :
  String.length (Str.take n s) = Nat.min n (String.length s).
Proof.
  revert s; induction n as [|n IH]; intros [|c s]; cbn; try reflexivity.
  now rewrite IH.
Qed.

Lemma length_drop (n : nat) (s : string) :
  String.length (Str.drop n s) = (String.length s - n)%nat.
Proof.
  revert s; induction n as [|n IH]; intros [|c s]; cbn; try reflexivity.
  apply IH.
Qed.

Lemma take_all (n : nat) (s : string) :
  (String.length s <= n)%nat -> Str.take n s = s.
Proof.
  revert s; induction n as [|n IH]; intros [|c s] H; cbn in *; try reflexivity.
  - lia.
  - f_equal. apply IH. lia.
Qed.

Lemma drop_0 (s : string) : Str.drop 0 s = s.
Proof. now destruct s. Qed.

Lemma take_app_exact (a b : string) (n : nat) :
  String.length a = n -> Str.take n (a +:+ b) = a.
Proof.
  revert n; induction a as [|c a IH]; intros n <-.
  - reflexivity.
  - rewrite str_app_cons. cbn. f_equal. now apply IH.
Qed.

Lemma drop_app_ge (a b : string) (n k : nat) :
  String.length a = k -> (k <= n)%nat ->
  Str.drop n (a +:+ b) = Str.drop (n - k) b.
Proof.
  revert n k; induction a as [|c a IH]; intros n k <- Hle.
  - rewrite str_app_nil. cbn. now rewrite Nat.sub_0_r.
  - rewrite str_app_cons. cbn in *.
    destruct n as [|n]; [lia|]. cbn. apply IH; [reflexivity | lia].
Qed.

Lemma slice_app_skip (a b : string) (i n k : nat) :
  String.length a = k -> (k <= i)%nat ->
  Str.slice i n (a +:+ b) = Str.slice (i - k) n b.
Proof. intros Hk Hle. unfold Str.slice. now rewrite (drop_app_ge a b i k). Qed.

Lemma slice_app_here (a b : string) (n : nat) :
  String.length a = n -> Str.slice 0 n (a +:+ b) = a.
Proof. intros H. unfold Str.slice. rewrite drop_0. now apply take_app_exact. Qed.

Lemma slice_whole (a : string) (n : nat) :
  String.length a = n -> Str.slice 0 n a = a.
Proof. intros H. unfold Str.slice. rewrite drop_0. apply take_all. lia. Qed.

(** ** Padding *)

Lemma length_pad_right (s : string) (n : nat) : String.length (pad_right s n) = n.
Proof.
  unfold pad_right, Str.ljust. rewrite str_length_app, length_rep, length_take. lia.
Qed.

Lemma length_pad_left (s : string) (n : nat) (fill : ascii) :
  (0 < n)%nat -> String.length (pad_left s n fill) = n.
Proof.
  intros Hn. unfold pad_left, Str.rjust, Str.last_n.
  destruct n as [|n]; [lia|].
  rewrite str_length_app, length_rep, length_drop. lia.
Qed.

Lemma pad_right_exact (s : string) (n : nat) :
  String.length s = n -> pad_right s n = s.
Proof.
  intros H. unfold pad_right, Str.ljust.
  rewrite take_all by lia. rewrite H, Nat.sub_diag. apply str_app_empty_r.
Qed.

Lemma pad_right_long (s : string) (n : nat) :
  (n <= String.length s)%nat -> pad_right s n = Str.take n s.
Proof.
  intros H. unfold pad_right, Str.ljust. rewrite length_take.
  replace (n - Nat.min n (String.length s))%nat with 0%nat by lia.
  apply str_app_empty_r.
Qed.

Lemma pad_left_long (s : string) (n : nat) (fill : ascii) :
  (0 < n)%nat -> (n <= String.length s)%nat ->
  pad_left s n fill = Str.drop (String.length s - n) s.
Proof.
  intros Hn H. unfold pad_left, Str.rjust, Str.last_n.
  destruct n as [|n]; [lia|]. rewrite length_drop.
  replace (S n - (String.length s - (String.length s - S n)))%nat with 0%nat by lia.
  reflexivity.
Qed.

Lemma pad_left_short (s : string) (n : nat) (fill : ascii) :
  (String.length s <= n)%nat ->
  pad_left s n fill = Str.rep (n - String.length s) fill +:+ s.
Proof.
  intros H. unfold pad_left, Str.rjust, Str.last_n.
  destruct n as [|n]; [reflexivity|].
  replace (String.length s - S n)%nat with 0%nat by lia.
  now rewrite drop_0.
Qed.

(** ** Reading a field of a record by its positions *)

Lemma slice_skip_pad_right (s b : string) (w i n : nat) :
  (w <= i)%nat ->
  Str.slice i n (pad_right s w +:+ b) = Str.slice (i - w) n b.
Proof. intros H. apply slice_app_skip; [apply length_pad_right | exact H]. Qed.

Lemma slice_skip_pad_left (s b : string) (f : ascii) (w i n : nat) :
  (0 < w)%nat -> (w <= i)%nat ->
  Str.slice i n (pad_left s w f +:+ b) = Str.slice (i - w) n b.
Proof. intros Hw H. apply slice_app_skip; [now apply length_pad_left | exact H]. Qed.

Lemma slice_here_pad_right (s b : string) (w i : nat) :
  i = 0%nat -> Str.slice i w (pad_right s w +:+ b) = pad_right s w.
Proof. intros ->. apply slice_app_here, length_pad_right. Qed.

Lemma slice_here_pad_left (s b : string) (f : ascii) (w i : nat) :
  i = 0%nat -> (0 < w)%nat ->
  Str.slice i w (pad_left s w f +:+ b) = pad_left s w f.
Proof. intros -> Hw. apply slice_app_here. now apply length_pad_left. Qed.

Lemma slice_last_pad_left (s : string) (f : ascii) (w i : nat) :
  i = 0%nat -> (0 < w)%nat ->
  Str.slice i w (pad_left s w f) = pad_left s w f.
Proof. intros -> Hw. apply slice_whole. now apply length_pad_left. Qed.

(** Walk to the field that starts at the position asked for. *)
Ltac skip_fields :=
  unfold Str.positions;
  repeat first
    [ rewrite slice_skip_pad_right by lia
    | rewrite slice_skip_pad_left by lia ].

Ltac read_field :=
  skip_fields;
  first
    [ rewrite slice_here_pad_right by lia
    | rewrite slice_here_pad_left by lia
    | rewrite slice_last_pad_left by lia ].

Ltac field_lengths :=
  repeat rewrite str_length_app;
  repeat rewrite length_pad_right;
  repeat rewrite length_pad_left by lia.

Lemma leg_get_row (leg : Leg) (key d : string) :
  String.eqb key "Dept Time" = false ->
  String.eqb key "Arvl Time" = false ->
  leg_get leg key d = match row leg !! key with Some v => v | None => d end.
Proof. intros H1 H2. unfold leg_get. now rewrite H1, H2. Qed.

(** ** Length of the records *)

Lemma length_type3_record (leg : Leg) (next : option Leg) (serial : Z) :
  String.length (type3_record leg next serial) = 200%nat.
Proof. unfold type3_record. apply length_pad_right. Qed.

Lemma length_type4_record (leg : Leg) (serial : Z) :
  String.length (type4_record leg serial) = 200%nat.
Proof. unfold type4_record. apply length_pad_right. Qed.

Lemma length_type5_record (today : datetime) (serial : Z) :
  String.length (type5_record today serial) = 200%nat.
Proof. unfold type5_record. apply length_pad_right. Qed.

Lemma length_header2_record (tz : string) (d1 d2 d3 : datetime) :
  String.length (header2_record tz d1 d2 d3) = 200%nat.
Proof.
  unfold header2_record. rewrite str_length_app, length_pad_right. reflexivity.
Qed.

Lemma length_TYPE1_HEADER : String.length TYPE1_HEADER = 200%nat.
Proof. reflexivity. Qed.

Lemma length_zero_line : String.length zero_line = 200%nat.
Proof. apply length_rep. Qed.

(** The padding to 200 at the end of a record changes nothing: the fields
    already add up to 200 characters. *)
Lemma type3_record_fields (leg : Leg) (next : option Leg) (serial : Z) :
  type3_record leg next serial =
      pad_right "3" 1 +:+ pad_right "" 1
      +:+ pad_right (leg_get leg "Aln" "DL") 3
      +:+ pad_left (leg_get leg "Flt Num" "") 4 " "
      +:+ pad_left (leg_get leg "Line Num" "1") 2 "0"
      +:+ pad_left (leg_get leg "Leg Seq num" "1") 2 "0"
      +:+ pad_right (leg_get leg "Service Type" "J") 1
      +:+ pad_right (format_ssim_date (Dept_DateTime leg)
                     +:+ format_ssim_date (Dept_DateTime leg)) 14
      +:+ pad_left (match Dept_DateTime leg with
                    | Some d => strftime_u d | None => "1" end) 7 " "
      +:+ pad_right "" 1
      +:+ pad_right (leg_get leg "Dept Sta" "") 3
      +:+ pad_right (ssim_time_field (Dept_Time leg)) 4
      +:+ pad_right (ssim_time_field (Dept_Time leg)) 4
      +:+ pad_right (format_utc_offset (Dept_UTC_Offset leg)) 5
      +:+ pad_right "" 2
      +:+ pad_right (leg_get leg "Arvl Sta" "") 3
      +:+ pad_right (ssim_time_field (Arvl_Time leg)) 4
      +:+ pad_right (ssim_time_field (Arvl_Time leg)) 4
      +:+ pad_right (format_utc_offset (Arvl_UTC_Offset leg)) 5
      +:+ pad_right "" 2
      +:+ pad_right (leg_get leg "Equip" "73J") 3
      +:+ pad_right "" 23 +:+ pad_right "" 3 +:+ pad_right "" 36
      +:+ pad_right (match next with
                     | Some n => leg_get n "Aln" "" | None => "" end) 3
      +:+ pad_left (match next with
                    | Some n => leg_get n "Flt Num" "" | None => "" end) 4 " "
      +:+ pad_left "" 1 " " +:+ pad_left "" 1 " "
      +:+ pad_right "" 26
      +:+ pad_right (leg_get leg "AC Config" "" +:+ "VV10") 20
      +:+ pad_right "" 2
      +:+ pad_left (Str.of_Z serial) 6 "0".
Proof.
  unfold type3_record. cbv zeta. apply pad_right_exact.
  field_lengths. reflexivity.
Qed.

Lemma type4_record_fields (leg : Leg) (serial : Z) :
  type4_record leg serial =
    pad_right "4" 1 +:+ pad_right "" 1
    +:+ pad_right (leg_get leg "Aln" "DL") 3
    +:+ pad_left (leg_get leg "Flt Num" "") 4 " "
    +:+ pad_left (leg_get leg "Line Num" "1") 2 "0"
    +:+ pad_left (leg_get leg "Leg Seq num" "1") 2 "0"
    +:+ pad_right (leg_get leg "Service Type" "J") 1
    +:+ pad_right "" 13 +:+ pad_right "" 1
    +:+ pad_right "A" 1 +:+ pad_right "B" 1 +:+ pad_left "997" 3 "0"
    +:+ pad_right (leg_get leg "Dept Sta" "") 3
    +:+ pad_right (leg_get leg "Arvl Sta" "") 3
    +:+ pad_right (leg_get leg "REASON CODE" " ") 155
    +:+ pad_left (Str.of_Z serial) 6 "0".
Proof.
  unfold type4_record. cbv zeta. apply pad_right_exact.
  field_lengths. reflexivity.
Qed.

Lemma type5_record_fields (today : datetime) (serial : Z) :
  type5_record today serial =
    pad_right "5" 1 +:+ pad_right "" 1 +:+ pad_right "DL" 3
    +:+ pad_left (Str.upper (strftime_dby today)) 7 " "
    +:+ pad_left "" 175 " " +:+ pad_left "000999" 6 " "
    +:+ pad_left "E" 1 " "
    +:+ pad_left (Str.of_Z serial) 6 "0".
Proof.
  unfold type5_record. cbv zeta. apply pad_right_exact.
  field_lengths. reflexivity.
Qed.

(** The serial field of each kind of record. *)
Lemma serial_field_type3 (leg : Leg) (next : option Leg) (serial : Z) :
  serial_field (type3_record leg next serial) = pad_left (Str.of_Z serial) 6 "0".
Proof.
  rewrite type3_record_fields. unfold serial_field. now read_field.
Qed.

Lemma serial_field_type4 (leg : Leg) (serial : Z) :
  serial_field (type4_record leg serial) = pad_left (Str.of_Z serial) 6 "0".
Proof. rewrite type4_record_fields. unfold serial_field. now read_field. Qed.

Lemma serial_field_type5 (today : datetime) (serial : Z) :
  serial_field (type5_record today serial) = pad_left (Str.of_Z serial) 6 "0".
Proof. rewrite type5_record_fields. unfold serial_field. now read_field. Qed.

(** The onward fields of a Type-3 record. *)
Lemma onward_fields_type3 (leg : Leg) (next : option Leg) (serial : Z) :
  Str.positions 138 140 (type3_record leg next serial)
  = pad_right (match next with Some n => leg_get n "Aln" "" | None => "" end) 3
  /\ Str.positions 141 144 (type3_record leg next serial)
     = pad_left (match next with Some n => leg_get n "Flt Num" "" | None => "" end) 4 " ".
Proof.
  rewrite type3_record_fields. split; now read_field.
Qed.

(** ** Every line has 200 characters *)

Lemma Forall_zero_lines (n : nat) : Forall is_200 (zero_lines n).
Proof.
  unfold zero_lines. induction n as [|n IH]; cbn; constructor; auto.
  apply length_zero_line.
Qed.

Lemma emit_shell_is_200 (shells : Shells) (P : gset string) (legs : list Leg) (s : Z) :
  Forall is_200 (fst (emit_shell shells P legs s)).
Proof.
  revert s; induction legs as [|leg rest IH]; intros s; cbn [emit_shell fst];
    [constructor|].
  specialize (IH (s + 1 + 1)).
  destruct (emit_shell shells P rest (s + 1 + 1)) as [more fin]. cbn [fst] in *.
  repeat constructor; auto.
  - apply length_type3_record.
  - apply length_type4_record.
Qed.

Lemma chain_loop_is_200 (fuel : nat) (shells : Shells) :
  forall (P : gset string) (cur : string) (s : Z) (out : list string),
    Forall is_200 out ->
    Forall is_200 (fst (fst (chain_loop fuel shells P cur s out))).
Proof.
  induction fuel as [|fuel IH]; intros P cur s out Hout; cbn [chain_loop].
  - destruct (Nat.ltb _ _); exact Hout.
  - destruct (Nat.ltb _ _); [|exact Hout].
    destruct (shells_lookup shells cur) as [legs|]; [|exact Hout].
    pose proof (emit_shell_is_200 shells (P ∪ {[cur]}) legs s) as Hrec.
    destruct (emit_shell shells (P ∪ {[cur]}) legs s) as [recs s'].
    cbn [fst] in Hrec.
    assert (Forall is_200 (out ++ recs)) as Hout' by (apply Forall_app; auto).
    destruct (Nat.ltb _ _); [|now apply IH].
    destruct (last legs); [|exact Hout'].
    now apply IH.
Qed.

(** Every string that the chained writer writes (the Type-1 line, the
    zero-fill lines, the Type-2 header, each Type-3 and Type-4 record and
    the Type-5 trailer) has exactly 200 characters, whatever the input and
    however the run ends. *)
Lemma written_lines_are_200
    (fuel : nat) (all_legs : list Leg) (shells : Shells)
    (now_range today_date : datetime) :
  Forall (fun l => String.length l = 200%nat)
    (lines (write_ssim_with_segments fuel all_legs shells now_range today_date)).
Proof.
  change (Forall is_200
    (lines (write_ssim_with_segments fuel all_legs shells now_range today_date))).
  unfold write_ssim_with_segments.
  destruct (find_operation_date_range all_legs "L" now_range) as [e|[d1 d2]];
    [constructor|].
  assert (Forall is_200
            ([TYPE1_HEADER] ++ zero_lines 4
             ++ [header2_record "L" d1 d2 today_date] ++ zero_lines 4)) as Hhead.
  { repeat (apply Forall_app; split); try apply Forall_zero_lines.
    - apply Forall_singleton, length_TYPE1_HEADER.
    - apply Forall_singleton, length_header2_record. }
  destruct shells as [|[k0 l0] rest]; [exact Hhead|].
  pose proof (chain_loop_is_200 fuel ((k0, l0) :: rest) ∅ k0 3 [] (List.Forall_nil _))
    as Hbody.
  destruct (chain_loop fuel ((k0, l0) :: rest) ∅ k0 3 []) as [[body s] st].
  cbn [fst] in Hbody.
  destruct st; cbn [lines];
    (apply Forall_app; split; [exact Hhead|]);
    try (apply Forall_app; split; [exact Hbody|]); try exact Hbody.
  repeat (apply Forall_app; split); try apply Forall_zero_lines.
  apply Forall_singleton, length_type5_record.
Qed.



(** C10.  Truncation differs by alignment: a string longer than its slot
    keeps its first characters in a left-aligned field and its last
    characters in a right-aligned one; so a five-digit flight number
    appears as its last four digits in positions 6-9 and a four-character
    airline code as its first three characters in positions 3-5. *)
Theorem truncation_direction
    (s : string) (n : nat) (fill : ascii)
    (leg : Leg) (next : option Leg) (serial : Z) :
  (0 < n)%nat -> (n < String.length s)%nat ->
  (pad_right s n = Str.take n s
   /\ pad_left s n fill = Str.drop (String.length s - n) s)
  /\ (row leg !! "Flt Num" = Some "12345" ->
      Str.positions 6 9 (type3_record leg next serial) = "2345")
  /\ (row leg !! "Aln" = Some "DALX" ->
      Str.positions 3 5 (type3_record leg next serial) = "DAL").
Proof.
  intros Hn Hlen. split; [split|split].
  - apply pad_right_long. lia.
  - apply pad_left_long; lia.
  - intros H. rewrite type3_record_fields. read_field.
    rewrite leg_get_row by reflexivity. now rewrite H.
  - intros H. rewrite type3_record_fields. read_field.
    rewrite leg_get_row by reflexivity. now rewrite H.
Qed.

Lemma truncation_direction_witness :
  let leg := mk_leg {[ "Flt Num" := "12345"; "Aln" := "DALX" ]}
               None None None None "0930" "1145" in
  pad_right "DALX" 3 = "DAL" /\ pad_left "12345" 4 " " = "2345"
  /\ Str.positions 6 9 (type3_record leg None 3) = "2345"
  /\ Str.positions 3 5 (type3_record leg None 3) = "DAL".
Proof.
  intros leg.
  destruct (truncation_direction "12345" 4 " " leg None 3) as ((_ & H2) & H3 & H4);
    [lia | cbn; lia |].
  destruct (truncation_direction "DALX" 3 " " leg None 3) as ((H1 & _) & _);
    [lia | cbn; lia |].
  split; [exact H1 | split; [exact H2 | split]].
  - apply H3. reflexivity.
  - apply H4. reflexivity.
Defined.

(** ** The static offset estimator *)

Lemma spec_is_dst_months (d : datetime) :
  spec_is_dst d = (3 <=? month d) && (month d <=? 10).
Proof.
  unfold spec_is_dst.
  destruct ((3 <=? month d) && (month d <=? 10)) eqn:E.
  - apply andb_true_iff in E as [E1 E2].
    apply Z.leb_le in E1. apply Z.leb_le in E2.
    apply bool_decide_eq_true. rewrite !elem_of_cons. lia.
  - apply bool_decide_eq_false. rewrite !elem_of_cons, elem_of_nil.
    apply andb_false_iff in E as [E|E]; apply Z.leb_gt in E; lia.
Qed.

Lemma zones_disjoint :
  eastern_airports ## central_airports
  /\ eastern_airports ## mountain_airports
  /\ eastern_airports ## pacific_airports
  /\ central_airports ## mountain_airports
  /\ central_airports ## pacific_airports
  /\ mountain_airports ## pacific_airports.
Proof.
  repeat split; apply disjoint_intersection_L;
    apply (bool_decide_unpack _); vm_compute; exact I.
Qed.

Lemma PHX_zone :
  ("PHX" ∈ mountain_airports) /\ ("PHX" ∉ eastern_airports)
  /\ ("PHX" ∉ central_airports) /\ ("PHX" ∉ pacific_airports).
Proof.
  repeat split; apply (bool_decide_unpack _); vm_compute; exact I.
Qed.

Lemma zone_flags (code : string) :
  let e := bool_decide (code ∈ eastern_airports) in
  let c := bool_decide (code ∈ central_airports) in
  let m := bool_decide (code ∈ mountain_airports) in
  let p := bool_decide (code ∈ pacific_airports) in
  let x := bool_decide (code = "PHX") in
  (e && c = false) /\ (e && m = false) /\ (e && p = false)
  /\ (c && m = false) /\ (c && p = false) /\ (m && p = false)
  /\ (x = true -> m = true).
Proof.
  destruct zones_disjoint as (Hec & Hem & Hep & Hcm & Hcp & Hmp).
  destruct PHX_zone as (Pm & _).
  cbv zeta.
  repeat split;
    try (apply andb_false_iff;
         match goal with
         | |- bool_decide (_ ∈ ?A) = false \/ bool_decide (_ ∈ ?B) = false =>
             destruct (decide (code ∈ A)) as [H1|H1];
             [ right; apply bool_decide_eq_false_2; intros H2;
               match goal with D : A ## B |- _ =>
                 exact (proj1 (elem_of_disjoint A B) D code H1 H2) end
             | left; now apply bool_decide_eq_false_2 ]
         end).
  intros ->%bool_decide_eq_true. now apply bool_decide_eq_true_2.
Qed.

Lemma estimator_is_spec_offset (code : string) (d : datetime) :
  estimate_us_timezone_offset code d = spec_offset code d.
Proof.
  pose proof (zone_flags code) as H. cbv zeta in H.
  unfold estimate_us_timezone_offset, spec_offset, spec_zone, Str.eqb.
  rewrite spec_is_dst_months.
  generalize dependent (bool_decide (code ∈ eastern_airports)).
  generalize dependent (bool_decide (code ∈ central_airports)).
  generalize dependent (bool_decide (code ∈ mountain_airports)).
  generalize dependent (bool_decide (code ∈ pacific_airports)).
  generalize dependent (bool_decide (code = "PHX")).
  intros x p m c e (Hec & Hem & Hep & Hcm & Hcp & Hmp & Hx).
  destruct ((3 <=? month d) && (month d <=? 10));
    (destruct x; [specialize (Hx eq_refl); subst m|clear Hx]);
    destruct e, c, p; try discriminate; try destruct m; try discriminate;
    reflexivity.
Qed.

(** C6.  The static estimator agrees with the reference definition for
    every airport code and reference date: daylight saving holds exactly
    for the months 3 to 10; Eastern codes give -4/-5, Central -5/-6,
    Mountain -6/-7 except PHX, which gives -7 for every date, Pacific
    -7/-8, and a code in no set follows the Eastern rule.  The estimator is
    a total function. *)
Theorem estimator_matches_reference (code : string) (d : datetime) :
  estimate_us_timezone_offset code d = spec_offset code d
  /\ (spec_is_dst d = true <-> 3 <= month d <= 10)
  /\ estimate_us_timezone_offset "PHX" d = (-7 # 1)%Q.
Proof.
  split; [apply estimator_is_spec_offset|]. split.
  - rewrite spec_is_dst_months, andb_true_iff, !Z.leb_le. reflexivity.
  - rewrite estimator_is_spec_offset. reflexivity.
Qed.

(** ** The date parser *)

Lemma py_int_error (s : string) (e : pyerr) : py_int s = inl e -> e = ValueError.
Proof.
  unfold py_int, raise, ret.
  repeat (match goal with
          | |- context [match ?x with _ => _ end] => destruct x
          end); congruence.
Qed.

Lemma month_index_error (name : string) (names : list string) (i : Z) (e : pyerr) :
  month_index name names i = inl e -> e = ValueError.
Proof.
  revert i; induction names as [|n names IH]; intros i; cbn.
  - unfold raise. congruence.
  - destruct (Str.eqb _ _); [unfold ret; congruence | apply IH].
Qed.

Lemma make_datetime_error (y m d hh mm ss us : Z) (e : pyerr) :
  make_datetime y m d hh mm ss us = inl e -> e = ValueError.
Proof.
  unfold make_datetime, raise, ret.
  destruct (_ && _); congruence.
Qed.

Lemma convert_groups_error (groups : list (directive * string)) :
  forall (ymd : Z * Z * Z) (e : pyerr),
    convert_groups groups ymd = inl e -> e = ValueError.
Proof.
  induction groups as [|[d v] groups IH]; intros [[y m] dd] e;
    cbn [convert_groups].
  - unfold ret. congruence.
  - destruct d; unfold bind at 1;
      try (destruct (py_int v) as [e'|n] eqn:E; cbn [bind ret];
           [intros [= <-]; now apply py_int_error in E | apply IH]).
    + destruct (month_index (Str.lower v) MONTH_ABBR 1) as [e'|n] eqn:E;
        cbn [bind ret];
        [intros [= <-]; now apply month_index_error in E | apply IH].
    + apply IH.
Qed.

Lemma strptime_compiled_error (data : string) (fmt : list directive) (e : pyerr) :
  strptime_compiled data fmt = inl e -> e = ValueError.
Proof.
  unfold strptime_compiled, raise.
  destruct (re_match fmt data []) as [[groups rest]|]; [|congruence].
  destruct (negb _); [congruence|].
  destruct (convert_groups _ _) as [e'|[[y m] d]] eqn:E; cbn.
  - intros [= <-]. now apply convert_groups_error in E.
  - apply make_datetime_error.
Qed.

Lemma try_formats_first_success (data : string) (formats : list string) :
  forall compiled : list (list directive),
    map compile_format formats = map Some compiled ->
    try_formats data formats
    = inr (first_some
             (fun fmt => match strptime_compiled data fmt with
                         | inr dt => Some dt | inl _ => None end)
             compiled).
Proof.
  induction formats as [|f formats IH]; intros [|c compiled] H;
    try discriminate; [reflexivity|].
  cbn in H. injection H as Hf Hrest.
  cbn [try_formats first_some]. unfold strptime. rewrite Hf.
  destruct (strptime_compiled data c) as [e|dt] eqn:E; [|reflexivity].
  apply strptime_compiled_error in E as ->. now apply IH.
Qed.

Lemma lstrip_blank (s : string) :
  blank s = true -> Str.lstrip_by Str.is_space s = "".
Proof.
  unfold blank. induction s as [|c s IH]; cbn; [reflexivity|].
  intros H. apply andb_true_iff in H as [Hc Hs]. rewrite Hc. now apply IH.
Qed.

Lemma lstrip_not_blank (s : string) :
  blank s = false ->
  exists c r, Str.lstrip_by Str.is_space s = String c r /\ Str.is_space c = false.
Proof.
  unfold blank. induction s as [|c s IH]; cbn; [discriminate|].
  destruct (Str.is_space c) eqn:Hc; cbn; [apply IH | eauto].
Qed.

Lemma rstrip_nonempty (c : ascii) (r : string) :
  Str.is_space c = false -> Str.rstrip_by Str.is_space (String c r) <> "".
Proof.
  intros Hc. cbn. destruct (Str.rstrip_by Str.is_space r); [|discriminate].
  now rewrite Hc.
Qed.

Lemma strip_blank (s : string) :
  (String.length (Str.strip s) =? 0)%nat = blank s.
Proof.
  unfold Str.strip, Str.strip_by.
  destruct (blank s) eqn:B.
  - now rewrite lstrip_blank.
  - destruct (lstrip_not_blank s B) as (c & r & -> & Hc).
    pose proof (rstrip_nonempty c r Hc).
    destruct (Str.rstrip_by Str.is_space (String c r)); [contradiction | reflexivity].
Qed.

Lemma parse_flexible_date_first_success (s : string) :
  parse_flexible_date s = inr (spec_parse_date s).
Proof.
  unfold parse_flexible_date, spec_parse_date.
  rewrite strip_blank.
  destruct (blank s) eqn:B.
  - now rewrite orb_true_r.
  - rewrite orb_false_r.
    destruct s as [|c s]; [discriminate B|]. cbn [String.length Nat.eqb].
    now apply try_formats_first_success.
Qed.

Lemma row_get_is_Some (r : gmap string string) (key : string) :
  is_Some (r !! key) -> exists v, r !! key = Some v /\ row_get r key = inr v.
Proof. intros [v Hv]. exists v. unfold row_get. now rewrite Hv. Qed.

Lemma make_leg_total (r : gmap string string) (offsets : gmap string Q) :
  has_required_columns r ->
  exists leg,
    make_leg r offsets = inr leg /\ row leg = r
    /\ Dept_DateTime leg
       = combine_date_time
           (spec_parse_date (match r !! "Dept Date" with Some v => v | None => "" end))
           (Dept_Time leg)
    /\ Arvl_DateTime leg
       = combine_date_time
           (spec_parse_date (match r !! "Arvl Date" with Some v => v | None => "" end))
           (Arvl_Time leg).
Proof.
  unfold has_required_columns, required_columns.
  rewrite !Forall_cons. intros (H1 & H2 & H3 & H4 & _).
  apply row_get_is_Some in H1 as (v1 & _ & E1).
  apply row_get_is_Some in H2 as (v2 & _ & E2).
  apply row_get_is_Some in H3 as (v3 & _ & E3).
  apply row_get_is_Some in H4 as (v4 & _ & E4).
  unfold make_leg. rewrite E1, E2, E3, E4, !parse_flexible_date_first_success.
  cbn. eexists. repeat split.
Qed.

(** C7.  The date parser tries the eight formats ddMONyy, mm/dd/yyyy,
    mm/dd/yy, dd-MON-yy, dd/mm/yyyy, yyyy-mm-dd, ddMONyyyy, mm-dd-yyyy in
    that order and returns the first success; it never raises; a blank
    string gives no value; and a date that no format matches leaves the
    date-time of the leg absent while the row is kept. *)
Theorem date_parser_first_success :
  map compile_format date_formats = map Some spec_date_formats
  /\ (forall s, parse_flexible_date s = inr (spec_parse_date s))
  /\ (forall s, blank s = true -> parse_flexible_date s = inr None)
  /\ (forall r offsets,
        has_required_columns r ->
        exists leg,
          make_leg r offsets = inr leg /\ row leg = r
          /\ (spec_parse_date
                (match r !! "Dept Date" with Some v => v | None => "" end) = None ->
              Dept_DateTime leg = None)
          /\ (spec_parse_date
                (match r !! "Arvl Date" with Some v => v | None => "" end) = None ->
              Arvl_DateTime leg = None)).
Proof.
  split; [reflexivity|]. split; [exact parse_flexible_date_first_success|].
  split.
  - intros s B. rewrite parse_flexible_date_first_success.
    unfold spec_parse_date. now rewrite B.
  - intros r offsets Hr.
    destruct (make_leg_total r offsets Hr) as (leg & E & Hrow & Hd & Ha).
    exists leg. repeat split; auto.
    + intros Hn. now rewrite Hd, Hn.
    + intros Hn. now rewrite Ha, Hn.
Qed.

Lemma date_parser_first_success_witness :
  parse_flexible_date "10/09/2025" = inr (Some (mk_datetime 2025 10 9 0 0 0 0))
  /\ parse_flexible_date "20/12/2025" = inr (Some (mk_datetime 2025 12 20 0 0 0 0))
  /\ parse_flexible_date "   " = inr None
  /\ parse_flexible_date "not-a-date" = inr None
  /\ exists leg,
       make_leg row_bad_date example_offsets = inr leg
       /\ Dept_DateTime leg = None.
Proof.
  destruct date_parser_first_success as (_ & Hparse & Hblank & Hrow).
  split; [now rewrite Hparse|]. split; [now rewrite Hparse|].
  split; [now apply Hblank|]. split; [now rewrite Hparse|].
  destruct (Hrow row_bad_date example_offsets) as (leg & E & _ & Hd & _).
  - unfold has_required_columns.
    apply (bool_decide_unpack _); vm_compute; exact I.
  - exists leg. split; [exact E|]. apply Hd. reflexivity.
Defined.

(** ** The records of one shell *)

Lemma length_onward_legs (shells : Shells) (P : gset string) (legs : list Leg) :
  length (onward_legs shells P legs) = length legs.
Proof. induction legs as [|leg rest IH]; cbn; [reflexivity | now rewrite IH]. Qed.

Lemma fst_zip_onward_legs (shells : Shells) (P : gset string) (legs : list Leg) :
  map fst (zip legs (onward_legs shells P legs)) = legs.
Proof.
  induction legs as [|leg rest IH]; [reflexivity|].
  cbn [onward_legs zip zip_with map fst]. now rewrite IH.
Qed.

Lemma emit_shell_record_pairs (shells : Shells) (P : gset string) (legs : list Leg) :
  forall s : Z,
    emit_shell shells P legs s
    = (record_pairs s (zip legs (onward_legs shells P legs)),
       s + 2 * Z.of_nat (length legs)).
Proof.
  induction legs as [|leg rest IH]; intros s.
  - cbn. f_equal. lia.
  - cbn [emit_shell onward_legs zip zip_with record_pairs length].
    rewrite IH. replace (s + 1 + 1) with (s + 2) by lia.
    f_equal. lia.
Qed.

Lemma record_pairs_app (s : Z) (a b : list (Leg * option Leg)) :
  record_pairs s (a ++ b)
  = record_pairs s a ++ record_pairs (s + 2 * Z.of_nat (length a)) b.
Proof.
  revert s; induction a as [|[leg next] a IH]; intros s.
  - cbn. f_equal. lia.
  - cbn [app record_pairs length]. rewrite IH.
    replace (s + 2 * Z.of_nat (S (length a)))
      with (s + 2 + 2 * Z.of_nat (length a)) by lia.
    reflexivity.
Qed.

Lemma length_record_pairs (s : Z) (pairs : list (Leg * option Leg)) :
  length (record_pairs s pairs) = (2 * length pairs)%nat.
Proof.
  revert s; induction pairs as [|[leg next] pairs IH]; intros s; cbn [record_pairs length].
  - reflexivity.
  - rewrite IH. lia.
Qed.

(** ** Looking for the next shell *)

Lemma shells_lookup_Some (shells : Shells) (k : string) :
  k ∈ map fst shells ->
  exists legs, shells_lookup shells k = Some legs /\ (k, legs) ∈ shells.
Proof.
  induction shells as [|[k' legs'] shells IH]; cbn [map fst shells_lookup].
  - intros H. now apply elem_of_nil in H.
  - intros H. destruct (String.eqb_spec k' k) as [->|Hne].
    + exists legs'. split; [reflexivity | apply list_elem_of_here].
    + apply elem_of_cons in H as [H|H]; [congruence|].
      destruct (IH H) as (legs & E & Hin).
      exists legs. split; [exact E | now apply list_elem_of_further].
Qed.

Lemma find_connecting_shell_unprocessed
    (shells : Shells) (P : gset string) (a id : string) :
  find_connecting_shell shells P a = Some id ->
  id ∈ map fst shells /\ id ∉ P.
Proof.
  induction shells as [|[k legs] shells IH]; cbn [find_connecting_shell map fst];
    [discriminate|].
  intros H. case_bool_decide as Hk.
  - destruct (IH H) as [H1 H2]. split; [now apply list_elem_of_further | exact H2].
  - destruct legs as [|first rest].
    + destruct (IH H) as [H1 H2]. split; [now apply list_elem_of_further | exact H2].
    + destruct (Str.eqb _ _).
      * injection H as <-. split; [apply list_elem_of_here | exact Hk].
      * destruct (IH H) as [H1 H2].
        split; [now apply list_elem_of_further | exact H2].
Qed.

Lemma unprocessed_shells_head
    (shells : Shells) (P : gset string) (k : string) (ks : list string) :
  unprocessed_shells shells P = k :: ks -> k ∈ map fst shells /\ k ∉ P.
Proof.
  intros H.
  assert (k ∈ unprocessed_shells shells P) as Hin
    by (rewrite H; apply list_elem_of_here).
  unfold unprocessed_shells in Hin. apply list_elem_of_filter in Hin.
  tauto.
Qed.

Lemma size_keys (shells : Shells) :
  NoDup (map fst shells) ->
  size (list_to_set (map fst shells) : gset string) = length shells.
Proof. intros H. rewrite size_list_to_set by exact H. apply length_map. Qed.

Lemma all_processed (shells : Shells) (P : gset string) :
  NoDup (map fst shells) ->
  (forall k, k ∈ P -> k ∈ map fst shells) ->
  (length shells <= size P)%nat ->
  forall k, k ∈ map fst shells -> k ∈ P.
Proof.
  intros Hnd Hsub Hsize k Hk.
  assert (P ⊆ list_to_set (map fst shells)) as Hincl.
  { intros x Hx. apply elem_of_list_to_set. now apply Hsub. }
  assert (P = list_to_set (map fst shells)) as Heq.
  { apply set_subseteq_size_eq; [exact Hincl|]. rewrite size_keys by exact Hnd. lia. }
  rewrite Heq. now apply elem_of_list_to_set.
Qed.

Lemma some_unprocessed (shells : Shells) (P : gset string) :
  NoDup (map fst shells) ->
  (size P < length shells)%nat ->
  exists k ks, unprocessed_shells shells P = k :: ks.
Proof.
  intros Hnd Hsize.
  destruct (unprocessed_shells shells P) as [|k ks] eqn:E; [|eauto].
  exfalso.
  assert (list_to_set (map fst shells) ⊆ P) as Hincl.
  { intros x Hx. apply elem_of_list_to_set in Hx.
    destruct (decide (x ∈ P)) as [|Hn]; [assumption|].
    assert (x ∈ unprocessed_shells shells P) as Hin.
    { unfold unprocessed_shells. apply list_elem_of_filter. tauto. }
    rewrite E in Hin. now apply elem_of_nil in Hin. }
  apply subseteq_size in Hincl. rewrite size_keys in Hincl by exact Hnd. lia.
Qed.

(** ** The traversal loop *)

Section Traversal.

Variable shells : Shells.
Hypothesis keys_distinct : NoDup (map fst shells).
Hypothesis shells_nonempty : Forall (fun kl => snd kl <> []) shells.

Lemma chain_loop_visits (fuel : nat) :
  forall (P : gset string) (cur : string) (s : Z) (out : list string),
    (forall k, k ∈ P -> k ∈ map fst shells) ->
    ((size P < length shells)%nat -> cur ∈ map fst shells /\ cur ∉ P) ->
    (length shells - size P <= fuel)%nat ->
    exists order : list string,
      chain_loop fuel shells P cur s out
      = (out ++ record_pairs s (visit shells P order),
         s + 2 * Z.of_nat (length (visit shells P order)),
         Completed)
      /\ NoDup order
      /\ (forall k, k ∈ order <-> k ∈ map fst shells /\ k ∉ P)
      /\ ((size P < length shells)%nat -> exists rest, order = cur :: rest).
Proof.
  induction fuel as [|fuel IH]; intros P cur s out Hsub Hcur Hfuel.
  - (* no fuel: every shell is already processed *)
    assert (length shells <= size P)%nat as Hall by lia.
    exists []. cbn [chain_loop visit record_pairs length].
    replace (size P <? length shells)%nat with false
      by (symmetry; apply Nat.ltb_ge; lia).
    rewrite app_nil_r, Z.mul_0_r, Z.add_0_r.
    split; [reflexivity|]. split; [constructor|]. split; [|lia].
    intros k. split; [intros H; now apply elem_of_nil in H|].
    intros [Hk Hn]. exfalso. apply Hn. now apply (all_processed shells).
  - cbn [chain_loop].
    destruct (size P <? length shells)%nat eqn:Hlt.
    2:{ apply Nat.ltb_ge in Hlt.
        exists []. cbn [visit record_pairs length].
        rewrite app_nil_r, Z.mul_0_r, Z.add_0_r.
        split; [reflexivity|]. split; [constructor|]. split; [|lia].
        intros k. split; [intros H; now apply elem_of_nil in H|].
        intros [Hk Hn]. exfalso. apply Hn. now apply (all_processed shells). }
    apply Nat.ltb_lt in Hlt. destruct (Hcur Hlt) as [Hin Hnew].
    destruct (shells_lookup_Some shells cur Hin) as (legs & Elook & Hmem).
    rewrite Elook.
    assert (legs <> []) as Hlegs.
    { rewrite Forall_forall in shells_nonempty.
      exact (shells_nonempty (cur, legs) Hmem). }
    rewrite emit_shell_record_pairs.
    set (P' := P ∪ {[cur]}).
    assert (size P' = S (size P)) as HsizeP'.
    { unfold P'. rewrite size_union by (now apply disjoint_singleton_r).
      rewrite size_singleton. lia. }
    assert (forall k, k ∈ P' -> k ∈ map fst shells) as Hsub'.
    { intros k Hk. unfold P' in Hk. apply elem_of_union in Hk as [Hk|Hk].
      - now apply Hsub.
      - apply elem_of_singleton in Hk. now subst. }
    assert (legs_of shells cur = legs) as Hlegs_of
      by (unfold legs_of; now rewrite Elook).
    (* the state handed to the next iteration *)
    assert (forall cur' out',
              ((size P' < length shells)%nat -> cur' ∈ map fst shells /\ cur' ∉ P') ->
              exists order,
                chain_loop fuel shells P' cur'
                  (s + 2 * Z.of_nat (length legs)) out'
                = (out' ++ record_pairs (s + 2 * Z.of_nat (length legs))
                             (visit shells P' order),
                   s + 2 * Z.of_nat (length legs)
                   + 2 * Z.of_nat (length (visit shells P' order)),
                   Completed)
                /\ NoDup order
                /\ (forall k, k ∈ order <-> k ∈ map fst shells /\ k ∉ P'))
      as Hnext.
    { intros cur' out' Hc.
      destruct (IH P' cur' (s + 2 * Z.of_nat (length legs)) out' Hsub' Hc)
        as (order & E & Hnd & Hiff & _); [lia|].
      exists order. auto. }
    assert (forall cur',
              ((size P' < length shells)%nat -> cur' ∈ map fst shells /\ cur' ∉ P') ->
              exists order,
                chain_loop fuel shells P' cur' (s + 2 * Z.of_nat (length legs))
                  (out ++ record_pairs s (zip legs (onward_legs shells P' legs)))
                = (out ++ record_pairs s (visit shells P order),
                   s + 2 * Z.of_nat (length (visit shells P order)),
                   Completed)
                /\ NoDup order
                /\ (forall k, k ∈ order <-> k ∈ map fst shells /\ k ∉ P)
                /\ ((size P < length shells)%nat -> exists rest, order = cur :: rest))
      as Hstep.
    { intros cur' Hc.
      destruct (Hnext cur' (out ++ record_pairs s (zip legs (onward_legs shells P' legs))) Hc)
        as (order & E & Hnd & Hiff).
      exists (cur :: order). split; [|split; [|split; [|eauto]]].
      - rewrite E. cbn [visit]. fold P'. rewrite Hlegs_of.
        rewrite record_pairs_app, !length_app, length_zip, length_onward_legs.
        rewrite Nat.min_id, <- app_assoc. do 2 f_equal. lia.
      - constructor; [|exact Hnd].
        intros Hc'. apply Hiff in Hc' as [_ Hc']. apply Hc'.
        unfold P'. now apply elem_of_union_r, elem_of_singleton.
      - intros k. rewrite elem_of_cons, Hiff. unfold P'. split.
        + intros [->|[Hk Hn]]; [tauto|]. split; [exact Hk|].
          intros HP. now apply Hn, elem_of_union_l.
        + intros [Hk Hn]. destruct (decide (k = cur)) as [|Hne]; [tauto|].
          right. split; [exact Hk|].
          intros [HP|Hs%elem_of_singleton]%elem_of_union; contradiction. }
    destruct (size P' <? length shells)%nat eqn:Hlt'.
    + apply Nat.ltb_lt in Hlt'.
      destruct (last legs) as [last_leg|] eqn:Elast.
      2:{ apply last_None in Elast. contradiction. }
      apply Hstep. intros _.
      destruct (some_unprocessed shells P' keys_distinct Hlt') as (u & us & Eun).
      rewrite Eun.
      destruct (find_connecting_shell shells P' (leg_get last_leg "Arvl Sta" ""))
        as [next|] eqn:Efind.
      * destruct (truthy next).
        -- now apply find_connecting_shell_unprocessed in Efind.
        -- now apply unprocessed_shells_head in Eun.
      * now apply unprocessed_shells_head in Eun.
    + apply Hstep. intros Hc. apply Nat.ltb_ge in Hlt'. lia.
Qed.

End Traversal.

(** ** The serial field of small numbers

    [str(k)] is the decimal numeral of [k]; [int] reads a numeral back to
    the number it denotes, also behind the zeros that fill the field. *)

Lemma uint_value_of_uint_acc (d : Decimal.uint) (acc : positive) :
  Z.pos (Pos.of_uint_acc d acc) = uint_value d (Z.pos acc).
Proof.
  revert acc. induction d as [|d IH|d IH|d IH|d IH|d IH|d IH|d IH|d IH|d IH|d IH];
    intros acc; cbn [Pos.of_uint_acc uint_value]; [reflexivity|..];
    rewrite IH; f_equal; lia.
Qed.

Lemma uint_value_of_uint (d : Decimal.uint) :
  Z.of_N (Pos.of_uint d) = uint_value d 0.
Proof.
  induction d as [|d IH|d IH|d IH|d IH|d IH|d IH|d IH|d IH|d IH|d IH];
    cbn [Pos.of_uint uint_value]; [reflexivity | exact IH |..];
    cbn [Z.of_N]; rewrite uint_value_of_uint_acc; reflexivity.
Qed.

Lemma uint_value_to_uint (p : positive) : uint_value (Pos.to_uint p) 0 = Z.pos p.
Proof. now rewrite <- uint_value_of_uint, Unsigned.of_to. Qed.

Lemma uint_value_lower (d : Decimal.uint) (acc : Z) :
  0 <= acc -> acc * 10 ^ Z.of_nat (Decimal.nb_digits d) <= uint_value d acc.
Proof.
  revert acc. induction d as [|d IH|d IH|d IH|d IH|d IH|d IH|d IH|d IH|d IH|d IH];
    intros acc Hacc; cbn [Decimal.nb_digits uint_value];
    [cbn; lia | ..];
    rewrite Nat2Z.inj_succ, Z.pow_succ_r by lia;
    (etransitivity; [|apply IH; lia]);
    pose proof (Z.pow_nonneg 10 (Z.of_nat (Decimal.nb_digits d)) ltac:(lia));
    nia.
Qed.

(** The numeral of a positive number has no leading zero. *)
Lemma to_uint_no_leading_zero (p : positive) (l : Decimal.uint) :
  Pos.to_uint p <> Decimal.D0 l.
Proof.
  intros E.
  pose proof (Unsigned.to_of (Pos.to_uint p)) as H.
  rewrite Unsigned.of_to in H. cbn [N.to_uint] in H.
  rewrite E in H. unfold Decimal.unorm in H. cbn [Decimal.nzhead] in H.
  pose proof (nb_digits_nzhead l) as Hn.
  destruct (Decimal.nzhead l) eqn:Ez; try discriminate H.
  - injection H as ->. exact (Unsigned.to_uint_nonzero p E).
  - injection H as ->. cbn [Decimal.nb_digits] in Hn. lia.
Qed.

Lemma nb_digits_to_uint (p : positive) (n : nat) :
  Z.pos p < 10 ^ Z.of_nat n -> (Decimal.nb_digits (Pos.to_uint p) <= n)%nat.
Proof.
  intros Hp. pose proof (uint_value_to_uint p) as Hv.
  pose proof (to_uint_no_leading_zero p) as Hz.
  destruct (Pos.to_uint p) as [|l|l|l|l|l|l|l|l|l|l];
    [cbn; lia | now contradiction (Hz l) |..];
    cbn [uint_value Decimal.nb_digits] in *;
    (match type of Hv with uint_value _ ?a = _ =>
       pose proof (uint_value_lower l a ltac:(lia)) as Hl end);
    (destruct (decide (Decimal.nb_digits l < n)%nat) as [|Hge]; [lia|]);
    pose proof (Z.pow_le_mono_r 10 (Z.of_nat n)
                  (Z.of_nat (Decimal.nb_digits l)) ltac:(lia) ltac:(lia));
    nia.
Qed.

Lemma length_string_of_uint (d : Decimal.uint) :
  String.length (NilEmpty.string_of_uint d) = Decimal.nb_digits d.
Proof.
  induction d; cbn [NilEmpty.string_of_uint Decimal.nb_digits String.length];
    congruence.
Qed.

Lemma digits_only_string_of_uint (d : Decimal.uint) :
  digits_only (NilEmpty.string_of_uint d) = true.
Proof.
  induction d; cbn [NilEmpty.string_of_uint digits_only];
    [reflexivity | rewrite IHd; reflexivity ..].
Qed.

Lemma int_digits_string_of_uint (d : Decimal.uint) (acc : Z) :
  int_digits (NilEmpty.string_of_uint d) acc true = Some (uint_value d acc).
Proof.
  revert acc. induction d as [|d IH|d IH|d IH|d IH|d IH|d IH|d IH|d IH|d IH|d IH];
    intros acc; cbn [NilEmpty.string_of_uint uint_value];
    [reflexivity | exact (IH _) ..].
Qed.

Lemma of_Z_pos (p : positive) :
  Str.of_Z (Z.pos p) = NilEmpty.string_of_uint (Pos.to_uint p).
Proof.
  unfold Str.of_Z. cbn [Z.to_int NilZero.string_of_int].
  unfold NilZero.string_of_uint.
  pose proof (Unsigned.to_uint_nonnil p).
  destruct (Pos.to_uint p); congruence.
Qed.

Lemma digits_only_zeros (j : nat) (s : string) :
  digits_only (Str.rep j "0" +:+ s) = digits_only s.
Proof.
  induction j as [|j IH]; [reflexivity|].
  cbn [Str.rep]. rewrite str_app_cons. cbn [digits_only]. now rewrite IH.
Qed.

Lemma int_digits_zeros (j : nat) (s : string) :
  int_digits (Str.rep j "0" +:+ s) 0 true = int_digits s 0 true.
Proof.
  induction j as [|j IH]; [reflexivity|].
  cbn [Str.rep]. rewrite str_app_cons. exact IH.
Qed.

Lemma digit_not_c_space (c : ascii) :
  Str.is_digit c = true -> Str.is_c_space c = false.
Proof.
  unfold Str.is_digit, Str.is_c_space. cbv zeta.
  generalize (N_of_ascii c). intros n H.
  apply andb_true_iff in H as [H1 H2].
  apply N.leb_le in H1. apply N.leb_le in H2.
  apply orb_false_iff. split.
  - apply andb_false_iff. right. apply N.leb_gt. lia.
  - apply N.eqb_neq. lia.
Qed.

Lemma strip_digits_only (s : string) :
  digits_only s = true -> Str.strip_by Str.is_c_space s = s.
Proof.
  intros Hd. unfold Str.strip_by.
  assert (Str.lstrip_by Str.is_c_space s = s) as ->.
  { destruct s as [|c r]; [reflexivity|].
    cbn [digits_only] in Hd. apply andb_true_iff in Hd as [Hc _].
    cbn [Str.lstrip_by]. now rewrite (digit_not_c_space c Hc). }
  induction s as [|c r IH]; [reflexivity|].
  cbn [digits_only] in Hd. apply andb_true_iff in Hd as [Hc Hr].
  cbn [Str.rstrip_by]. rewrite (IH Hr), (digit_not_c_space c Hc).
  now destruct r.
Qed.

(** [int] of a string of digits. *)
Lemma py_int_digits (s : string) (v : Z) :
  digits_only s = true -> s <> "" -> int_digits s 0 true = Some v ->
  py_int s = inr v.
Proof.
  intros Hd Hne Hv. unfold py_int. rewrite (strip_digits_only s Hd).
  destruct s as [|c r]; [contradiction|].
  cbn [digits_only] in Hd. apply andb_true_iff in Hd as [Hc _].
  destruct (Ascii.eqb_spec c "-") as [->|_]; [discriminate Hc|].
  destruct (Ascii.eqb_spec c "+") as [->|_]; [discriminate Hc|].
  cbn [int_digits] in Hv |- *. rewrite Hc in Hv |- *.
  now rewrite Hv.
Qed.

Lemma reads_back_below_million (k : Z) :
  0 <= k < 1000000 -> py_int (pad_left (Str.of_Z k) 6 "0") = inr k.
Proof.
  intros Hk. destruct k as [|p|p]; [reflexivity | | lia].
  rewrite of_Z_pos.
  pose proof (nb_digits_to_uint p 6 ltac:(cbn; lia)) as Hn.
  rewrite <- length_string_of_uint in Hn.
  pose proof (Unsigned.to_uint_nonnil p) as Hnil.
  rewrite (pad_left_short _ 6 "0" Hn).
  apply py_int_digits.
  - rewrite digits_only_zeros. apply digits_only_string_of_uint.
  - destruct (Pos.to_uint p); [contradiction | ..];
      cbn [NilEmpty.string_of_uint];
      (destruct (6 - _)%nat; [discriminate | discriminate]).
  - rewrite int_digits_zeros, int_digits_string_of_uint.
    now rewrite uint_value_to_uint.
Qed.

(** ** The serial of every record *)

Lemma first_character_type3 (leg : Leg) (next : option Leg) (s : Z) :
  Str.positions 1 1 (type3_record leg next s) = "3".
Proof. rewrite type3_record_fields. now read_field. Qed.

Lemma first_character_type4 (leg : Leg) (s : Z) :
  Str.positions 1 1 (type4_record leg s) = "4".
Proof. rewrite type4_record_fields. now read_field. Qed.

Lemma record_pairs_lookup (pairs : list (Leg * option Leg)) :
  forall (s : Z) (i : nat) (line : string),
    record_pairs s pairs !! i = Some line ->
    serial_field line = pad_left (Str.of_Z (s + Z.of_nat i)) 6 "0"
    /\ Str.positions 1 1 line = (if Nat.even i then "3" else "4").
Proof.
  induction pairs as [|[leg next] pairs IH]; intros s i line; cbn [record_pairs].
  - intros H. discriminate H.
  - destruct i as [|[|i]]; cbn [lookup list_lookup].
    + intros [= <-]. rewrite Z.add_0_r.
      split; [apply serial_field_type3 | apply first_character_type3].
    + intros [= <-].
      split; [apply serial_field_type4 | apply first_character_type4].
    + intros H. apply IH in H as [H1 H2].
      replace (s + Z.of_nat (S (S i))) with (s + 2 + Z.of_nat i) by lia.
      split; [exact H1 | exact H2].
Qed.

(** ** The shape of the output *)

Lemma concat_Permutation {A} (l k : list (list A)) :
  l ≡ₚ k -> concat l ≡ₚ concat k.
Proof.
  induction 1 as [|x l k _ IH|x y l|l k m _ IH1 _ IH2]; cbn.
  - reflexivity.
  - now apply Permutation_app_head.
  - rewrite !app_assoc. apply Permutation_app_tail, Permutation_app_comm.
  - now transitivity (concat k).
Qed.

Lemma fst_visit (shells : Shells) (order : list string) :
  forall P : gset string,
    map fst (visit shells P order) = concat (map (legs_of shells) order).
Proof.
  induction order as [|k order IH]; intros P; [reflexivity|].
  cbn [visit map concat]. rewrite map_app, fst_zip_onward_legs. now rewrite IH.
Qed.

Lemma legs_of_keys (shells : Shells) :
  NoDup (map fst shells) ->
  map (legs_of shells) (map fst shells) = map snd shells.
Proof.
  induction shells as [|[k legs] shells IH]; [reflexivity|].
  cbn [map fst snd]. intros Hnd. apply NoDup_cons in Hnd as [Hk Hnd].
  f_equal.
  - unfold legs_of. cbn. now rewrite String.eqb_refl.
  - rewrite <- (IH Hnd). apply map_ext_in. intros k' Hk'.
    unfold legs_of. cbn [shells_lookup].
    destruct (String.eqb_spec k k') as [->|Hne]; [|reflexivity].
    exfalso. apply Hk. now apply list_elem_of_In.
Qed.

Lemma visit_all_legs (shells : Shells) (order : list string) (P : gset string) :
  NoDup (map fst shells) ->
  order ≡ₚ map fst shells ->
  map fst (visit shells P order) ≡ₚ all_shell_legs shells.
Proof.
  intros Hnd Hperm. rewrite fst_visit. unfold all_shell_legs.
  rewrite <- (legs_of_keys shells Hnd).
  apply concat_Permutation. now apply Permutation_map.
Qed.

(** What a run over well-formed shells writes: the head lines, one pair of
    records for each leg met on the way, and the tail lines. *)
Lemma writer_output (fuel : nat) (all_legs : list Leg) (shells : Shells)
    (now_range today_date d1 d2 : datetime) :
  shells <> [] ->
  NoDup (map fst shells) ->
  Forall (fun kl => snd kl <> []) shells ->
  (length shells <= fuel)%nat ->
  find_operation_date_range all_legs "L" now_range = inr (d1, d2) ->
  exists order : list string,
    order ≡ₚ map fst shells
    /\ hd_error order = hd_error (map fst shells)
    /\ write_ssim_with_segments fuel all_legs shells now_range today_date
       = mk_written
           (head_lines d1 d2 today_date
            ++ record_pairs 3 (visit shells ∅ order)
            ++ tail_lines today_date
                 (3 + 2 * Z.of_nat (length (all_shell_legs shells))))
           Completed.
Proof.
  intros Hne Hnd Hlegs Hfuel Hrange.
  destruct shells as [|[k0 l0] rest]; [contradiction|].
  destruct (chain_loop_visits ((k0, l0) :: rest) Hnd Hlegs fuel ∅ k0 3 [])
    as (order & E & Hnd' & Hiff & Hhd).
  - intros k Hk. now apply not_elem_of_empty in Hk.
  - intros _. split; [apply list_elem_of_here | apply not_elem_of_empty].
  - rewrite size_empty. lia.
  - assert (order ≡ₚ map fst ((k0, l0) :: rest)) as Hperm.
    { apply NoDup_Permutation; [exact Hnd' | exact Hnd|].
      intros k. rewrite Hiff. split; [tauto|].
      intros Hk. split; [exact Hk | apply not_elem_of_empty]. }
    exists order. split; [exact Hperm|]. split.
    { destruct Hhd as [tl ->]; [|reflexivity].
      rewrite size_empty. cbn [length]. lia. }
    unfold write_ssim_with_segments. rewrite Hrange. cbv beta iota.
    rewrite E. cbn [app]. unfold head_lines, tail_lines.
    rewrite <- (Permutation_length
                  (visit_all_legs ((k0, l0) :: rest) order ∅ Hnd Hperm)).
    rewrite length_map. reflexivity.
Qed.

(** ** The example *)

Lemma example_is_read :
  read_low_csv [row_JFK_ATL; row_ATL_JFK "2"] example_offsets
  = inr (example_legs "2", example_shells "2")
  /\ read_low_csv [row_JFK_ATL; row_ATL_JFK ""] example_offsets
     = inr (example_legs "", example_shells "").
Proof. split; vm_compute; reflexivity. Qed.

Lemma example_range (line_num : string) :
  find_operation_date_range (example_legs line_num) "L" example_now
  = inr (mk_datetime 2025 12 20 9 30 0 0, mk_datetime 2025 12 20 15 10 0 0).
Proof. reflexivity. Qed.

(** ** The traversal visits every shell once *)


Lemma example_shells_distinct (line_num : string) :
  line_num <> "1" -> NoDup (map fst (example_shells line_num)).
Proof.
  intros H. cbn. repeat constructor.
  - rewrite elem_of_cons, elem_of_nil. intros [E|[]]. now subst.
  - apply not_elem_of_nil.
Qed.

Lemma example_shells_nonempty (line_num : string) :
  Forall (fun kl => snd kl <> []) (example_shells line_num).
Proof. repeat constructor; discriminate. Qed.


(** ** The serials *)



Lemma operation_dates_bare (n : nat) :
  operation_dates (repeat bare_leg n) "L" = inr [].
Proof. induction n as [|n IH]; cbn; [reflexivity | now rewrite IH]. Qed.

Lemma long_rotation_range (n : N) :
  find_operation_date_range (repeat bare_leg (N.to_nat n)) "L" example_now
  = inr (example_now, mk_datetime 2026 11 4 10 0 0 0).
Proof.
  unfold find_operation_date_range. rewrite operation_dates_bare. reflexivity.
Qed.


(** ** The onward leg *)

(** A leg that is not the last of its shell: the onward leg is the next
    leg of the shell. *)
Lemma onward_of_inner_leg (shells : Shells) (P : gset string)
    (leg next : Leg) (rest : list Leg) (s : Z) :
  exists more,
    fst (emit_shell shells P (leg :: next :: rest) s)
    = type3_record leg (Some next) s :: type4_record leg (s + 1) :: more.
Proof.
  rewrite emit_shell_record_pairs. cbn [fst onward_legs zip zip_with record_pairs].
  eauto.
Qed.

(** The last leg of a shell: the onward leg is the connecting leg. *)
Lemma onward_of_last_leg (shells : Shells) (P : gset string) (leg : Leg) (s : Z) :
  fst (emit_shell shells P [leg] s)
  = [type3_record leg (connecting_leg shells P leg) s; type4_record leg (s + 1)].
Proof. reflexivity. Qed.

(** [find_connecting_shell] gives the first shell, in insertion order,
    that connects. *)
Lemma find_connecting_shell_first (shells : Shells) (P : gset string) (a id : string) :
  find_connecting_shell shells P a = Some id ->
  exists before legs after,
    shells = before ++ (id, legs) :: after
    /\ connects P a (id, legs)
    /\ Forall (fun kl => ~ connects P a kl) before.
Proof.
  induction shells as [|[k legs] shells IH]; cbn [find_connecting_shell];
    [discriminate|].
  assert (~ connects P a (k, legs) ->
          find_connecting_shell shells P a = Some id ->
          exists before legs' after,
            (k, legs) :: shells = before ++ (id, legs') :: after
            /\ connects P a (id, legs')
            /\ Forall (fun kl => ~ connects P a kl) before) as Hskip.
  { intros Hno H. destruct (IH H) as (before & legs' & after & -> & Hc & Hb).
    exists ((k, legs) :: before), legs', after.
    split; [reflexivity|]. split; [exact Hc|]. now constructor. }
  case_bool_decide as Hk.
  - apply Hskip. intros [Hn _]. now apply Hn.
  - destruct legs as [|first rest].
    + apply Hskip. intros (_ & f & r & E & _). discriminate E.
    + unfold Str.eqb. case_bool_decide as Hmatch.
      * intros [= <-]. exists [], (first :: rest), shells.
        split; [reflexivity|]. split; [|constructor].
        split; [exact Hk|]. eauto.
      * apply Hskip. intros (_ & f & r & E & Hm). cbn in E.
        injection E as <- <-. contradiction.
Qed.

Lemma find_connecting_shell_none (shells : Shells) (P : gset string) (a : string) :
  find_connecting_shell shells P a = None ->
  Forall (fun kl => ~ connects P a kl) shells.
Proof.
  induction shells as [|[k legs] shells IH]; cbn [find_connecting_shell];
    [constructor|].
  case_bool_decide as Hk.
  - intros H. constructor; [|now apply IH]. intros [Hn _]. now apply Hn.
  - destruct legs as [|first rest].
    + intros H. constructor; [|now apply IH].
      intros (_ & f & r & E & _). discriminate E.
    + unfold Str.eqb. case_bool_decide as Hmatch; [discriminate|].
      intros H. constructor; [|now apply IH].
      intros (_ & f & r & E & Hm). cbn in E. injection E as <- <-. contradiction.
Qed.

Lemma shells_lookup_distinct (before after : Shells) (id : string) (legs : list Leg) :
  NoDup (map fst (before ++ (id, legs) :: after)) ->
  shells_lookup (before ++ (id, legs) :: after) id = Some legs.
Proof.
  induction before as [|[k l] before IH]; cbn [app map fst shells_lookup].
  - now rewrite String.eqb_refl.
  - intros Hnd. apply NoDup_cons in Hnd as [Hk Hnd].
    destruct (String.eqb_spec k id) as [->|Hne]; [|now apply IH].
    exfalso. apply Hk. rewrite map_app. apply elem_of_app. right.
    apply list_elem_of_here.
Qed.

(** When a shell connects and its id is not the empty string, the onward
    leg of the last leg is the first leg of the first connecting shell;
    when none connects there is no onward leg. *)
Lemma connecting_leg_found (shells : Shells) (P : gset string) (leg : Leg) (id : string) :
  NoDup (map fst shells) ->
  find_connecting_shell shells P (leg_get leg "Arvl Sta" "") = Some id ->
  id <> "" ->
  exists before first rest after,
    shells = before ++ (id, first :: rest) :: after
    /\ Forall (fun kl => ~ connects P (leg_get leg "Arvl Sta" "") kl) before
    /\ (id ∉ P)
    /\ Str.upper (leg_get first "Dept Sta" "")
       = Str.upper (leg_get leg "Arvl Sta" "")
    /\ connecting_leg shells P leg = Some first.
Proof.
  intros Hnd Hfind Hid.
  destruct (find_connecting_shell_first _ _ _ _ Hfind)
    as (before & legs & after & -> & (Hn & first & rest & E & Hm) & Hb).
  cbn in E, Hn. subst legs.
  exists before, first, rest, after.
  split; [reflexivity|]. split; [exact Hb|]. split; [exact Hn|].
  split; [exact Hm|].
  unfold connecting_leg. rewrite Hfind.
  replace (truthy id) with true by (destruct id; [contradiction | reflexivity]).
  now rewrite shells_lookup_distinct.
Qed.

Lemma connecting_leg_none (shells : Shells) (P : gset string) (leg : Leg) :
  find_connecting_shell shells P (leg_get leg "Arvl Sta" "") = None ->
  connecting_leg shells P leg = None.
Proof. intros H. unfold connecting_leg. now rewrite H. Qed.

(** The scenario of the specification: rotation 1 is JFK to ATL, rotation
    2 is ATL to JFK; the record of the first leg carries the airline and
    the flight number of the second. *)
Lemma scenario_JFK_ATL :
  lines (write_ssim_with_segments 2 (example_legs "2") (example_shells "2")
           example_now example_now) !! 10%nat
  = Some (type3_record leg_JFK_ATL (Some (leg_ATL_JFK "2")) 3)
  /\ Str.positions 138 140 (type3_record leg_JFK_ATL (Some (leg_ATL_JFK "2")) 3)
     = "AA "
  /\ Str.positions 141 144 (type3_record leg_JFK_ATL (Some (leg_ATL_JFK "2")) 3)
     = " 200".
Proof. split; [|split]; vm_compute; reflexivity. Qed.

(** C3 at its failing input.  The second rotation has the empty string as
    its id (an empty "Line Num" cell).  It is unvisited and its first leg
    departs from ATL, where the first rotation ends, so it is the shell
    that [find_connecting_shell] returns; but the test
    [if connecting_shell_id:] takes the empty id for "no shell", and the
    record of the JFK-to-ATL leg has blank onward fields where the claim
    asks for the airline AA and the flight number 200. *)
Theorem onward_lost_for_empty_shell_id :
  read_low_csv [row_JFK_ATL; row_ATL_JFK ""] example_offsets
  = inr (example_legs "", example_shells "")
  /\ find_connecting_shell (example_shells "") {[ "1" ]}
       (leg_get leg_JFK_ATL "Arvl Sta" "") = Some ""
  /\ connecting_leg (example_shells "") {[ "1" ]} leg_JFK_ATL = None
  /\ lines (write_ssim_with_segments 2 (example_legs "") (example_shells "")
              example_now example_now) !! 10%nat
     = Some (type3_record leg_JFK_ATL None 3)
  /\ Str.positions 138 140 (type3_record leg_JFK_ATL None 3) = "   "
  /\ Str.positions 141 144 (type3_record leg_JFK_ATL None 3) = "    "
  /\ pad_right (leg_get (leg_ATL_JFK "") "Aln" "") 3 = "AA "
  /\ pad_left (leg_get (leg_ATL_JFK "") "Flt Num" "") 4 " " = " 200".
Proof. repeat split; vm_compute; reflexivity. Qed.

(** ** The clock *)

Lemma strftime_dby_date (a b : datetime) :
  date_of a = date_of b -> strftime_dby a = strftime_dby b.
Proof.
  unfold date_of, strftime_dby. intros [= Hy Hm Hd]. now rewrite Hy, Hm, Hd.
Qed.

Lemma toordinal_date (a b : datetime) :
  date_of a = date_of b -> toordinal a = toordinal b.
Proof.
  unfold date_of, toordinal. intros [= Hy Hm Hd]. now rewrite Hy, Hm, Hd.
Qed.

Lemma next_day_ordinal (d : datetime) :
  valid_time d ->
  (to_micros d + timedelta_days 1) / 86400000000 = toordinal d + 1.
Proof.
  intros (Hh & Hm & Hs & Hu). unfold to_micros, timedelta_days.
  symmetry.
  apply (Z.div_unique _ _ _
           (((hour d * 60 + minute d) * 60 + second d) * 1000000 + microsecond d));
    lia.
Qed.

(** Adding a day gives a date, or an overflow, that depends on the date
    only. *)
Lemma next_day_date (a b : datetime) :
  valid_time a -> valid_time b -> date_of a = date_of b ->
  match add_micros a (timedelta_days 1), add_micros b (timedelta_days 1) with
  | inr a', inr b' => date_of a' = date_of b'
  | inl e, inl e' => e = e'
  | _, _ => False
  end.
Proof.
  intros Ha Hb Hdate. unfold add_micros.
  rewrite (next_day_ordinal a Ha), (next_day_ordinal b Hb).
  rewrite (toordinal_date a b Hdate).
  destruct ((0 <? toordinal b + 1) && (toordinal b + 1 <=? MAXORDINAL));
    [|reflexivity].
  destruct (ord2ymd (toordinal b + 1)) as [[y m] d]. reflexivity.
Qed.

Lemma range_date (all_legs : list Leg) (a b : datetime) :
  valid_time a -> valid_time b -> date_of a = date_of b ->
  match find_operation_date_range all_legs "L" a,
        find_operation_date_range all_legs "L" b with
  | inr (a1, a2), inr (b1, b2) => date_of a1 = date_of b1 /\ date_of a2 = date_of b2
  | inl e, inl e' => e = e'
  | _, _ => False
  end.
Proof.
  intros Ha Hb Hdate. unfold find_operation_date_range.
  destruct (operation_dates all_legs "L") as [e|[|d ds]]; cbn [bind].
  - reflexivity.
  - pose proof (next_day_date a b Ha Hb Hdate) as H.
    destruct (add_micros a (timedelta_days 1)), (add_micros b (timedelta_days 1));
      cbn [bind ret]; auto.
  - split; reflexivity.
Qed.

Lemma header2_record_date (tz : string) (a1 a2 a3 b1 b2 b3 : datetime) :
  date_of a1 = date_of b1 -> date_of a2 = date_of b2 -> date_of a3 = date_of b3 ->
  header2_record tz a1 a2 a3 = header2_record tz b1 b2 b3.
Proof.
  intros H1 H2 H3. unfold header2_record.
  now rewrite (strftime_dby_date _ _ H1), (strftime_dby_date _ _ H2),
    (strftime_dby_date _ _ H3).
Qed.

Lemma type5_record_date (a b : datetime) (s : Z) :
  date_of a = date_of b -> type5_record a s = type5_record b s.
Proof. intros H. unfold type5_record. now rewrite (strftime_dby_date _ _ H). Qed.

(** C8, as amended.  The encoder is deterministic once the clock is
    fixed, and the clock matters through its calendar date only: two runs
    on the same legs and shells whose clock readings fall on the same day
    write the same lines and end in the same way. *)
Theorem output_determined_by_clock_date
    (fuel : nat) (all_legs : list Leg) (shells : Shells)
    (now_range now_range' today_date today_date' : datetime) :
  valid_time now_range -> valid_time now_range' ->
  date_of now_range = date_of now_range' ->
  date_of today_date = date_of today_date' ->
  write_ssim_with_segments fuel all_legs shells now_range today_date
  = write_ssim_with_segments fuel all_legs shells now_range' today_date'.
Proof.
  intros Hv Hv' Hnow Htoday. unfold write_ssim_with_segments.
  pose proof (range_date all_legs now_range now_range' Hv Hv' Hnow) as H.
  destruct (find_operation_date_range all_legs "L" now_range) as [e|[a1 a2]],
           (find_operation_date_range all_legs "L" now_range') as [e'|[b1 b2]];
    try contradiction.
  - now subst.
  - destruct H as [H1 H2].
    rewrite (header2_record_date "L" a1 a2 today_date b1 b2 today_date' H1 H2 Htoday).
    destruct shells as [|[k0 l0] rest]; [reflexivity|].
    destruct (chain_loop fuel ((k0, l0) :: rest) ∅ k0 3 []) as [[body s] st].
    now rewrite (type5_record_date today_date today_date' s Htoday).
Qed.

Lemma output_determined_by_clock_date_witness :
  write_ssim_with_segments 2 (example_legs "2") (example_shells "2")
    example_now example_now
  = write_ssim_with_segments 2 (example_legs "2") (example_shells "2")
      (mk_datetime 2026 11 3 23 59 59 999999) (mk_datetime 2026 11 3 0 0 0 0).
Proof.
  apply output_determined_by_clock_date.
  - unfold valid_time; cbn; lia.
  - unfold valid_time; cbn; lia.
  - reflexivity.
  - reflexivity.
Defined.

(** C8 fails as stated.  The generation date read from the clock is
    written into the Type-2 header (and the trailer): the same legs and
    shells encoded on 3 November and on 4 November give different files. *)
Lemma output_changes_with_the_clock :
  file_contents
    (write_ssim_with_segments 2 (example_legs "2") (example_shells "2")
       example_now (mk_datetime 2026 11 3 10 0 0 0))
  <> file_contents
       (write_ssim_with_segments 2 (example_legs "2") (example_shells "2")
          example_now (mk_datetime 2026 11 4 10 0 0 0)).
Proof.
  intros H. apply (f_equal (Str.slice 1033 7)) in H.
  vm_compute in H. discriminate H.
Qed.

(** ** The reader *)

Lemma leg_seq_key_row (leg : Leg) :
  leg_seq_key leg
  = py_int (match row leg !! "Leg Seq num" with Some v => v | None => "1" end).
Proof. unfold leg_seq_key. now rewrite leg_get_row by reflexivity. Qed.

Lemma leg_seq_key_absent (leg : Leg) :
  row leg !! "Leg Seq num" = None -> leg_seq_key leg = inr 1.
Proof. intros H. rewrite leg_seq_key_row, H. reflexivity. Qed.

Lemma read_rows_total (offsets : gmap string Q) (rows : list (gmap string string)) :
  Forall has_required_columns rows ->
  forall (acc : list Leg) (shells : Shells),
  exists legs,
    read_rows rows offsets acc shells
    = inr (acc ++ legs, group_legs legs shells)
    /\ map row legs = rows.
Proof.
  induction 1 as [|r rows Hr _ IH]; intros acc shells.
  - exists []. cbn. now rewrite app_nil_r.
  - destruct (make_leg_total r offsets Hr) as (leg & E & Hrow & _).
    assert (row_get r "Line Num" = inr (leg_shell_id leg)) as Hid.
    { unfold has_required_columns, required_columns in Hr.
      rewrite !Forall_cons in Hr. destruct Hr as (_ & _ & _ & _ & [v Hv] & _).
      unfold row_get, leg_shell_id. now rewrite Hrow, Hv. }
    cbn [read_rows]. rewrite E. cbn [bind]. rewrite Hid. cbn [bind].
    destruct (IH (acc ++ [leg]) (shells_append shells (leg_shell_id leg) leg))
      as (legs & E' & Hrows).
    exists (leg :: legs). rewrite E', <- app_assoc. cbn.
    split; [reflexivity | now rewrite Hrow, Hrows].
Qed.

(** Grouping keeps the ids distinct, leaves no shell empty and loses no
    leg. *)
Lemma shells_append_keys (shells : Shells) (id : string) (leg : Leg) :
  map fst (shells_append shells id leg)
  = if bool_decide (id ∈ map fst shells) then map fst shells
    else map fst shells ++ [id].
Proof.
  induction shells as [|[k legs] shells IH]; cbn [shells_append map fst].
  - rewrite bool_decide_eq_false_2 by apply not_elem_of_nil. reflexivity.
  - destruct (String.eqb_spec k id) as [->|Hne]; cbn [map fst].
    + rewrite bool_decide_eq_true_2 by apply list_elem_of_here. reflexivity.
    + rewrite IH. case_bool_decide as Hin.
      * rewrite bool_decide_eq_true_2 by now apply list_elem_of_further.
        reflexivity.
      * rewrite bool_decide_eq_false_2; [reflexivity|].
        rewrite elem_of_cons. intros [->|]; contradiction.
Qed.

Lemma shells_append_distinct (shells : Shells) (id : string) (leg : Leg) :
  NoDup (map fst shells) -> NoDup (map fst (shells_append shells id leg)).
Proof.
  intros H. rewrite shells_append_keys. case_bool_decide as Hin; [exact H|].
  apply NoDup_app. split; [exact H|]. split.
  - intros x Hx Hx'. apply list_elem_of_singleton in Hx'. now subst.
  - apply NoDup_singleton.
Qed.

Lemma shells_append_nonempty (shells : Shells) (id : string) (leg : Leg) :
  Forall (fun kl => snd kl <> []) shells ->
  Forall (fun kl => snd kl <> []) (shells_append shells id leg).
Proof.
  induction shells as [|[k legs] shells IH]; cbn [shells_append]; intros H.
  - repeat constructor. discriminate.
  - apply Forall_cons in H as [Hk Hrest].
    destruct (String.eqb k id); constructor; auto.
    cbn. intros E. apply app_eq_nil in E as [_ E]. discriminate E.
Qed.

Lemma shells_append_legs (shells : Shells) (id : string) (leg : Leg) :
  all_shell_legs (shells_append shells id leg) ≡ₚ leg :: all_shell_legs shells.
Proof.
  unfold all_shell_legs.
  induction shells as [|[k legs] shells IH]; cbn [shells_append map snd concat].
  - reflexivity.
  - destruct (String.eqb k id); cbn [map snd concat].
    + rewrite <- app_assoc. cbn [app].
      symmetry. apply Permutation_middle.
    + rewrite IH. symmetry. apply Permutation_middle.
Qed.

Lemma group_legs_invariants (legs : list Leg) :
  forall shells : Shells,
    NoDup (map fst shells) ->
    Forall (fun kl => snd kl <> []) shells ->
    NoDup (map fst (group_legs legs shells))
    /\ Forall (fun kl => snd kl <> []) (group_legs legs shells)
    /\ all_shell_legs (group_legs legs shells) ≡ₚ all_shell_legs shells ++ legs.
Proof.
  induction legs as [|leg legs IH]; intros shells Hnd Hne; cbn [group_legs fold_left].
  - rewrite app_nil_r. auto.
  - destruct (IH (shells_append shells (leg_shell_id leg) leg)) as (H1 & H2 & H3).
    + now apply shells_append_distinct.
    + now apply shells_append_nonempty.
    + split; [exact H1|]. split; [exact H2|].
      unfold group_legs in H3. rewrite H3, shells_append_legs.
      cbn [app]. apply Permutation_middle.
Qed.

(** The sort *)

Lemma insert_by_key_perm (kx : Z * Leg) (l : list (Z * Leg)) :
  insert_by_key kx l ≡ₚ kx :: l.
Proof.
  induction l as [|ky l IH]; cbn [insert_by_key]; [reflexivity|].
  destruct (fst kx <=? fst ky); [reflexivity|].
  rewrite IH. apply perm_swap.
Qed.

Lemma insert_by_key_sorted (kx : Z * Leg) (l : list (Z * Leg)) :
  Sorted by_key l -> Sorted by_key (insert_by_key kx l).
Proof.
  induction 1 as [|ky l Hs IH Hhd]; cbn [insert_by_key].
  - repeat constructor.
  - destruct (fst kx <=? fst ky) eqn:E.
    + apply Z.leb_le in E. repeat constructor; auto.
    + apply Z.leb_gt in E. constructor; [exact IH|].
      destruct Hhd as [|kz l Hz]; cbn [insert_by_key].
      * constructor. unfold by_key. lia.
      * destruct (fst kx <=? fst kz); constructor; unfold by_key in *; lia.
Qed.

Lemma insertion_sort (ks : list (Z * Leg)) :
  fold_right insert_by_key [] ks ≡ₚ ks
  /\ Sorted by_key (fold_right insert_by_key [] ks).
Proof.
  induction ks as [|kx ks [IH1 IH2]]; cbn [fold_right].
  - split; [reflexivity | constructor].
  - split.
    + rewrite insert_by_key_perm. now constructor.
    + now apply insert_by_key_sorted.
Qed.

Lemma keyed_ok (legs : list Leg) (ks : list (Z * Leg)) :
  keyed legs = inr ks ->
  ks = map (fun x => (seq_num x, x)) legs
  /\ Forall (fun x => exists n, leg_seq_key x = inr n) legs.
Proof.
  revert ks; induction legs as [|x legs IH]; intros ks; cbn [keyed].
  - intros [= <-]. split; [reflexivity | constructor].
  - destruct (leg_seq_key x) as [e|k] eqn:Ek; cbn [bind]; [discriminate|].
    destruct (keyed legs) as [e|rest]; cbn [bind ret]; [discriminate|].
    intros [= <-]. destruct (IH rest eq_refl) as [-> Hall].
    split.
    + cbn [map]. unfold seq_num. now rewrite Ek.
    + constructor; eauto.
Qed.

Lemma keyed_total (legs : list Leg) :
  Forall (fun x => exists n, leg_seq_key x = inr n) legs ->
  exists ks, keyed legs = inr ks.
Proof.
  induction 1 as [|x legs [n Hn] _ [ks IH]]; cbn [keyed].
  - eauto.
  - rewrite Hn, IH. cbn. eauto.
Qed.

Lemma keyed_error (legs : list Leg) (e : pyerr) :
  keyed legs = inl e -> e = ValueError.
Proof.
  induction legs as [|x legs IH]; cbn [keyed]; [discriminate|].
  destruct (leg_seq_key x) as [e'|k] eqn:Ek; cbn [bind].
  - intros [= <-]. unfold leg_seq_key in Ek. now apply py_int_error in Ek.
  - destruct (keyed legs) as [e'|rest]; cbn [bind ret]; [|discriminate].
    intros [= <-]. now apply IH.
Qed.

Lemma map_seq_num_sorted (l : list (Z * Leg)) :
  Forall (fun kx => fst kx = seq_num (snd kx)) l ->
  Sorted by_key l -> Sorted Z.le (map seq_num (map snd l)).
Proof.
  intros Hall Hs. induction Hs as [|kx l Hs IH Hhd]; cbn [map]; [constructor|].
  apply Forall_cons in Hall as [Hx Hall].
  constructor; [now apply IH|].
  destruct Hhd as [|ky l Hy]; cbn [map]; constructor.
  apply Forall_cons in Hall as [Hy' _]. unfold by_key in Hy. lia.
Qed.

Lemma sort_shell_ok (legs legs' : list Leg) :
  sort_shell legs = inr legs' ->
  legs' ≡ₚ legs
  /\ Sorted Z.le (map seq_num legs')
  /\ Forall (fun x => exists n, leg_seq_key x = inr n) legs.
Proof.
  unfold sort_shell. destruct (keyed legs) as [e|ks] eqn:Ek; cbn [bind ret];
    [discriminate|].
  intros [= <-]. destruct (keyed_ok legs ks Ek) as [-> Hall].
  destruct (insertion_sort (map (fun x => (seq_num x, x)) legs)) as [Hperm Hsorted].
  split; [|split; [|exact Hall]].
  - rewrite Hperm, map_map. cbn. now rewrite map_id.
  - apply map_seq_num_sorted; [|exact Hsorted].
    rewrite Hperm. apply Forall_map. now apply Forall_true.
Qed.

Lemma sort_shells_ok (shells shells' : Shells) :
  sort_shells shells = inr shells' ->
  map fst shells' = map fst shells
  /\ Forall2 (fun kl kl' => snd kl' ≡ₚ snd kl) shells shells'
  /\ Forall (fun kl => Sorted Z.le (map seq_num (snd kl))) shells'
  /\ Forall (fun x => exists n, leg_seq_key x = inr n) (all_shell_legs shells).
Proof.
  revert shells'; induction shells as [|[k legs] shells IH]; intros shells';
    cbn [sort_shells].
  - intros [= <-]. repeat split; constructor.
  - destruct (sort_shell legs) as [e|legs'] eqn:Es; cbn [bind]; [discriminate|].
    destruct (sort_shells shells) as [e|rest]; cbn [bind ret]; [discriminate|].
    intros [= <-]. destruct (IH rest eq_refl) as (H1 & H2 & H3 & H4).
    destruct (sort_shell_ok legs legs' Es) as (P1 & P2 & P3).
    split; [cbn; now rewrite H1|]. split; [now constructor|].
    split; [now constructor|].
    unfold all_shell_legs. cbn [map snd concat]. apply Forall_app. now split.
Qed.

Lemma sort_shells_total (shells : Shells) :
  Forall (fun x => exists n, leg_seq_key x = inr n) (all_shell_legs shells) ->
  exists shells', sort_shells shells = inr shells'.
Proof.
  unfold all_shell_legs.
  induction shells as [|[k legs] shells IH]; cbn [sort_shells map snd concat].
  - eauto.
  - intros H. apply Forall_app in H as [Hl Hr].
    destruct (keyed_total legs Hl) as [ks Ek].
    destruct (IH Hr) as [rest Er].
    unfold sort_shell. rewrite Ek, Er. cbn. eauto.
Qed.

Lemma sort_shells_error (shells : Shells) (e : pyerr) :
  sort_shells shells = inl e -> e = ValueError.
Proof.
  induction shells as [|[k legs] shells IH]; cbn [sort_shells]; [discriminate|].
  unfold sort_shell.
  destruct (keyed legs) as [e'|ks] eqn:Ek; cbn [bind ret].
  - intros [= <-]. now apply keyed_error in Ek.
  - destruct (sort_shells shells) as [e'|rest]; cbn [bind ret]; [|discriminate].
    intros [= <-]. now apply IH.
Qed.

Lemma sorted_shells_legs (shells shells' : Shells) :
  Forall2 (fun kl kl' => snd kl' ≡ₚ snd kl) shells shells' ->
  all_shell_legs shells' ≡ₚ all_shell_legs shells.
Proof.
  unfold all_shell_legs. induction 1 as [|kl kl' l l' H _ IH]; cbn [map concat].
  - reflexivity.
  - now rewrite H, IH.
Qed.

Lemma sorted_shells_nonempty (shells shells' : Shells) :
  Forall2 (fun kl kl' => snd kl' ≡ₚ snd kl) shells shells' ->
  Forall (fun kl => snd kl <> []) shells ->
  Forall (fun kl => snd kl <> []) shells'.
Proof.
  induction 1 as [|kl kl' l l' H _ IH]; intros Hne; [constructor|].
  apply Forall_cons in Hne as [Hk Hne]. constructor; [|now apply IH].
  intros E. rewrite E in H. apply Permutation_nil_l in H. now symmetry in H.
Qed.

(** What [read_low_csv] returns is well formed: the ids of the shells are
    distinct, no shell is empty, and the shells hold the legs read. *)
Lemma read_low_csv_well_formed (rows : list (gmap string string))
    (offsets : gmap string Q) (all_legs : list Leg) (shells : Shells) :
  Forall has_required_columns rows ->
  read_low_csv rows offsets = inr (all_legs, shells) ->
  map row all_legs = rows
  /\ NoDup (map fst shells)
  /\ Forall (fun kl => snd kl <> []) shells
  /\ all_shell_legs shells ≡ₚ all_legs
  /\ Forall (fun kl => Sorted Z.le (map seq_num (snd kl))) shells.
Proof.
  intros Hrows. unfold read_low_csv.
  destruct (read_rows_total offsets rows Hrows [] []) as (legs & E & Hmap).
  rewrite E. cbn [bind fst snd app].
  destruct (sort_shells (group_legs legs [])) as [e|shells'] eqn:Es;
    cbn [bind ret]; [discriminate|].
  intros [= <- <-].
  destruct (sort_shells_ok _ _ Es) as (H1 & H2 & H3 & _).
  destruct (group_legs_invariants legs [] (NoDup_nil_2) (List.Forall_nil _))
    as (G1 & G2 & G3).
  split; [exact Hmap|]. split; [now rewrite H1|].
  split; [now apply (sorted_shells_nonempty _ _ H2)|].
  split; [|exact H3].
  rewrite (sorted_shells_legs _ _ H2), G3. reflexivity.
Qed.

Lemma seq_num_ok_key (leg : Leg) :
  seq_num_ok (row leg) -> exists n, leg_seq_key leg = inr n.
Proof.
  unfold seq_num_ok. rewrite leg_seq_key_row.
  destruct (row leg !! "Leg Seq num"); [auto|]. intros _. now exists 1.
Qed.

Lemma example_rows_have_columns :
  has_required_columns row_JFK_ATL
  /\ has_required_columns row_bad_seq.
Proof.
  unfold has_required_columns.
  repeat split; apply (bool_decide_unpack _); vm_compute; exact I.
Qed.

(** C1 fails as stated.  A row whose "Leg Seq num" cell is [abc] has every
    column the reader needs, yet reading it raises [ValueError]: the leg is
    not given the number 1 and the run does not continue. *)
Lemma non_numeric_leg_sequence_aborts :
  has_required_columns row_bad_seq
  /\ row_bad_seq !! "Leg Seq num" = Some "abc"
  /\ read_low_csv [row_bad_seq] example_offsets = inl ValueError.
Proof.
  split; [apply example_rows_have_columns|]. split.
  - reflexivity.
  - vm_compute. reflexivity.
Qed.

(** ** Closing remarks on the hypotheses

    The date range is always found in local mode when some leg has a
    date-time: no conversion takes place, so nothing can overflow. *)
Lemma operation_dates_local (all_legs : list Leg) :
  operation_dates all_legs "L"
  = inr (flat_map
           (fun leg =>
              match Dept_DateTime leg with Some d => [d] | None => [] end
              ++ match Arvl_DateTime leg with Some d => [d] | None => [] end)
           all_legs).
Proof.
  induction all_legs as [|leg legs IH]; [reflexivity|].
  cbn [operation_dates flat_map]. rewrite IH.
  unfold convert_date_to_utc_if_needed.
  destruct (Dept_DateTime leg), (Arvl_DateTime leg),
    (Dept_UTC_Offset leg), (Arvl_UTC_Offset leg); cbn; now rewrite <- ?app_assoc.
Qed.

Lemma find_operation_date_range_local (all_legs : list Leg) (now : datetime)
    (leg : Leg) (d : datetime) :
  leg ∈ all_legs ->
  Dept_DateTime leg = Some d \/ Arvl_DateTime leg = Some d ->
  exists d1 d2, find_operation_date_range all_legs "L" now = inr (d1, d2).
Proof.
  intros Hin Hd. unfold find_operation_date_range.
  rewrite operation_dates_local. cbn [bind].
  destruct (flat_map _ all_legs) as [|x xs] eqn:E; [|cbn; eauto].
  exfalso.
  assert (In d (flat_map
                  (fun leg =>
                     match Dept_DateTime leg with Some d => [d] | None => [] end
                     ++ match Arvl_DateTime leg with Some d => [d] | None => [] end)
                  all_legs)) as Hd'.
  { apply in_flat_map. exists leg. split; [now apply list_elem_of_In|].
    apply in_or_app. destruct Hd as [-> | ->]; [left | right]; now left. }
  rewrite E in Hd'. destruct Hd'.
Qed.

(** * The remaining functions *)

(** ** The reader: columns, grouping and the order of the legs *)

Lemma scan_parse (s : string) : exists d, parse_flexible_date s = inr d.
Proof. rewrite parse_flexible_date_first_success. eauto. Qed.

Lemma row_get_None (r : gmap string string) (key : string) :
  r !! key = None -> row_get r key = inl (KeyError key).
Proof. intros H. unfold row_get. now rewrite H. Qed.

Lemma row_get_Some (r : gmap string string) (key v : string) :
  r !! key = Some v -> row_get r key = inr v.
Proof. intros H. unfold row_get. now rewrite H. Qed.

Lemma first_missing_None (r : gmap string string) :
  first_missing r = None <-> has_required_columns r.
Proof.
  unfold first_missing, has_required_columns.
  induction required_columns as [|c cs IH]; cbn [List.find].
  - split; [constructor | reflexivity].
  - rewrite Forall_cons. case_bool_decide as Hc.
    + split; [discriminate|]. intros [[v Hv] _]. congruence.
    + rewrite IH. split; [|tauto]. intros H. split; [|exact H].
      destruct (r !! c); [eauto | contradiction].
Qed.


(** ** The reader on the rows of [csv.DictReader] *)

(** Every row of [csv.DictReader] has the keys of the header and no
    other. *)
Lemma dict_row_lookup_None (fieldnames record : list string)
    (d : gmap string cell) (k : string) :
  dict_row fieldnames record d !! k = None <-> (k ∉ fieldnames) /\ d !! k = None.
Proof.
  revert record d. induction fieldnames as [|key fieldnames IH]; intros record d;
    cbn [dict_row].
  - split; [intros H; split; [apply not_elem_of_nil | exact H] | now intros [_ H]].
  - rewrite not_elem_of_cons.
    destruct record as [|v record]; rewrite IH, lookup_insert_None;
      intuition congruence.
Qed.

Lemma DictReader_keys (fieldnames : list string) (rest : list (list string))
    (r : gmap string cell) (k : string) :
  r ∈ DictReader (fieldnames :: rest) -> (r !! k = None <-> k ∉ fieldnames).
Proof.
  unfold DictReader. intros H.
  apply list_elem_of_In, in_map_iff in H as (record & <- & _).
  rewrite dict_row_lookup_None, lookup_empty. tauto.
Qed.

Lemma parse_cell_total (r : gmap string cell) (key : string) :
  exists d, parse_cell r key = inr d.
Proof.
  unfold parse_cell. destruct (r !! key) as [[s|]|]; [apply scan_parse | | apply scan_parse].
  now exists None.
Qed.

(** A row without fault becomes a leg; a row with a fault stops the
    reader with that fault. *)
Lemma row_fault_None (r : gmap string cell) :
  row_fault r = None
  <-> Forall (fun key => exists s, r !! key = Some (Some s))
        ["Dept Time"; "Arvl Time"; "Dept Sta"; "Arvl Sta"]
      /\ is_Some (r !! "Line Num").
Proof.
  unfold row_fault, cell_fault. rewrite !Forall_cons.
  destruct (r !! "Dept Time") as [[s1|]|];
    [|split; [discriminate | intros (((s & Hs) & _) & _); discriminate Hs] ..].
  destruct (r !! "Arvl Time") as [[s2|]|];
    [|split; [discriminate | intros ((_ & (s & Hs) & _) & _); discriminate Hs] ..].
  destruct (r !! "Dept Sta") as [[s3|]|];
    [|split; [discriminate | intros ((_ & _ & (s & Hs) & _) & _); discriminate Hs] ..].
  destruct (r !! "Arvl Sta") as [[s4|]|];
    [|split; [discriminate | intros ((_ & _ & _ & (s & Hs) & _) & _); discriminate Hs] ..].
  destruct (r !! "Line Num") as [c|].
  - split; [|reflexivity]. intros _. repeat split; eauto.
  - split; [discriminate|]. intros [_ [c Hc]]. discriminate Hc.
Qed.

Lemma make_csv_leg_row (r : gmap string cell) (offsets : gmap string Q) :
  match row_fault r with
  | None =>
      exists leg c,
        make_csv_leg r offsets = inr leg /\ csv_row leg = r
        /\ cell_at r "Line Num" = inr c /\ csv_leg_shell_id leg = c
  | Some e =>
      (let* leg := make_csv_leg r offsets in
       let* shell_id := cell_at r "Line Num" in
       @inr pyerr (CsvLeg * cell) (leg, shell_id)) = inl e
  end.
Proof.
  unfold row_fault, cell_fault, make_csv_leg, str_method, cell_at, csv_leg_shell_id.
  destruct (parse_cell_total r "Dept Date") as [d1 ->].
  destruct (parse_cell_total r "Arvl Date") as [d2 ->].
  destruct (r !! "Dept Time") as [[s1|]|]; [|reflexivity ..].
  destruct (r !! "Arvl Time") as [[s2|]|]; [|reflexivity ..].
  destruct (r !! "Dept Sta") as [[s3|]|]; [|reflexivity ..].
  destruct (r !! "Arvl Sta") as [[s4|]|]; [|reflexivity ..].
  cbn [bind ret raise].
  destruct (r !! "Line Num") as [c|] eqn:Hc; cbn [bind ret raise csv_row].
  - eexists _, c. split; [reflexivity|]. cbn [csv_row]. rewrite Hc.
    repeat split; reflexivity.
  - reflexivity.
Qed.

Lemma read_csv_rows_total (offsets : gmap string Q) (rows : list (gmap string cell)) :
  Forall (fun r => row_fault r = None) rows ->
  forall (acc : list CsvLeg) (shells : CsvShells),
  exists legs,
    read_csv_rows rows offsets acc shells
    = inr (acc ++ legs, csv_group_legs legs shells)
    /\ map csv_row legs = rows.
Proof.
  induction 1 as [|r rows Hr _ IH]; intros acc shells.
  - exists []. cbn. now rewrite app_nil_r.
  - pose proof (make_csv_leg_row r offsets) as H. rewrite Hr in H.
    destruct H as (leg & c & E & Hrow & Hid & Hc).
    cbn [read_csv_rows]. rewrite E. cbn [bind]. rewrite Hid. cbn [bind].
    destruct (IH (acc ++ [leg]) (csv_shells_append shells c leg))
      as (legs & E' & Hrows).
    exists (leg :: legs). rewrite E', <- app_assoc. cbn [app map].
    split; [|now rewrite Hrow, Hrows].
    unfold csv_group_legs. cbn [fold_left]. now rewrite Hc.
Qed.

Lemma read_csv_rows_fault (offsets : gmap string Q)
    (before : list (gmap string cell)) (r : gmap string cell)
    (after : list (gmap string cell)) (e : pyerr) :
  Forall (fun r' => row_fault r' = None) before ->
  row_fault r = Some e ->
  forall (acc : list CsvLeg) (shells : CsvShells),
    read_csv_rows (before ++ r :: after) offsets acc shells = inl e.
Proof.
  intros Hbefore Hr. induction Hbefore as [|r' before Hr' _ IH]; intros acc shells.
  - pose proof (make_csv_leg_row r offsets) as H. rewrite Hr in H.
    cbn [app read_csv_rows].
    destruct (make_csv_leg r offsets) as [e'|leg]; cbn [bind] in H |- *;
      [now injection H as -> |].
    destruct (cell_at r "Line Num") as [e'|c]; cbn [bind] in H |- *;
      [now injection H as -> | discriminate H].
  - pose proof (make_csv_leg_row r' offsets) as H. rewrite Hr' in H.
    destruct H as (leg & c & E & _ & Hid & _).
    cbn [app read_csv_rows]. rewrite E. cbn [bind]. rewrite Hid. cbn [bind].
    apply IH.
Qed.

Lemma row_fault_KeyError (r : gmap string cell) (key : string) :
  row_fault r = Some (KeyError key) -> key ∈ required_columns /\ r !! key = None.
Proof.
  unfold row_fault, cell_fault, required_columns.
  destruct (r !! "Dept Time") as [[s1|]|] eqn:E1; [|discriminate|];
    [|intros [= <-]; split; [repeat constructor | exact E1]].
  destruct (r !! "Arvl Time") as [[s2|]|] eqn:E2; [|discriminate|];
    [|intros [= <-]; split; [repeat constructor | exact E2]].
  destruct (r !! "Dept Sta") as [[s3|]|] eqn:E3; [|discriminate|];
    [|intros [= <-]; split; [repeat constructor | exact E3]].
  destruct (r !! "Arvl Sta") as [[s4|]|] eqn:E4; [|discriminate|];
    [|intros [= <-]; split; [repeat constructor | exact E4]].
  destruct (r !! "Line Num") as [c|] eqn:E5; [discriminate|].
  intros [= <-]; split; [repeat constructor | exact E5].
Qed.

Lemma row_fault_AttributeError (r : gmap string cell) (name : string) :
  row_fault r = Some (AttributeError name) ->
  exists key,
    key ∈ ["Dept Time"; "Arvl Time"; "Dept Sta"; "Arvl Sta"]
    /\ r !! key = Some None.
Proof.
  unfold row_fault, cell_fault.
  destruct (r !! "Dept Time") as [[s1|]|] eqn:E1; [| |discriminate];
    [|intros _; eexists; split; [|exact E1]; repeat constructor].
  destruct (r !! "Arvl Time") as [[s2|]|] eqn:E2; [| |discriminate];
    [|intros _; eexists; split; [|exact E2]; repeat constructor].
  destruct (r !! "Dept Sta") as [[s3|]|] eqn:E3; [| |discriminate];
    [|intros _; eexists; split; [|exact E3]; repeat constructor].
  destruct (r !! "Arvl Sta") as [[s4|]|] eqn:E4; [| |discriminate];
    [|intros _; eexists; split; [|exact E4]; repeat constructor].
  destruct (r !! "Line Num"); discriminate.
Qed.

(** X1.  Where the reader stops in the rows of a file.  Every row has the
    keys of the header, and [None] for the cells that its record is too
    short to have.  The reader calls a method on four cells of each row,
    departure and arrival time and station in this order, and looks up the
    rotation id.  When all rows have the four cells and the header has the
    column of the id, every row becomes a leg, also a row whose id is
    [None].  Otherwise the reader stops at the first row with a fault and
    raises the first fault of that row: [KeyError] for a column that the
    header lacks, which stops it at the first row of the file, and
    [AttributeError] for a cell that the record is too short to have. *)
Theorem read_low_csv_missing_column
    (fieldnames : list string) (rest : list (list string))
    (offsets : gmap string Q) :
  let records := fieldnames :: rest in
  let rows := DictReader records in
  (Forall (fun r => row_fault r = None) rows ->
   exists all_legs shells,
     read_csv_rows rows offsets [] [] = inr (all_legs, shells)
     /\ map csv_row all_legs = rows)
  /\ (forall before r after e,
        rows = before ++ r :: after ->
        Forall (fun r' => row_fault r' = None) before ->
        row_fault r = Some e ->
        read_low_csv_file records offsets = inl e
        /\ (forall key, e = KeyError key ->
              before = [] /\ key ∈ required_columns /\ key ∉ fieldnames)
        /\ (forall name, e = AttributeError name ->
              exists key,
                key ∈ ["Dept Time"; "Arvl Time"; "Dept Sta"; "Arvl Sta"]
                /\ key ∈ fieldnames /\ r !! key = Some None))
  /\ (forall r,
        row_fault r = None
        <-> Forall (fun key => exists s, r !! key = Some (Some s))
              ["Dept Time"; "Arvl Time"; "Dept Sta"; "Arvl Sta"]
            /\ is_Some (r !! "Line Num")).
Proof.
  intros records rows. split; [|split].
  - intros Hrows.
    destruct (read_csv_rows_total offsets rows Hrows [] []) as (legs & E & Hmap).
    eauto.
  - intros before r after e Erows Hbefore Hr.
    assert (r ∈ rows) as Hin.
    { rewrite Erows. apply elem_of_app. right. apply list_elem_of_here. }
    split; [|split].
    + unfold read_low_csv_file. fold records. fold rows. rewrite Erows.
      now rewrite (read_csv_rows_fault offsets before r after e Hbefore Hr).
    + intros key ->. apply row_fault_KeyError in Hr as [Hreq Hkey].
      pose proof (proj1 (DictReader_keys fieldnames rest r key Hin) Hkey) as Hnot.
      split; [|split; [exact Hreq | exact Hnot]].
      destruct before as [|r' before]; [reflexivity | exfalso].
      apply Forall_cons in Hbefore as [Hr' _].
      assert (r' ∈ rows) as Hin'.
      { rewrite Erows. apply list_elem_of_here. }
      pose proof (proj2 (DictReader_keys fieldnames rest r' key Hin') Hnot) as Hnone.
      apply row_fault_None in Hr' as [H4 [c Hc]].
      unfold required_columns in Hreq.
      rewrite !Forall_cons in H4.
      destruct H4 as ((s1 & H1) & (s2 & H2) & (s3 & H3) & (s4 & H4) & _).
      rewrite !elem_of_cons, elem_of_nil in Hreq.
      destruct Hreq as [->|[->|[->|[->|[->|[]]]]]]; congruence.
    + intros name ->. apply row_fault_AttributeError in Hr as (key & Hkey & Hnone).
      exists key. split; [exact Hkey|]. split; [|exact Hnone].
      destruct (decide (key ∈ fieldnames)) as [|Hnot]; [assumption | exfalso].
      apply (DictReader_keys fieldnames rest r key Hin) in Hnot. congruence.
  - apply row_fault_None.
Qed.

Lemma read_low_csv_missing_column_witness :
  read_low_csv_file example_file_short_time example_offsets
  = inl (AttributeError "zfill")
  /\ read_low_csv_file (map (take 8) example_file) example_offsets
     = inl (KeyError "Arvl Time")
  /\ exists all_legs shells,
       read_csv_rows (DictReader example_file) example_offsets [] []
       = inr (all_legs, shells)
       /\ length all_legs = 2%nat.
Proof.
  split; [|split].
  - destruct (read_low_csv_missing_column example_header
                (List.tl example_file_short_time) example_offsets) as (_ & H & _).
    apply (H [dict_row example_header
                ["1"; "AA"; "100"; "JFK"; "ATL"; "20Dec25"; "20Dec25"; "930"; "1145"; "1"]
                ∅]
             (dict_row example_header
                ["1"; "AA"; "200"; "ATL"; "JFK"; "20Dec25"; "20Dec25"; "1300"] ∅) []).
    + reflexivity.
    + repeat constructor.
    + vm_compute. reflexivity.
  - destruct (read_low_csv_missing_column (take 8 example_header)
                (List.tl (map (take 8) example_file)) example_offsets) as (_ & H & _).
    apply (H [] (dict_row (take 8 example_header)
                   (take 8 ["1"; "AA"; "100"; "JFK"; "ATL"; "20Dec25"; "20Dec25";
                            "930"; "1145"; "1"]) ∅)
             [dict_row (take 8 example_header)
                (take 8 ["1"; "AA"; "200"; "ATL"; "JFK"; "20Dec25"; "20Dec25";
                         "1300"; "1515"; "2"]) ∅]).
    + reflexivity.
    + constructor.
    + vm_compute. reflexivity.
  - destruct (read_low_csv_missing_column example_header
                (List.tl example_file) example_offsets) as (H & _).
    destruct H as (all_legs & shells & E & Hmap).
    + repeat constructor.
    + exists all_legs, shells. split; [exact E|].
      rewrite <- (length_map csv_row), Hmap. reflexivity.
Defined.

(** ** The sort of the legs of [csv.DictReader] rows *)

Lemma csv_shells_append_legs (shells : CsvShells) (id : cell) (leg : CsvLeg) :
  csv_all_shell_legs (csv_shells_append shells id leg)
  ≡ₚ leg :: csv_all_shell_legs shells.
Proof.
  unfold csv_all_shell_legs.
  induction shells as [|[k legs] shells IH]; cbn [csv_shells_append map snd concat].
  - reflexivity.
  - destruct (decide (k = id)); cbn [map snd concat].
    + rewrite <- app_assoc. cbn [app].
      symmetry. apply Permutation_middle.
    + rewrite IH. symmetry. apply Permutation_middle.
Qed.

Lemma csv_group_legs_all (legs : list CsvLeg) (shells : CsvShells) :
  csv_all_shell_legs (csv_group_legs legs shells)
  ≡ₚ csv_all_shell_legs shells ++ legs.
Proof.
  revert shells. induction legs as [|leg legs IH]; intros shells;
    cbn [csv_group_legs fold_left].
  - now rewrite app_nil_r.
  - unfold csv_group_legs in IH. rewrite IH, csv_shells_append_legs.
    cbn [app]. apply Permutation_middle.
Qed.

Lemma csv_insert_by_key_perm (kx : Z * CsvLeg) (l : list (Z * CsvLeg)) :
  csv_insert_by_key kx l ≡ₚ kx :: l.
Proof.
  induction l as [|ky l IH]; cbn [csv_insert_by_key]; [reflexivity|].
  destruct (fst kx <=? fst ky); [reflexivity|].
  rewrite IH. apply perm_swap.
Qed.

Lemma csv_insert_by_key_sorted (kx : Z * CsvLeg) (l : list (Z * CsvLeg)) :
  Sorted csv_by_key l -> Sorted csv_by_key (csv_insert_by_key kx l).
Proof.
  induction 1 as [|ky l Hs IH Hhd]; cbn [csv_insert_by_key].
  - repeat constructor.
  - destruct (fst kx <=? fst ky) eqn:E.
    + apply Z.leb_le in E. repeat constructor; auto.
    + apply Z.leb_gt in E. constructor; [exact IH|].
      destruct Hhd as [|kz l Hz]; cbn [csv_insert_by_key].
      * constructor. unfold csv_by_key. lia.
      * destruct (fst kx <=? fst kz); constructor; unfold csv_by_key in *; lia.
Qed.

Lemma csv_insertion_sort (ks : list (Z * CsvLeg)) :
  fold_right csv_insert_by_key [] ks ≡ₚ ks
  /\ Sorted csv_by_key (fold_right csv_insert_by_key [] ks).
Proof.
  induction ks as [|kx ks [IH1 IH2]]; cbn [fold_right].
  - split; [reflexivity | constructor].
  - split.
    + rewrite csv_insert_by_key_perm. now constructor.
    + now apply csv_insert_by_key_sorted.
Qed.

(** Legs with one and the same key stay as they are. *)
Lemma csv_insertion_sort_constant (k : Z) (legs : list CsvLeg) :
  fold_right csv_insert_by_key [] (map (fun x => (k, x)) legs)
  = map (fun x => (k, x)) legs.
Proof.
  induction legs as [|x legs IH]; cbn [map fold_right]; [reflexivity|].
  rewrite IH. destruct legs as [|y legs]; cbn [map csv_insert_by_key fst];
    [reflexivity|].
  now rewrite Z.leb_refl.
Qed.

Lemma csv_keyed_ok (legs : list CsvLeg) (ks : list (Z * CsvLeg)) :
  csv_keyed legs = inr ks ->
  ks = map (fun x => (csv_seq_num x, x)) legs
  /\ Forall (fun x => exists n, csv_leg_seq_key x = inr n) legs.
Proof.
  revert ks; induction legs as [|x legs IH]; intros ks; cbn [csv_keyed].
  - intros [= <-]. split; [reflexivity | constructor].
  - destruct (csv_leg_seq_key x) as [e|k] eqn:Ek; cbn [bind]; [discriminate|].
    destruct (csv_keyed legs) as [e|rest]; cbn [bind ret]; [discriminate|].
    intros [= <-]. destruct (IH rest eq_refl) as [-> Hall].
    split.
    + cbn [map]. unfold csv_seq_num. now rewrite Ek.
    + constructor; eauto.
Qed.

Lemma csv_keyed_total (legs : list CsvLeg) :
  Forall (fun x => exists n, csv_leg_seq_key x = inr n) legs ->
  exists ks, csv_keyed legs = inr ks.
Proof.
  induction 1 as [|x legs [n Hn] _ [ks IH]]; cbn [csv_keyed].
  - eauto.
  - rewrite Hn, IH. cbn. eauto.
Qed.

Lemma csv_keyed_error (legs : list CsvLeg) (e : pyerr) :
  csv_keyed legs = inl e -> exists x, x ∈ legs /\ csv_leg_seq_key x = inl e.
Proof.
  induction legs as [|x legs IH]; cbn [csv_keyed]; [discriminate|].
  destruct (csv_leg_seq_key x) as [e'|k] eqn:Ek; cbn [bind].
  - intros [= <-]. exists x. split; [apply list_elem_of_here | exact Ek].
  - destruct (csv_keyed legs) as [e'|rest]; cbn [bind ret]; [|discriminate].
    intros [= <-]. destruct (IH eq_refl) as (y & Hy & Ey).
    exists y. split; [now apply list_elem_of_further | exact Ey].
Qed.

Lemma csv_map_seq_num_sorted (l : list (Z * CsvLeg)) :
  Forall (fun kx => fst kx = csv_seq_num (snd kx)) l ->
  Sorted csv_by_key l -> Sorted Z.le (map csv_seq_num (map snd l)).
Proof.
  intros Hall Hs. induction Hs as [|kx l Hs IH Hhd]; cbn [map]; [constructor|].
  apply Forall_cons in Hall as [Hx Hall].
  constructor; [now apply IH|].
  destruct Hhd as [|ky l Hy]; cbn [map]; constructor.
  apply Forall_cons in Hall as [Hy' _]. unfold csv_by_key in Hy. lia.
Qed.

Lemma csv_sort_shell_ok (legs legs' : list CsvLeg) :
  csv_sort_shell legs = inr legs' ->
  legs' ≡ₚ legs
  /\ Sorted Z.le (map csv_seq_num legs')
  /\ Forall (fun x => exists n, csv_leg_seq_key x = inr n) legs.
Proof.
  unfold csv_sort_shell. destruct (csv_keyed legs) as [e|ks] eqn:Ek; cbn [bind ret];
    [discriminate|].
  intros [= <-]. destruct (csv_keyed_ok legs ks Ek) as [-> Hall].
  destruct (csv_insertion_sort (map (fun x => (csv_seq_num x, x)) legs))
    as [Hperm Hsorted].
  split; [|split; [|exact Hall]].
  - rewrite Hperm, map_map. cbn. now rewrite map_id.
  - apply csv_map_seq_num_sorted; [|exact Hsorted].
    rewrite Hperm. apply Forall_map. now apply Forall_true.
Qed.

Lemma csv_sort_shells_ok (shells shells' : CsvShells) :
  csv_sort_shells shells = inr shells' ->
  csv_all_shell_legs shells' ≡ₚ csv_all_shell_legs shells
  /\ Forall (fun kl => Sorted Z.le (map csv_seq_num (snd kl))) shells'
  /\ Forall (fun x => exists n, csv_leg_seq_key x = inr n)
       (csv_all_shell_legs shells).
Proof.
  unfold csv_all_shell_legs.
  revert shells'; induction shells as [|[k legs] shells IH]; intros shells';
    cbn [csv_sort_shells].
  - intros [= <-]. split; [reflexivity | split; constructor].
  - destruct (csv_sort_shell legs) as [e|legs'] eqn:Es; cbn [bind]; [discriminate|].
    destruct (csv_sort_shells shells) as [e|rest]; cbn [bind ret]; [discriminate|].
    intros [= <-]. destruct (IH rest eq_refl) as (H1 & H2 & H3).
    destruct (csv_sort_shell_ok legs legs' Es) as (P1 & P2 & P3).
    split; [cbn [map snd concat]; now rewrite P1, H1|].
    split; [now constructor|].
    cbn [map snd concat]. apply Forall_app. now split.
Qed.

Lemma csv_sort_shells_total (shells : CsvShells) :
  Forall (fun x => exists n, csv_leg_seq_key x = inr n) (csv_all_shell_legs shells) ->
  exists shells', csv_sort_shells shells = inr shells'.
Proof.
  unfold csv_all_shell_legs.
  induction shells as [|[k legs] shells IH]; cbn [csv_sort_shells map snd concat].
  - eauto.
  - intros H. apply Forall_app in H as [Hl Hr].
    destruct (csv_keyed_total legs Hl) as [ks Ek].
    destruct (IH Hr) as [rest Er].
    unfold csv_sort_shell. rewrite Ek, Er. cbn. eauto.
Qed.

Lemma csv_sort_shells_error (shells : CsvShells) (e : pyerr) :
  csv_sort_shells shells = inl e ->
  exists x, x ∈ csv_all_shell_legs shells /\ csv_leg_seq_key x = inl e.
Proof.
  unfold csv_all_shell_legs.
  induction shells as [|[k legs] shells IH]; cbn [csv_sort_shells map snd concat];
    [discriminate|].
  unfold csv_sort_shell.
  destruct (csv_keyed legs) as [e'|ks] eqn:Ek; cbn [bind ret].
  - intros [= <-]. destruct (csv_keyed_error legs _ Ek) as (x & Hx & Ex).
    exists x. split; [apply elem_of_app; now left | exact Ex].
  - destruct (csv_sort_shells shells) as [e'|rest]; cbn [bind ret]; [|discriminate].
    intros [= <-]. destruct (IH eq_refl) as (x & Hx & Ex).
    exists x. split; [apply elem_of_app; now right | exact Ex].
Qed.

(** Shells whose legs all have the key 1 are left as they are. *)
Lemma csv_sort_shells_constant (shells : CsvShells) :
  Forall (fun x => csv_leg_seq_key x = inr 1) (csv_all_shell_legs shells) ->
  csv_sort_shells shells = inr shells.
Proof.
  unfold csv_all_shell_legs.
  induction shells as [|[k legs] shells IH]; cbn [csv_sort_shells map snd concat];
    [reflexivity|].
  intros H. apply Forall_app in H as [Hl Hr].
  assert (csv_keyed legs = inr (map (fun x => (1, x)) legs)) as Ek.
  { clear -Hl. induction Hl as [|x legs Hx _ IH]; cbn [csv_keyed map];
      [reflexivity|]. now rewrite Hx, IH. }
  unfold csv_sort_shell. rewrite Ek. cbn [bind ret].
  rewrite csv_insertion_sort_constant, map_map. cbn [snd]. rewrite map_id.
  now rewrite (IH Hr).
Qed.

(** The key of a leg: 1 without the column, [TypeError] for the cell
    [None], and what [int()] makes of a string. *)
Lemma csv_leg_seq_key_cases (x : CsvLeg) :
  match csv_leg_seq_key x with
  | inr n => seq_cell_ok (csv_row x)
             /\ (csv_row x !! "Leg Seq num" = None -> n = 1)
  | inl e => (e = ValueError /\ seq_cell_rejected (csv_row x))
             \/ (e = TypeError /\ seq_cell_none (csv_row x))
  end.
Proof.
  unfold csv_leg_seq_key, seq_cell_ok, seq_cell_rejected, seq_cell_none.
  destruct (csv_row x !! "Leg Seq num") as [[v|]|].
  - destruct (py_int v) as [e|n] eqn:E.
    + left. pose proof E as E'. apply py_int_error in E' as ->. eauto.
    + split; [eauto | discriminate].
  - right. split; reflexivity.
  - split; [exact I | intros _; reflexivity].
Qed.

Lemma seq_cell_ok_key (x : CsvLeg) :
  seq_cell_ok (csv_row x) -> exists n, csv_leg_seq_key x = inr n.
Proof.
  unfold seq_cell_ok, csv_leg_seq_key.
  destruct (csv_row x !! "Leg Seq num") as [[v|]|]; [auto | contradiction|].
  intros _. now exists 1.
Qed.

(** C1, as amended.  The rows are those of [csv.DictReader] for a file in
    which no row stops the reader before the sort.  Without a column
    "Leg Seq num" in the header every leg sorts with the number 1, the run
    continues and every shell keeps its legs in the order of the rows.
    When every leg-sequence cell is a string that [int()] accepts, the run
    continues: every row becomes a leg and the legs of each shell are in
    ascending order of that number.  Nothing else is recovered: reading
    fails with [ValueError] for a cell that [int()] rejects, and with
    [TypeError] for the cell [None] of a record that is too short to have
    it. *)
Theorem leg_sequence_number_default
    (fieldnames : list string) (rest : list (list string))
    (offsets : gmap string Q) :
  let records := fieldnames :: rest in
  let rows := DictReader records in
  Forall (fun r => row_fault r = None) rows ->
  ("Leg Seq num" ∉ fieldnames ->
   exists all_legs shells,
     read_low_csv_file records offsets = inr (all_legs, shells)
     /\ map csv_row all_legs = rows
     /\ Forall (fun x => csv_leg_seq_key x = inr 1) all_legs
     /\ shells = csv_group_legs all_legs [])
  /\ (Forall seq_cell_ok rows ->
      exists all_legs shells,
        read_low_csv_file records offsets = inr (all_legs, shells)
        /\ map csv_row all_legs = rows
        /\ csv_all_shell_legs shells ≡ₚ all_legs
        /\ Forall (fun kl => Sorted Z.le (map csv_seq_num (snd kl))) shells)
  /\ (forall e,
        read_low_csv_file records offsets = inl e ->
        (e = ValueError /\ Exists seq_cell_rejected rows)
        \/ (e = TypeError /\ Exists seq_cell_none rows))
  /\ (Exists seq_cell_rejected rows \/ Exists seq_cell_none rows ->
      exists e, read_low_csv_file records offsets = inl e).
Proof.
  intros records rows Hrows.
  destruct (read_csv_rows_total offsets rows Hrows [] []) as (legs & E & Hmap).
  cbn [app] in E.
  pose proof (csv_group_legs_all legs []) as G.
  cbn [csv_all_shell_legs map concat app] in G.
  assert (forall x, x ∈ legs -> csv_row x ∈ rows) as Hin.
  { intros x Hx. rewrite <- Hmap. apply list_elem_of_fmap. eauto. }
  assert (forall P : gmap string cell -> Prop,
            Exists P rows -> exists x, x ∈ legs /\ P (csv_row x)) as Hex.
  { intros P HP. rewrite <- Hmap in HP. apply Exists_exists in HP as (r & Hr & HPr).
    apply list_elem_of_fmap in Hr as (x & -> & Hx). eauto. }
  unfold read_low_csv_file. fold records. fold rows. rewrite E.
  cbn [bind fst snd].
  split; [|split; [|split]].
  - intros Hnot.
    assert (Forall (fun x => csv_leg_seq_key x = inr 1) legs) as Hone.
    { apply Forall_forall. intros x Hx. unfold csv_leg_seq_key.
      now rewrite (proj2 (DictReader_keys fieldnames rest _ "Leg Seq num"
                            (Hin x Hx)) Hnot). }
    exists legs, (csv_group_legs legs []).
    rewrite csv_sort_shells_constant by now rewrite G.
    auto.
  - intros Hok.
    assert (Forall (fun x => exists n, csv_leg_seq_key x = inr n)
              (csv_all_shell_legs (csv_group_legs legs []))) as Hkeys.
    { rewrite G. apply Forall_forall. intros x Hx. apply seq_cell_ok_key.
      rewrite Forall_forall in Hok. apply Hok, Hin, Hx. }
    destruct (csv_sort_shells_total _ Hkeys) as [shells' Es].
    rewrite Es. cbn [bind ret].
    destruct (csv_sort_shells_ok _ _ Es) as (P1 & P2 & _).
    exists legs, shells'. split; [reflexivity|]. split; [exact Hmap|].
    split; [now rewrite P1, G | exact P2].
  - intros e.
    destruct (csv_sort_shells (csv_group_legs legs [])) as [e'|shells'] eqn:Es;
      cbn [bind ret]; [|discriminate].
    intros [= <-].
    destruct (csv_sort_shells_error _ _ Es) as (x & Hx & Ex).
    rewrite G in Hx.
    pose proof (csv_leg_seq_key_cases x) as Hc. rewrite Ex in Hc.
    destruct Hc as [[-> Hc]|[-> Hc]]; [left | right]; (split; [reflexivity|]);
      apply Exists_exists; exists (csv_row x); auto.
  - intros Hbad.
    destruct (csv_sort_shells (csv_group_legs legs [])) as [e'|shells'] eqn:Es;
      cbn [bind ret]; [eauto | exfalso].
    destruct (csv_sort_shells_ok _ _ Es) as (_ & _ & Hkeys).
    rewrite G, Forall_forall in Hkeys.
    destruct Hbad as [Hbad|Hbad]; apply Hex in Hbad as (x & Hx & Hbad);
      destruct (Hkeys x Hx) as [n Hn];
      pose proof (csv_leg_seq_key_cases x) as Hc; rewrite Hn in Hc;
      destruct Hc as [Hc _]; unfold seq_cell_ok in Hc.
    + destruct Hbad as (v & Hv & Ev). rewrite Hv in Hc.
      destruct Hc as [m Hm]. congruence.
    + unfold seq_cell_none in Hbad. now rewrite Hbad in Hc.
Qed.

Lemma leg_sequence_number_default_witness :
  (exists all_legs shells,
     read_low_csv_file example_file_no_seq example_offsets = inr (all_legs, shells)
     /\ length all_legs = 2%nat
     /\ Forall (fun x => csv_leg_seq_key x = inr 1) all_legs)
  /\ (exists all_legs shells,
        read_low_csv_file example_file example_offsets = inr (all_legs, shells)
        /\ length all_legs = 2%nat)
  /\ read_low_csv_file example_file_short_seq example_offsets = inl TypeError
  /\ Exists seq_cell_none (DictReader example_file_short_seq).
Proof.
  split; [|split].
  - destruct (leg_sequence_number_default (take 9 example_header)
                (List.tl example_file_no_seq) example_offsets) as (H & _).
    { repeat constructor. }
    destruct H as (all_legs & shells & E & Hmap & Hone & _).
    { apply (bool_decide_unpack _). vm_compute. exact I. }
    exists all_legs, shells. split; [exact E|]. split; [|exact Hone].
    rewrite <- (length_map csv_row), Hmap. reflexivity.
  - destruct (leg_sequence_number_default example_header
                (List.tl example_file) example_offsets) as (_ & H & _).
    { repeat constructor. }
    destruct H as (all_legs & shells & E & Hmap & _).
    { repeat constructor; unfold seq_cell_ok; vm_compute; eauto. }
    exists all_legs, shells. split; [exact E|].
    rewrite <- (length_map csv_row), Hmap. reflexivity.
  - assert (read_low_csv_file example_file_short_seq example_offsets = inl TypeError)
      as E by (vm_compute; reflexivity).
    split; [exact E|].
    destruct (leg_sequence_number_default example_header
                (List.tl example_file_short_seq) example_offsets)
      as (_ & _ & Hkind & _).
    { repeat constructor. }
    destruct (Hkind TypeError E) as [[Hne _]|[_ Hnone]];
      [discriminate Hne | exact Hnone].
Defined.

(** ** Files without short records

    When no record is shorter than the header, every cell is a string, and
    the reader on the rows of [csv.DictReader] is [read_low_csv] on the
    rows of strings: the same error, or the same legs and shells. *)

Lemma dict_row_strings (fieldnames record : list string) (d : gmap string string) :
  (length fieldnames <= length record)%nat ->
  dict_row fieldnames record (Some <$> d) = Some <$> string_row fieldnames record d.
Proof.
  revert record d. induction fieldnames as [|key fieldnames IH]; intros record d H;
    cbn [dict_row string_row]; [reflexivity|].
  destruct record as [|v record]; cbn [length] in H; [lia|].
  rewrite <- fmap_insert. apply IH. lia.
Qed.

Lemma DictReader_strings (fieldnames : list string) (rest : list (list string)) :
  Forall (fun record => (length fieldnames <= length record)%nat) (data_records rest) ->
  DictReader (fieldnames :: rest)
  = map (fmap Some)
      (map (fun record => string_row fieldnames record ∅) (data_records rest)).
Proof.
  unfold DictReader, data_records. intros H. rewrite map_map.
  apply map_ext_Forall. eapply Forall_impl; [exact H|]. cbv beta.
  intros record Hr. rewrite <- (dict_row_strings _ _ ∅ Hr). now rewrite fmap_empty.
Qed.

Lemma parse_cell_strings (r : gmap string string) (key : string) :
  parse_cell (Some <$> r) key
  = parse_flexible_date (match r !! key with Some v => v | None => "" end).
Proof. unfold parse_cell. rewrite lookup_fmap. now destruct (r !! key). Qed.

Lemma str_method_strings (r : gmap string string) (key name : string) :
  str_method (Some <$> r) key name = row_get r key.
Proof.
  unfold str_method, cell_at, row_get. rewrite lookup_fmap.
  now destruct (r !! key).
Qed.

Lemma make_csv_leg_strings (r : gmap string string) (offsets : gmap string Q) :
  make_csv_leg (Some <$> r) offsets
  = match make_leg r offsets with inl e => inl e | inr leg => inr (csv_leg leg) end.
Proof.
  unfold make_csv_leg, make_leg.
  rewrite !parse_cell_strings, !str_method_strings.
  destruct (row_get r "Dept Time") as [e|s1]; cbn [bind]; [reflexivity|].
  destruct (row_get r "Arvl Time") as [e|s2]; cbn [bind]; [reflexivity|].
  destruct (parse_flexible_date
              (match r !! "Dept Date" with Some v => v | None => "" end))
    as [e|d1]; cbn [bind]; [reflexivity|].
  destruct (parse_flexible_date
              (match r !! "Arvl Date" with Some v => v | None => "" end))
    as [e|d2]; cbn [bind]; [reflexivity|].
  destruct (row_get r "Dept Sta") as [e|s3]; cbn [bind]; [reflexivity|].
  destruct (row_get r "Arvl Sta") as [e|s4]; cbn [bind]; reflexivity.
Qed.

Lemma csv_shells_append_strings (shells : Shells) (id : string) (leg : Leg) :
  csv_shells_append (csv_shells shells) (Some id) (csv_leg leg)
  = csv_shells (shells_append shells id leg).
Proof.
  unfold csv_shells.
  induction shells as [|[k legs] shells IH]; cbn [map shells_append csv_shells_append fst snd];
    [reflexivity|].
  destruct (String.eqb_spec k id) as [->|Hne].
  - rewrite decide_True by reflexivity. cbn [map fst snd]. now rewrite map_app.
  - rewrite decide_False by congruence. cbn [map fst snd]. now rewrite IH.
Qed.

Lemma read_csv_rows_strings (offsets : gmap string Q)
    (rows : list (gmap string string)) :
  forall (acc : list Leg) (shells : Shells),
    read_csv_rows (map (fmap Some) rows) offsets (map csv_leg acc) (csv_shells shells)
    = match read_rows rows offsets acc shells with
      | inl e => inl e
      | inr (legs, shells') => inr (map csv_leg legs, csv_shells shells')
      end.
Proof.
  induction rows as [|r rows IH]; intros acc shells; cbn [map read_csv_rows read_rows].
  - reflexivity.
  - rewrite make_csv_leg_strings.
    destruct (make_leg r offsets) as [e|leg]; cbn [bind]; [reflexivity|].
    unfold cell_at, row_get. rewrite lookup_fmap.
    destruct (r !! "Line Num") as [id|]; cbn [fmap option_fmap option_map bind ret raise];
      [|reflexivity].
    rewrite csv_shells_append_strings.
    change (map csv_leg acc ++ [csv_leg leg]) with (map csv_leg acc ++ map csv_leg [leg]).
    rewrite <- map_app. apply IH.
Qed.

Lemma csv_leg_seq_key_strings (x : Leg) :
  csv_leg_seq_key (csv_leg x) = leg_seq_key x.
Proof.
  rewrite leg_seq_key_row. unfold csv_leg_seq_key, csv_leg. cbn [csv_row].
  rewrite lookup_fmap. now destruct (row x !! "Leg Seq num").
Qed.

Lemma csv_keyed_strings (legs : list Leg) :
  csv_keyed (map csv_leg legs)
  = match keyed legs with
    | inl e => inl e
    | inr ks => inr (map (fun kx => (fst kx, csv_leg (snd kx))) ks)
    end.
Proof.
  induction legs as [|x legs IH]; cbn [map csv_keyed keyed]; [reflexivity|].
  rewrite csv_leg_seq_key_strings, IH.
  destruct (leg_seq_key x) as [e|k]; cbn [bind]; [reflexivity|].
  destruct (keyed legs) as [e|ks]; reflexivity.
Qed.

Lemma csv_insert_by_key_strings (kx : Z * Leg) (l : list (Z * Leg)) :
  csv_insert_by_key (fst kx, csv_leg (snd kx))
    (map (fun ky => (fst ky, csv_leg (snd ky))) l)
  = map (fun ky => (fst ky, csv_leg (snd ky))) (insert_by_key kx l).
Proof.
  induction l as [|ky l IH]; cbn [map csv_insert_by_key insert_by_key fst snd];
    [reflexivity|].
  destruct (fst kx <=? fst ky); cbn [map fst snd]; [reflexivity | now rewrite IH].
Qed.

Lemma csv_insertion_sort_strings (ks : list (Z * Leg)) :
  fold_right csv_insert_by_key [] (map (fun ky => (fst ky, csv_leg (snd ky))) ks)
  = map (fun ky => (fst ky, csv_leg (snd ky))) (fold_right insert_by_key [] ks).
Proof.
  induction ks as [|ky ks IH]; cbn [map fold_right]; [reflexivity|].
  now rewrite IH, csv_insert_by_key_strings.
Qed.

Lemma csv_sort_shell_strings (legs : list Leg) :
  csv_sort_shell (map csv_leg legs)
  = match sort_shell legs with
    | inl e => inl e
    | inr legs' => inr (map csv_leg legs')
    end.
Proof.
  unfold csv_sort_shell, sort_shell. rewrite csv_keyed_strings.
  destruct (keyed legs) as [e|ks]; cbn [bind ret]; [reflexivity|].
  now rewrite csv_insertion_sort_strings, !map_map.
Qed.

Lemma csv_sort_shells_strings (shells : Shells) :
  csv_sort_shells (csv_shells shells)
  = match sort_shells shells with
    | inl e => inl e
    | inr shells' => inr (csv_shells shells')
    end.
Proof.
  unfold csv_shells.
  induction shells as [|[k legs] shells IH]; cbn [map csv_sort_shells sort_shells fst snd];
    [reflexivity|].
  rewrite csv_sort_shell_strings, IH.
  destruct (sort_shell legs) as [e|legs']; cbn [bind]; [reflexivity|].
  destruct (sort_shells shells) as [e|shells']; reflexivity.
Qed.

Lemma read_low_csv_file_strings (fieldnames : list string)
    (rest : list (list string)) (offsets : gmap string Q) :
  Forall (fun record => (length fieldnames <= length record)%nat) (data_records rest) ->
  read_low_csv_file (fieldnames :: rest) offsets
  = match read_low_csv
            (map (fun record => string_row fieldnames record ∅) (data_records rest))
            offsets with
    | inl e => inl e
    | inr (all_legs, shells) => inr (map csv_leg all_legs, csv_shells shells)
    end.
Proof.
  intros H. unfold read_low_csv_file, read_low_csv.
  rewrite (DictReader_strings _ _ H).
  pose proof (read_csv_rows_strings offsets
                (map (fun record => string_row fieldnames record ∅) (data_records rest))
                [] []) as E.
  cbn [map csv_shells] in E. rewrite E.
  destruct (read_rows _ offsets [] []) as [e|[legs shells]]; cbn [bind fst snd];
    [reflexivity|].
  rewrite csv_sort_shells_strings.
  destruct (sort_shells shells) as [e|shells']; reflexivity.
Qed.

(** ** The lines of the file *)

Lemma text_lines_line (l rest : string) :
  no_line_break l = true ->
  text_lines (l +:+ String "010" rest) = l :: text_lines rest.
Proof.
  induction l as [|c l IH]; intros H.
  - reflexivity.
  - cbn [no_line_break] in H. apply andb_true_iff in H as [Hc Hl].
    rewrite str_app_cons. cbn [text_lines].
    apply negb_true_iff in Hc. rewrite Hc, (IH Hl). reflexivity.
Qed.

Lemma text_lines_file (ls : list string) :
  Forall (fun l => no_line_break l = true) ls ->
  text_lines (fold_right (fun l acc => l +:+ String "010" acc) "" ls) = ls.
Proof.
  induction 1 as [|l ls Hl _ IH]; cbn [fold_right]; [reflexivity|].
  now rewrite (text_lines_line _ _ Hl), IH.
Qed.

Lemma no_line_break_app (a b : string) :
  no_line_break (a +:+ b) = no_line_break a && no_line_break b.
Proof.
  induction a as [|c a IH]; [reflexivity|].
  rewrite str_app_cons. cbn [no_line_break]. now rewrite IH, andb_assoc.
Qed.

Lemma no_line_break_take (n : nat) (s : string) :
  no_line_break s = true -> no_line_break (Str.take n s) = true.
Proof.
  revert s; induction n as [|n IH]; intros [|c s]; cbn [Str.take no_line_break];
    try reflexivity.
  intros H. apply andb_true_iff in H as [Hc Hs]. now rewrite Hc, (IH s Hs).
Qed.

Lemma no_line_break_drop (n : nat) (s : string) :
  no_line_break s = true -> no_line_break (Str.drop n s) = true.
Proof.
  revert s; induction n as [|n IH]; intros [|c s]; cbn [Str.drop no_line_break];
    try reflexivity; try (intros H; exact H).
  intros H. apply andb_true_iff in H as [_ Hs]. now apply IH.
Qed.

Lemma no_line_break_rep (n : nat) (c : ascii) :
  Ascii.eqb c "010" = false -> no_line_break (Str.rep n c) = true.
Proof.
  intros Hc. induction n as [|n IH]; cbn [Str.rep no_line_break]; [reflexivity|].
  now rewrite Hc, IH.
Qed.

Lemma no_line_break_pad_right (s : string) (n : nat) :
  no_line_break s = true -> no_line_break (pad_right s n) = true.
Proof.
  intros H. unfold pad_right, Str.ljust.
  rewrite no_line_break_app, no_line_break_take, no_line_break_rep by auto.
  reflexivity.
Qed.

Lemma no_line_break_pad_left (s : string) (n : nat) (fill : ascii) :
  Ascii.eqb fill "010" = false ->
  no_line_break s = true -> no_line_break (pad_left s n fill) = true.
Proof.
  intros Hf H. unfold pad_left, Str.rjust, Str.last_n.
  rewrite no_line_break_app, no_line_break_rep by exact Hf.
  destruct n; [exact H | now apply no_line_break_drop].
Qed.

Lemma no_line_break_zfill (w : nat) (s : string) :
  no_line_break s = true -> no_line_break (Str.zfill w s) = true.
Proof.
  intros H. unfold Str.zfill. destruct s as [|c s].
  - now apply no_line_break_rep.
  - cbn [no_line_break] in H. apply andb_true_iff in H as [Hc Hs].
    destruct (Ascii.eqb c "+" || Ascii.eqb c "-")%bool.
    + cbn [no_line_break]. rewrite Hc, no_line_break_app, Hs.
      now rewrite no_line_break_rep.
    + rewrite no_line_break_app, no_line_break_rep by reflexivity.
      cbn [no_line_break]. now rewrite Hc, Hs.
Qed.

Lemma no_line_break_string_of_uint (d : Decimal.uint) :
  no_line_break (NilEmpty.string_of_uint d) = true.
Proof. induction d; cbn [NilEmpty.string_of_uint no_line_break]; auto. Qed.

Lemma no_line_break_of_Z (z : Z) : no_line_break (Str.of_Z z) = true.
Proof.
  unfold Str.of_Z, NilZero.string_of_int, NilZero.string_of_uint.
  destruct (Z.to_int z) as [d|d]; destruct d; cbn [no_line_break];
    try reflexivity; apply no_line_break_string_of_uint.
Qed.

Lemma upper_char_line_break (c : ascii) :
  Ascii.eqb (Str.upper_char c) "010" = Ascii.eqb c "010".
Proof.
  destruct c as [[] [] [] [] [] [] [] []]; reflexivity.
Qed.

Lemma no_line_break_upper (s : string) :
  no_line_break (Str.upper s) = no_line_break s.
Proof.
  induction s as [|c s IH]; cbn [Str.upper no_line_break]; [reflexivity|].
  now rewrite upper_char_line_break, IH.
Qed.

Lemma no_line_break_strftime_dby (d : datetime) :
  no_line_break (Str.upper (strftime_dby d)) = true.
Proof.
  rewrite no_line_break_upper. unfold strftime_dby.
  rewrite !no_line_break_app, !no_line_break_zfill by apply no_line_break_of_Z.
  cbn [andb]. rewrite andb_true_r.
  generalize (Z.to_nat (month d - 1)). intros n. unfold MONTH_ABBR.
  do 12 (destruct n as [|n]; [reflexivity|]). now destruct n.
Qed.

Lemma no_line_break_format_ssim_date (dt : option datetime) :
  no_line_break (format_ssim_date dt) = true.
Proof.
  destruct dt as [d|]; [apply no_line_break_strftime_dby | reflexivity].
Qed.

Lemma no_line_break_format_utc_offset (offset : option Q) :
  no_line_break (format_utc_offset offset) = true.
Proof.
  destruct offset as [off|]; [|reflexivity]. unfold format_utc_offset.
  rewrite !no_line_break_app, !no_line_break_zfill by apply no_line_break_of_Z.
  now destruct (Qlt_le_dec off 0).
Qed.

Lemma no_line_break_leg_get (leg : Leg) (key default : string) :
  leg_no_line_break leg -> no_line_break default = true ->
  no_line_break (leg_get leg key default) = true.
Proof.
  intros (Hrow & Hd & Ha) Hdef. unfold leg_get.
  destruct (String.eqb key "Dept Time"); [exact Hd|].
  destruct (String.eqb key "Arvl Time"); [exact Ha|].
  destruct (row leg !! key) as [v|] eqn:E; [|exact Hdef].
  exact (Hrow key v E).
Qed.

Create HintDb line_break.

#[local] Hint Resolve no_line_break_pad_right no_line_break_pad_left
  no_line_break_zfill no_line_break_of_Z no_line_break_strftime_dby
  no_line_break_format_ssim_date no_line_break_format_utc_offset
  no_line_break_leg_get : line_break.

Ltac line_break :=
  repeat first
    [ rewrite no_line_break_app; apply andb_true_intro; split
    | apply no_line_break_pad_right
    | apply no_line_break_pad_left; [reflexivity|] ];
  auto 6 with line_break.

Lemma no_line_break_type3_record (leg : Leg) (next_leg : option Leg) (serial : Z) :
  leg_no_line_break leg ->
  match next_leg with Some n => leg_no_line_break n | None => True end ->
  no_line_break (type3_record leg next_leg serial) = true.
Proof.
  intros Hleg Hnext. unfold type3_record, ssim_time_field. cbv zeta.
  apply no_line_break_pad_right.
  assert (no_line_break (Dept_Time leg) = true) as Hd by apply Hleg.
  assert (no_line_break (Arvl_Time leg) = true) as Ha by apply Hleg.
  assert (forall key, no_line_break
            match next_leg with Some n => leg_get n key "" | None => "" end = true)
    as Hn.
  { intros key. destruct next_leg; [|reflexivity].
    now apply no_line_break_leg_get. }
  assert (no_line_break
            match Dept_DateTime leg with Some d => strftime_u d | None => "1" end
          = true) as Hw.
  { destruct (Dept_DateTime leg); [apply no_line_break_of_Z | reflexivity]. }
  line_break.
Qed.

Lemma no_line_break_type4_record (leg : Leg) (serial : Z) :
  leg_no_line_break leg -> no_line_break (type4_record leg serial) = true.
Proof.
  intros Hleg. unfold type4_record. cbv zeta.
  apply no_line_break_pad_right. line_break.
Qed.

Lemma no_line_break_type5_record (today_date : datetime) (serial : Z) :
  no_line_break (type5_record today_date serial) = true.
Proof.
  unfold type5_record. cbv zeta. apply no_line_break_pad_right. line_break.
Qed.

Lemma no_line_break_header2_record (d1 d2 today_date : datetime) :
  no_line_break (header2_record "L" d1 d2 today_date) = true.
Proof.
  unfold header2_record. cbv zeta. line_break.
Qed.

Lemma no_line_break_zero_lines (n : nat) :
  Forall (fun l => no_line_break l = true) (zero_lines n).
Proof.
  unfold zero_lines. induction n as [|n IH]; cbn [repeat]; constructor; auto.
Qed.

Lemma shells_lookup_legs (P : Leg -> Prop) (shells : Shells) (k : string)
    (legs : list Leg) :
  shells_lookup shells k = Some legs ->
  Forall P (all_shell_legs shells) -> Forall P legs.
Proof.
  unfold all_shell_legs.
  induction shells as [|[k' legs'] shells IH]; cbn [shells_lookup map snd concat];
    [discriminate|].
  intros E H. apply Forall_app in H as [Hl Hr].
  destruct (String.eqb k' k); [now injection E as <- | now apply IH].
Qed.

Lemma connecting_leg_in (Q : Leg -> Prop) (shells : Shells) (P : gset string)
    (leg : Leg) :
  Forall Q (all_shell_legs shells) ->
  match connecting_leg shells P leg with Some n => Q n | None => True end.
Proof.
  intros H. unfold connecting_leg.
  destruct (find_connecting_shell _ _ _) as [id|]; [|exact I].
  destruct (truthy id); [|exact I].
  destruct (shells_lookup shells id) as [[|first rest]|] eqn:E; try exact I.
  pose proof (shells_lookup_legs Q shells id _ E H) as Hl.
  now apply Forall_cons in Hl as [Hf _].
Qed.

Lemma emit_shell_no_line_break (shells : Shells) (P : gset string)
    (legs : list Leg) (s : Z) :
  Forall leg_no_line_break (all_shell_legs shells) ->
  Forall leg_no_line_break legs ->
  Forall (fun l => no_line_break l = true) (fst (emit_shell shells P legs s)).
Proof.
  intros Hall. revert s; induction legs as [|leg rest IH]; intros s Hlegs;
    cbn [emit_shell fst]; [constructor|].
  apply Forall_cons in Hlegs as [Hleg Hrest].
  specialize (IH (s + 1 + 1) Hrest).
  destruct (emit_shell shells P rest (s + 1 + 1)) as [more fin]. cbn [fst] in *.
  constructor; [|constructor; [|exact IH]].
  - apply no_line_break_type3_record; [exact Hleg|].
    destruct rest as [|next rest'].
    + now apply connecting_leg_in.
    + now apply Forall_cons in Hrest as [Hn _].
  - now apply no_line_break_type4_record.
Qed.

Lemma chain_loop_no_line_break (fuel : nat) (shells : Shells) :
  Forall leg_no_line_break (all_shell_legs shells) ->
  forall (P : gset string) (cur : string) (s : Z) (out : list string),
    Forall (fun l => no_line_break l = true) out ->
    Forall (fun l => no_line_break l = true)
      (fst (fst (chain_loop fuel shells P cur s out))).
Proof.
  intros Hall.
  induction fuel as [|fuel IH]; intros P cur s out Hout; cbn [chain_loop].
  - destruct (Nat.ltb _ _); exact Hout.
  - destruct (Nat.ltb _ _); [|exact Hout].
    destruct (shells_lookup shells cur) as [legs|] eqn:E; [|exact Hout].
    pose proof (emit_shell_no_line_break shells (P ∪ {[cur]}) legs s Hall
                  (shells_lookup_legs _ _ _ _ E Hall)) as Hrec.
    destruct (emit_shell shells (P ∪ {[cur]}) legs s) as [recs s'].
    cbn [fst] in Hrec.
    assert (Forall (fun l => no_line_break l = true) (out ++ recs)) as Hout'
      by (apply Forall_app; auto).
    destruct (Nat.ltb _ _); [|now apply IH].
    destruct (last legs); [|exact Hout'].
    now apply IH.
Qed.

Lemma written_lines_no_line_break
    (fuel : nat) (all_legs : list Leg) (shells : Shells)
    (now_range today_date : datetime) :
  Forall leg_no_line_break (all_shell_legs shells) ->
  Forall (fun l => no_line_break l = true)
    (lines (write_ssim_with_segments fuel all_legs shells now_range today_date)).
Proof.
  intros Hall. unfold write_ssim_with_segments.
  destruct (find_operation_date_range all_legs "L" now_range) as [e|[d1 d2]];
    [constructor|].
  assert (Forall (fun l => no_line_break l = true)
            ([TYPE1_HEADER] ++ zero_lines 4
             ++ [header2_record "L" d1 d2 today_date] ++ zero_lines 4)) as Hhead.
  { repeat (apply Forall_app; split); try apply no_line_break_zero_lines.
    - apply Forall_singleton. reflexivity.
    - apply Forall_singleton, no_line_break_header2_record. }
  destruct shells as [|[k0 l0] rest]; [exact Hhead|].
  pose proof (chain_loop_no_line_break fuel ((k0, l0) :: rest) Hall ∅ k0 3 []
                (List.Forall_nil _)) as Hbody.
  destruct (chain_loop fuel ((k0, l0) :: rest) ∅ k0 3 []) as [[body s] st].
  cbn [fst] in Hbody.
  destruct st; cbn [lines];
    (apply Forall_app; split; [exact Hhead|]);
    try (apply Forall_app; split; [exact Hbody|]); try exact Hbody.
  repeat (apply Forall_app; split); try apply no_line_break_zero_lines.
  apply Forall_singleton, no_line_break_type5_record.
Qed.

(** C5, as amended.  Every string that the chained writer writes before a
    newline has exactly 200 characters, whatever the input and however the
    run ends.  When no cell of a leg has a line break, these strings are
    the lines of the file, so that every line of the file has exactly 200
    characters. *)
Theorem every_line_has_200_characters
    (fuel : nat) (all_legs : list Leg) (shells : Shells)
    (now_range today_date : datetime) :
  let w := write_ssim_with_segments fuel all_legs shells now_range today_date in
  Forall (fun l => String.length l = 200%nat) (lines w)
  /\ (Forall leg_no_line_break (all_shell_legs shells) ->
      text_lines (file_contents w) = lines w
      /\ Forall (fun l => String.length l = 200%nat)
           (text_lines (file_contents w))).
Proof.
  intros w.
  pose proof (written_lines_are_200 fuel all_legs shells now_range today_date)
    as H200.
  split; [exact H200|]. intros Hall.
  assert (text_lines (file_contents w) = lines w) as E.
  { unfold file_contents. apply text_lines_file.
    now apply written_lines_no_line_break. }
  split; [exact E | rewrite E; exact H200].
Qed.

Lemma example_legs_no_line_break :
  Forall leg_no_line_break (all_shell_legs (example_shells "2")).
Proof.
  repeat constructor; apply (bool_decide_unpack _); vm_compute; exact I.
Qed.

Lemma every_line_has_200_characters_witness :
  Forall leg_no_line_break (all_shell_legs (example_shells "2"))
  /\ text_lines
       (file_contents
          (write_ssim_with_segments 2 (example_legs "2") (example_shells "2")
             example_now example_now))
     = lines
         (write_ssim_with_segments 2 (example_legs "2") (example_shells "2")
            example_now example_now)
  /\ Forall (fun l => String.length l = 200%nat)
       (text_lines
          (file_contents
             (write_ssim_with_segments 2 (example_legs "2") (example_shells "2")
                example_now example_now))).
Proof.
  split; [exact example_legs_no_line_break|].
  apply (every_line_has_200_characters 2 (example_legs "2") (example_shells "2")
           example_now example_now).
  exact example_legs_no_line_break.
Defined.

(** C5 fails as stated.  A row whose flight number is a cell of two lines
    is read and written to the end; the line break is copied into both
    records of the leg, and the eleventh and the twelfth line of the file
    have 7 and 192 characters. *)
Lemma line_break_in_a_cell_splits_a_record :
  exists all_legs shells,
    read_low_csv [row_line_break] example_offsets = inr (all_legs, shells)
    /\ final_status
         (write_ssim_with_segments 1 all_legs shells example_now example_now)
       = Completed
    /\ map String.length
         (take 4 (drop 10
            (text_lines
               (file_contents
                  (write_ssim_with_segments 1 all_legs shells
                     example_now example_now)))))
       = [7%nat; 192%nat; 7%nat; 192%nat].
Proof.
  eexists _, _. split; [vm_compute; reflexivity|].
  split; vm_compute; reflexivity.
Qed.

(** Reading succeeds only on rows that have the five columns. *)
Lemma make_leg_columns (r : gmap string string) (offsets : gmap string Q) (leg : Leg) :
  make_leg r offsets = inr leg ->
  is_Some (r !! "Dept Time") /\ is_Some (r !! "Arvl Time")
  /\ is_Some (r !! "Dept Sta") /\ is_Some (r !! "Arvl Sta").
Proof.
  unfold make_leg, row_get.
  destruct (r !! "Dept Time"); cbn [bind]; [|discriminate].
  destruct (r !! "Arvl Time"); cbn [bind]; [|discriminate].
  rewrite !parse_flexible_date_first_success. cbn [bind].
  destruct (r !! "Dept Sta"); cbn [bind]; [|discriminate].
  destruct (r !! "Arvl Sta"); cbn [bind]; [|discriminate].
  eauto.
Qed.

Lemma read_rows_columns (offsets : gmap string Q) (rows : list (gmap string string)) :
  forall (acc : list Leg) (shells : Shells) (res : list Leg * Shells),
    read_rows rows offsets acc shells = inr res ->
    Forall has_required_columns rows.
Proof.
  induction rows as [|r rows IH]; intros acc shells res; [constructor|].
  cbn [read_rows].
  destruct (make_leg r offsets) as [e|leg] eqn:E; cbn [bind]; [discriminate|].
  unfold row_get at 1.
  destruct (r !! "Line Num") as [v|] eqn:Ev; cbn [bind]; [|discriminate].
  intros H. constructor; [|eapply IH, H].
  destruct (make_leg_columns r offsets leg E) as (H1 & H2 & H3 & H4).
  unfold has_required_columns, required_columns.
  repeat (constructor; [assumption|]). constructor; [eauto | constructor].
Qed.

(** What [read_low_csv] returns, before the sort. *)
Lemma read_low_csv_grouped (rows : list (gmap string string))
    (offsets : gmap string Q) (all_legs : list Leg) (shells : Shells) :
  read_low_csv rows offsets = inr (all_legs, shells) ->
  map row all_legs = rows
  /\ sort_shells (group_legs all_legs []) = inr shells.
Proof.
  unfold read_low_csv.
  destruct (read_rows rows offsets [] []) as [e|res] eqn:E; cbn [bind];
    [discriminate|].
  pose proof (read_rows_columns offsets rows [] [] res E) as Hcols.
  destruct (read_rows_total offsets rows Hcols [] []) as (legs & E' & Hmap).
  rewrite E in E'. injection E' as ->. cbn [fst snd app].
  destruct (sort_shells (group_legs legs [])) as [e|shells'] eqn:Es;
    cbn [bind ret]; [discriminate|].
  intros [= <- <-]. auto.
Qed.

(** *** The order of the shells *)

Lemma group_legs_keys (legs : list Leg) :
  forall shells : Shells,
    map fst (group_legs legs shells)
    = map fst shells
      ++ filter (fun id => id ∉ map fst shells)
           (first_occurrences (map leg_shell_id legs)).
Proof.
  induction legs as [|leg legs IH]; intros shells;
    cbn [group_legs fold_left map first_occurrences].
  - now rewrite app_nil_r.
  - fold (group_legs legs (shells_append shells (leg_shell_id leg) leg)).
    rewrite IH, shells_append_keys.
    set (i := leg_shell_id leg). set (nf := first_occurrences (map leg_shell_id legs)).
    case_bool_decide as Hin.
    + rewrite filter_cons_False by (intros Hn; now apply Hn).
      rewrite list_filter_filter. f_equal. apply list_filter_iff.
      intros x. cbn. split; [|intros [Hx _]; exact Hx].
      intros Hx. split; [exact Hx|]. intros ->. contradiction.
    + rewrite filter_cons_True by exact Hin.
      rewrite <- app_assoc. cbn [app]. do 2 f_equal.
      rewrite list_filter_filter. apply list_filter_iff.
      intros x. cbn. rewrite elem_of_app, list_elem_of_singleton. tauto.
Qed.

(** *** The legs of a shell *)

Lemma shells_append_elem (shells : Shells) (i : string) (x : Leg)
    (id : string) (g : list Leg) :
  NoDup (map fst shells) ->
  (id, g) ∈ shells_append shells i x ->
  (id <> i /\ (id, g) ∈ shells)
  \/ (id = i /\ exists g0, (i, g0) ∈ shells /\ g = g0 ++ [x])
  \/ (id = i /\ (i ∉ map fst shells) /\ g = [x]).
Proof.
  induction shells as [|[k legs] shells IH]; cbn [shells_append map fst];
    intros Hnd Hin.
  - apply list_elem_of_singleton in Hin as [= -> ->].
    right. right. split; [reflexivity|]. split; [apply not_elem_of_nil | reflexivity].
  - apply NoDup_cons in Hnd as [Hk Hnd].
    destruct (String.eqb_spec k i) as [->|Hne].
    + apply elem_of_cons in Hin as [[= -> ->]|Hin].
      * right. left. split; [reflexivity|]. exists legs.
        split; [apply list_elem_of_here | reflexivity].
      * left. split; [|now apply list_elem_of_further].
        intros ->. apply Hk. apply list_elem_of_In, in_map_iff.
        exists (i, g). split; [reflexivity | now apply list_elem_of_In].
    + apply elem_of_cons in Hin as [[= -> ->]|Hin].
      * left. split; [exact Hne | apply list_elem_of_here].
      * destruct (IH Hnd Hin) as [[H1 H2]|[[-> (g0 & H1 & H2)]|(-> & H1 & H2)]].
        -- left. split; [exact H1 | now apply list_elem_of_further].
        -- right. left. split; [reflexivity|]. exists g0.
           split; [now apply list_elem_of_further | exact H2].
        -- right. right. split; [reflexivity|]. split; [|exact H2].
           rewrite elem_of_cons. intros [->|]; contradiction.
Qed.

Lemma group_legs_snoc (legs : list Leg) (x : Leg) (shells : Shells) :
  group_legs (legs ++ [x]) shells
  = shells_append (group_legs legs shells) (leg_shell_id x) x.
Proof. unfold group_legs. now rewrite fold_left_app. Qed.

Lemma filter_none {A} (P : A -> Prop) `{forall x, Decision (P x)} (l : list A) :
  Forall (fun x => ~ P x) l -> filter P l = [].
Proof.
  induction 1 as [|x l Hx _ IH]; [reflexivity|].
  now rewrite filter_cons_False.
Qed.

Lemma filter_all {A} (P : A -> Prop) `{forall x, Decision (P x)} (l : list A) :
  Forall P l -> filter P l = l.
Proof.
  induction 1 as [|x l Hx _ IH]; [reflexivity|].
  rewrite filter_cons_True by exact Hx. now rewrite IH.
Qed.

(** Each shell holds the legs of its rotation, in the order of the rows. *)
Lemma group_legs_content (legs : list Leg) :
  NoDup (map fst (group_legs legs []))
  /\ Forall (fun x => leg_shell_id x ∈ map fst (group_legs legs [])) legs
  /\ forall id g, (id, g) ∈ group_legs legs [] ->
                  g = filter (fun x => leg_shell_id x = id) legs.
Proof.
  induction legs as [|x legs (IH1 & IH2 & IH3)] using rev_ind.
  - split; [constructor|]. split; [constructor|].
    intros id g Hin. cbn in Hin. now apply elem_of_nil in Hin.
  - rewrite group_legs_snoc. split; [now apply shells_append_distinct|].
    assert (forall id, id ∈ map fst (group_legs legs []) ->
                       id ∈ map fst (shells_append (group_legs legs [])
                                       (leg_shell_id x) x)) as Hkeep.
    { intros id Hid. rewrite shells_append_keys. case_bool_decide; [exact Hid|].
      apply elem_of_app. now left. }
    split.
    + apply Forall_app. split.
      * eapply Forall_impl; [exact IH2|]. intros y. apply Hkeep.
      * constructor; [|constructor]. rewrite shells_append_keys.
        case_bool_decide as Hin; [exact Hin|].
        apply elem_of_app. right. apply list_elem_of_here.
    + intros id g Hin. rewrite filter_app.
      apply shells_append_elem in Hin
        as [[H1 H2]|[[-> (g0 & H1 & H2)]|(-> & H1 & H2)]]; [| | |exact IH1].
      * rewrite (filter_cons_False _ x) by (intros E; now apply H1).
        rewrite filter_nil, app_nil_r. now apply IH3.
      * rewrite (filter_cons_True _ x) by reflexivity.
        rewrite filter_nil, H2. f_equal. now apply IH3.
      * rewrite (filter_cons_True _ x) by reflexivity.
        rewrite filter_nil, H2, filter_none; [reflexivity|].
        eapply Forall_impl; [exact IH2|]. cbn. intros y Hy E.
        rewrite E in Hy. contradiction.
Qed.

(** *** The sort is stable *)

Lemma insert_by_key_filter (kx : Z * Leg) (l : list (Z * Leg)) (k : Z) :
  filter (fun y => fst y = k) (insert_by_key kx l)
  = filter (fun y => fst y = k) (kx :: l).
Proof.
  induction l as [|ky l IH]; cbn [insert_by_key]; [reflexivity|].
  destruct (fst kx <=? fst ky) eqn:E; [reflexivity|].
  apply Z.leb_gt in E.
  destruct (decide (fst ky = k)) as [Hy|Hy].
  - rewrite (filter_cons_True _ ky) by exact Hy. rewrite IH.
    rewrite (filter_cons_False _ kx) by lia.
    rewrite (filter_cons_False _ kx) by lia.
    now rewrite (filter_cons_True _ ky) by exact Hy.
  - rewrite (filter_cons_False _ ky) by exact Hy. rewrite IH.
    destruct (decide (fst kx = k)) as [Hx|Hx].
    + rewrite !(filter_cons_True _ kx) by exact Hx.
      now rewrite (filter_cons_False _ ky) by exact Hy.
    + rewrite !(filter_cons_False _ kx) by exact Hx.
      now rewrite (filter_cons_False _ ky) by exact Hy.
Qed.

Lemma insertion_sort_filter (ks : list (Z * Leg)) (k : Z) :
  filter (fun y => fst y = k) (fold_right insert_by_key [] ks)
  = filter (fun y => fst y = k) ks.
Proof.
  induction ks as [|kx ks IH]; cbn [fold_right]; [reflexivity|].
  rewrite insert_by_key_filter.
  destruct (decide (fst kx = k)) as [Hx|Hx].
  - rewrite !(filter_cons_True _ kx) by exact Hx. now rewrite IH.
  - rewrite !(filter_cons_False _ kx) by exact Hx. exact IH.
Qed.

Lemma filter_keyed (l : list (Z * Leg)) (k : Z) :
  Forall (fun kx => fst kx = seq_num (snd kx)) l ->
  filter (fun x => seq_num x = k) (map snd l)
  = map snd (filter (fun y => fst y = k) l).
Proof.
  induction 1 as [|kx l Hx _ IH]; [reflexivity|]. cbn [map].
  destruct (decide (fst kx = k)) as [Hk|Hk].
  - rewrite (filter_cons_True _ kx) by exact Hk.
    rewrite (filter_cons_True _ (snd kx)) by congruence.
    cbn [map]. now rewrite IH.
  - rewrite (filter_cons_False _ kx) by exact Hk.
    rewrite (filter_cons_False _ (snd kx)) by congruence.
    exact IH.
Qed.

Lemma sort_shell_stable (legs legs' : list Leg) (k : Z) :
  sort_shell legs = inr legs' ->
  filter (fun x => seq_num x = k) legs' = filter (fun x => seq_num x = k) legs.
Proof.
  unfold sort_shell. destruct (keyed legs) as [e|ks] eqn:Ek; cbn [bind ret];
    [discriminate|].
  intros [= <-]. destruct (keyed_ok legs ks Ek) as [-> _].
  set (ks := map (fun x => (seq_num x, x)) legs).
  assert (Forall (fun kx => fst kx = seq_num (snd kx)) ks) as Hks.
  { apply Forall_map. now apply Forall_true. }
  rewrite filter_keyed.
  - rewrite insertion_sort_filter, <- filter_keyed by exact Hks.
    unfold ks. rewrite map_map. cbn. now rewrite map_id.
  - destruct (insertion_sort ks) as [Hperm _]. now rewrite Hperm.
Qed.

Lemma sort_shells_each (shells shells' : Shells) (id : string) (legs' : list Leg) :
  sort_shells shells = inr shells' ->
  (id, legs') ∈ shells' ->
  exists g, (id, g) ∈ shells /\ sort_shell g = inr legs'.
Proof.
  revert shells'. induction shells as [|[k g] shells IH]; intros shells';
    cbn [sort_shells].
  - intros [= <-] Hin. now apply elem_of_nil in Hin.
  - destruct (sort_shell g) as [e|g'] eqn:Eg; cbn [bind]; [discriminate|].
    destruct (sort_shells shells) as [e|rest]; cbn [bind ret]; [discriminate|].
    intros [= <-] Hin. apply elem_of_cons in Hin as [[= -> ->]|Hin].
    + exists g. split; [apply list_elem_of_here | exact Eg].
    + destruct (IH rest eq_refl Hin) as (g0 & H1 & H2).
      exists g0. split; [now apply list_elem_of_further | exact H2].
Qed.

(** X2.  The shells come in the order in which their rotation ids first
    occur in the file: the dict is filled row by row and the sort does
    not touch its keys. *)
Theorem shells_in_order_of_first_row
    (rows : list (gmap string string)) (offsets : gmap string Q)
    (all_legs : list Leg) (shells : Shells) :
  read_low_csv rows offsets = inr (all_legs, shells) ->
  map fst shells = first_occurrences (map leg_shell_id all_legs).
Proof.
  intros H. apply read_low_csv_grouped in H as [_ Hs].
  apply sort_shells_ok in Hs as (-> & _).
  rewrite group_legs_keys. cbn [map app].
  apply filter_all, Forall_forall. intros x _. apply not_elem_of_nil.
Qed.

Lemma example_rows_read :
  read_low_csv example_rows ∅ = inr (example_rows_legs, example_rows_shells).
Proof. vm_compute. reflexivity. Qed.

Lemma shells_in_order_of_first_row_witness :
  map fst example_rows_shells
  = first_occurrences (map leg_shell_id example_rows_legs).
Proof.
  exact (shells_in_order_of_first_row example_rows ∅ _ _ example_rows_read).
Defined.

(** X3.  A shell holds exactly the legs whose rotation id is its own, and
    the sort by sequence number is stable: the legs of a shell that have
    the same sequence number are in the order of their rows. *)
Theorem shells_are_stable_groups
    (rows : list (gmap string string)) (offsets : gmap string Q)
    (all_legs : list Leg) (shells : Shells) (id : string) (legs : list Leg) :
  read_low_csv rows offsets = inr (all_legs, shells) ->
  (id, legs) ∈ shells ->
  legs ≡ₚ filter (fun x => leg_shell_id x = id) all_legs
  /\ forall k : Z,
       filter (fun x => seq_num x = k) legs
       = filter (fun x => seq_num x = k)
           (filter (fun x => leg_shell_id x = id) all_legs).
Proof.
  intros H Hin. apply read_low_csv_grouped in H as [_ Hs].
  destruct (sort_shells_each _ _ _ _ Hs Hin) as (g & Hg & Hsort).
  destruct (group_legs_content all_legs) as (_ & _ & Hcontent).
  rewrite <- (Hcontent id g Hg). split.
  - now apply sort_shell_ok in Hsort as [Hperm _].
  - intros k. now apply sort_shell_stable.
Qed.

Lemma shells_are_stable_groups_witness :
  let legs := [ example_rows_leg (row_of "7" "1" "BOS" "ATL" "12");
                example_rows_leg (row_of "7" "2" "ATL" "JFK" "10");
                example_rows_leg (row_of "7" "2" "JFK" "MIA" "13") ] in
  legs ≡ₚ filter (fun x => leg_shell_id x = "7") example_rows_legs
  /\ forall k : Z,
       filter (fun x => seq_num x = k) legs
       = filter (fun x => seq_num x = k)
           (filter (fun x => leg_shell_id x = "7") example_rows_legs).
Proof.
  apply (shells_are_stable_groups example_rows ∅ example_rows_legs
           example_rows_shells "7" _ example_rows_read).
  apply list_elem_of_here.
Defined.

(** ** The date parser and the date format *)

Lemma first_some_Some {A B} (f : A -> option B) (l : list A) (b : B) :
  first_some f l = Some b -> exists a, a ∈ l /\ f a = Some b.
Proof.
  induction l as [|a l IH]; cbn [first_some]; [discriminate|].
  destruct (f a) as [b'|] eqn:E.
  - intros [= <-]. exists a. split; [apply list_elem_of_here | exact E].
  - intros H. destruct (IH H) as (a' & H1 & H2).
    exists a'. split; [now apply list_elem_of_further | exact H2].
Qed.

Lemma make_datetime_inr (y m d hh mm ss us : Z) (dt : datetime) :
  make_datetime y m d hh mm ss us = inr dt ->
  dt = mk_datetime y m d hh mm ss us
  /\ valid_date dt
  /\ 0 <= hh <= 23 /\ 0 <= mm <= 59 /\ 0 <= ss <= 59 /\ 0 <= us <= 999999.
Proof.
  unfold make_datetime, valid_date.
  destruct (_ && _) eqn:E; [|discriminate].
  intros [= <-]. cbn [year month day].
  repeat (apply andb_true_iff in E as [E ?]).
  repeat match goal with H : (_ <=? _) = true |- _ => apply Z.leb_le in H end.
  repeat split; assumption.
Qed.

Lemma make_datetime_valid (d : datetime) (hh mm : Z) :
  valid_date d -> 0 <= hh <= 23 -> 0 <= mm <= 59 ->
  make_datetime (year d) (month d) (day d) hh mm 0 0
  = inr (mk_datetime (year d) (month d) (day d) hh mm 0 0).
Proof.
  intros (H1 & H2 & H3) H4 H5. unfold make_datetime.
  rewrite !(proj2 (Z.leb_le _ _)) by lia. reflexivity.
Qed.

Lemma strptime_compiled_midnight (s : string) (fmt : list directive) (d : datetime) :
  strptime_compiled s fmt = inr d -> valid_date d /\ d = midnight d.
Proof.
  unfold strptime_compiled.
  destruct (re_match fmt s []) as [[groups rest]|]; [|discriminate].
  destruct (negb _); [discriminate|].
  destruct (convert_groups _ _) as [e|[[y m] dd]]; cbn [bind]; [discriminate|].
  intros H. apply make_datetime_inr in H as (-> & Hv & _). auto.
Qed.

Lemma parsed_date_valid (s : string) (d : datetime) :
  parse_flexible_date s = inr (Some d) ->
  valid_date d
  /\ hour d = 0 /\ minute d = 0 /\ second d = 0 /\ microsecond d = 0.
Proof.
  rewrite parse_flexible_date_first_success. intros [= H].
  unfold spec_parse_date in H. destruct (blank s); [discriminate|].
  apply first_some_Some in H as (fmt & _ & H).
  destruct (strptime_compiled (Str.strip s) fmt) as [e|d'] eqn:E; [discriminate|].
  injection H as ->. apply strptime_compiled_midnight in E as [Hv ->].
  cbn. auto.
Qed.

(** *** From [format_ssim_date] back through the parser *)

Lemma Z_cases (P : Z -> Prop) (n : nat) :
  Forall (fun k => P (Z.of_nat k)) (seq 0 n) ->
  forall z, 0 <= z < Z.of_nat n -> P z.
Proof.
  intros H z Hz. rewrite Forall_forall in H.
  rewrite <- (Z2Nat.id z) by lia. apply H.
  apply list_elem_of_In, in_seq. lia.
Qed.

Ltac each_case tac :=
  cbn [seq]; repeat (apply Forall_cons; split; [tac|]); apply List.Forall_nil.

(** Case analysis on [z], known to be below [n]. *)
Ltac cases_below z n tac :=
  pattern z; apply (Z_cases _ n); [each_case tac | cbn; lia].

(** The two digits of a day of the month are the first way in which [%d]
    matches, and they read as the day. *)
Lemma day_digits (dd : Z) :
  0 <= dd < 32 -> 1 <= dd ->
  py_int (Str.zfill 2 (Str.of_Z dd)) = inr dd
  /\ no_space (Str.zfill 2 (Str.of_Z dd)) = true
  /\ Str.upper (Str.zfill 2 (Str.of_Z dd)) = Str.zfill 2 (Str.of_Z dd)
  /\ forall r, exists more,
       alternatives Dir_d (Str.zfill 2 (Str.of_Z dd) +:+ r)
       = (Str.zfill 2 (Str.of_Z dd), r) :: more.
Proof.
  intros Hr. cases_below dd 32%nat
    ltac:(intros H; first [ exfalso; cbn in H; lia
                          | repeat split; intros; eexists; reflexivity ]).
Qed.

Lemma year_digits (yy : Z) :
  0 <= yy < 100 ->
  py_int (Str.zfill 2 (Str.of_Z yy)) = inr yy
  /\ no_space (Str.zfill 2 (Str.of_Z yy)) = true
  /\ Str.upper (Str.zfill 2 (Str.of_Z yy)) = Str.zfill 2 (Str.of_Z yy)
  /\ alternatives Dir_y (Str.zfill 2 (Str.of_Z yy))
     = [(Str.zfill 2 (Str.of_Z yy), "")].
Proof.
  intros Hr. cases_below yy 100%nat ltac:(repeat split; reflexivity).
Qed.

Lemma month_letters (m : Z) :
  0 <= m < 13 -> 1 <= m ->
  let name := Str.upper (nth (Z.to_nat (m - 1)) MONTH_ABBR "") in
  month_index (Str.lower name) MONTH_ABBR 1 = inr m
  /\ no_space name = true
  /\ forall r, alternatives Dir_b (name +:+ r) = [(name, r)].
Proof.
  intros Hr. cases_below m 13%nat
    ltac:(intros H; first [ exfalso; cbn in H; lia
                          | repeat split; intros; reflexivity ]).
Qed.

Lemma upper_app (a b : string) : Str.upper (a +:+ b) = Str.upper a +:+ Str.upper b.
Proof.
  induction a as [|c a IH]; [reflexivity|].
  rewrite str_app_cons. cbn [Str.upper]. now rewrite IH.
Qed.

Lemma no_space_app (a b : string) :
  no_space (a +:+ b) = no_space a && no_space b.
Proof.
  induction a as [|c a IH]; [reflexivity|].
  rewrite str_app_cons. cbn [no_space]. now rewrite IH, andb_assoc.
Qed.

Lemma strip_no_space (s : string) : no_space s = true -> Str.strip s = s.
Proof.
  intros Hs. unfold Str.strip, Str.strip_by.
  assert (Str.lstrip_by Str.is_space s = s) as ->.
  { destruct s as [|c r]; [reflexivity|].
    cbn [no_space] in Hs. apply andb_true_iff in Hs as [Hc _].
    cbn [Str.lstrip_by]. apply negb_true_iff in Hc. now rewrite Hc. }
  induction s as [|c r IH]; [reflexivity|].
  cbn [no_space] in Hs. apply andb_true_iff in Hs as [Hc Hr].
  apply negb_true_iff in Hc.
  cbn [Str.rstrip_by]. rewrite (IH Hr), Hc. now destruct r.
Qed.

Lemma no_space_not_blank (s : string) :
  no_space s = true -> s <> "" -> blank s = false.
Proof.
  destruct s as [|c r]; [contradiction|]. cbn [no_space]. intros H _.
  apply andb_true_iff in H as [Hc _]. apply negb_true_iff in Hc.
  unfold blank. cbn. now rewrite Hc.
Qed.

Lemma mod_4_of_mod_100 (y c : Z) :
  c mod 4 = 0 -> y mod 4 = 0 -> (y mod 100 + c) mod 4 = 0.
Proof.
  intros Hc Hy.
  pose proof (Z.div_mod y 100 ltac:(lia)).
  pose proof (Z.mod_pos_bound y 100 ltac:(lia)).
  pose proof (Z.div_mod y 4 ltac:(lia)).
  pose proof (Z.div_mod c 4 ltac:(lia)).
  pose proof (Z.div_mod (y mod 100 + c) 4 ltac:(lia)).
  pose proof (Z.mod_pos_bound (y mod 100 + c) 4 ltac:(lia)).
  lia.
Qed.

Lemma leap_pivot_year (y : Z) :
  is_leap y = true -> is_leap (pivot_year (y mod 100)) = true.
Proof.
  unfold is_leap. intros H.
  apply andb_true_iff in H as [H4 _]. apply Z.eqb_eq in H4.
  destruct (decide (y mod 100 = 0)) as [E0|E0]; [now rewrite E0|].
  pose proof (Z.mod_pos_bound y 100 ltac:(lia)) as Hr.
  assert (pivot_year (y mod 100) mod 4 = 0) as P4.
  { unfold pivot_year. destruct (_ <=? _); now apply mod_4_of_mod_100. }
  assert (pivot_year (y mod 100) mod 100 <> 0) as P100.
  { unfold pivot_year. destruct (_ <=? _).
    - pose proof (Z.div_mod (y mod 100 + 2000) 100 ltac:(lia)).
      pose proof (Z.mod_pos_bound (y mod 100 + 2000) 100 ltac:(lia)). lia.
    - pose proof (Z.div_mod (y mod 100 + 1900) 100 ltac:(lia)).
      pose proof (Z.mod_pos_bound (y mod 100 + 1900) 100 ltac:(lia)). lia. }
  apply andb_true_iff. split; [now apply Z.eqb_eq|].
  apply orb_true_iff. left. now apply negb_true_iff, Z.eqb_neq.
Qed.

Lemma valid_date_pivot_year (d : datetime) :
  valid_date d ->
  valid_date (mk_datetime (pivot_year (year d mod 100)) (month d) (day d) 0 0 0 0).
Proof.
  intros (H1 & H2 & H3). unfold valid_date. cbn [year month day].
  pose proof (Z.mod_pos_bound (year d) 100 ltac:(lia)) as Hr.
  split; [unfold pivot_year; destruct (_ <=? _); lia|]. split; [exact H2|].
  split; [lia|]. etransitivity; [apply H3|].
  unfold days_in_month.
  destruct (month d =? 2) eqn:Em; cbn [andb]; [|lia].
  destruct (is_leap (year d)) eqn:El.
  - rewrite (leap_pivot_year _ El). lia.
  - apply Z.eqb_eq in Em. rewrite Em.
    replace (nth (Z.to_nat (2 - 1)) DAYS_IN_MONTH 0) with 28 by reflexivity.
    destruct (is_leap (pivot_year _)); clear; lia.
Qed.

(** X5.  The date written by [format_ssim_date] is read back by the
    parser, with its first format: the parser gives the same day and month
    at 00:00, in the year that [%y] gives to the last two digits of the
    year, which is the year itself from 1969 to 2068. *)
Theorem formatted_date_parses_back (d : datetime) :
  valid_date d ->
  parse_flexible_date (format_ssim_date (Some d))
  = inr (Some (mk_datetime (pivot_year (year d mod 100)) (month d) (day d) 0 0 0 0))
  /\ (1969 <= year d <= 2068 -> pivot_year (year d mod 100) = year d).
Proof.
  intros Hv. split.
  2:{ intros Hy. unfold pivot_year.
      pose proof (Z.div_mod (year d) 100 ltac:(lia)).
      pose proof (Z.mod_pos_bound (year d) 100 ltac:(lia)).
      destruct (_ <=? _) eqn:E; [apply Z.leb_le in E | apply Z.leb_gt in E]; lia. }
  pose proof (valid_date_pivot_year d Hv) as Hv'.
  destruct Hv as (Hy & Hm & Hd).
  assert (day d <= 31) as Hd31.
  { etransitivity; [apply Hd|]. unfold days_in_month.
    destruct (_ && _); [lia|].
    assert (forall i, 0 <= i < 12 -> nth (Z.to_nat i) DAYS_IN_MONTH 0 <= 31) as Hmax.
    { intros i Hi. cases_below i 12%nat ltac:(apply Z.leb_le; reflexivity). }
    apply Hmax. lia. }
  destruct (day_digits (day d)) as (D1 & D2 & D3 & D4); [lia..|].
  destruct (year_digits (year d mod 100)) as (Y1 & Y2 & Y3 & Y4);
    [apply Z.mod_pos_bound; lia|].
  destruct (month_letters (month d)) as (M1 & M2 & M3); [lia..|].
  unfold format_ssim_date, strftime_dby.
  cbv zeta in M1, M2, M3.
  generalize dependent (Str.zfill 2 (Str.of_Z (day d))). intros DD D1 D2 D3 D4.
  generalize dependent (Str.zfill 2 (Str.of_Z (year d mod 100))).
  intros YY Y1 Y2 Y3 Y4.
  rewrite !upper_app, D3, Y3.
  generalize dependent (Str.upper (nth (Z.to_nat (month d - 1)) MONTH_ABBR "")).
  intros MON M1 M2 M3.
  assert (no_space (DD +:+ MON +:+ YY) = true) as Hns.
  { now rewrite !no_space_app, D2, M2, Y2. }
  rewrite parse_flexible_date_first_success. unfold spec_parse_date.
  rewrite no_space_not_blank, (strip_no_space _ Hns); [|exact Hns|].
  2:{ destruct DD; [discriminate D1 | discriminate]. }
  unfold spec_date_formats. cbn [first_some].
  assert (strptime_compiled (DD +:+ MON +:+ YY) [Dir_d; Dir_b; Dir_y]
          = inr (mk_datetime (pivot_year (year d mod 100)) (month d) (day d) 0 0 0 0))
    as ->; [|reflexivity].
  unfold strptime_compiled. cbn [re_match].
  destruct (D4 (MON +:+ YY)) as [more ->]. cbn [first_some].
  rewrite M3. cbn [first_some]. rewrite Y4. cbn [first_some String.length Nat.eqb negb].
  cbn [rev app convert_groups]. rewrite D1. cbn [bind ret].
  rewrite M1. cbn [bind ret]. rewrite Y1. cbn [bind ret].
  fold (pivot_year (year d mod 100)).
  exact (make_datetime_valid _ 0 0 Hv' ltac:(lia) ltac:(lia)).
Qed.

Lemma formatted_date_parses_back_witness :
  parse_flexible_date (format_ssim_date (Some (mk_datetime 2024 2 29 13 45 0 0)))
  = inr (Some (mk_datetime (pivot_year (2024 mod 100)) 2 29 0 0 0 0))
  /\ (1969 <= 2024 <= 2068 -> pivot_year (2024 mod 100) = 2024).
Proof.
  apply (formatted_date_parses_back (mk_datetime 2024 2 29 13 45 0 0)).
  unfold valid_date. cbn [year month day].
  replace (days_in_month 2024 2) with 29 by reflexivity. lia.
Defined.

(** ** The time cells *)

Lemma check_below (p : Z -> bool) (n : N) :
  fst (N.iter n (check_step p) (0, true)) = Z.of_N n
  /\ (snd (N.iter n (check_step p) (0, true)) = true ->
      forall k, 0 <= k < Z.of_N n -> p k = true).
Proof.
  induction n as [|n [IH1 IH2]] using N.peano_ind.
  - cbn. split; [reflexivity | intros _ k Hk; lia].
  - rewrite N.iter_succ. unfold check_step at 1 3. cbn [fst snd].
    rewrite IH1. split; [lia|].
    intros H. apply andb_true_iff in H as [Hall Hn].
    intros k Hk. destruct (decide (k = Z.of_N n)) as [->|Hne].
    + exact Hn.
    + apply IH2; [exact Hall | lia].
Qed.

Lemma reads_hhmm_below_10000 (n : Z) : 0 <= n < 10000 -> reads_hhmm n = true.
Proof.
  apply (proj2 (check_below reads_hhmm 10000)).
  vm_compute. reflexivity.
Qed.

(** X6.  The reader fills a time cell with zeros to four characters and
    reads the first two as the hour and the rest as the minute.  For the
    time written as the number [n] below 10000 and a date that parsed, the
    date-time of the leg is that date at hour [n / 100] and minute
    [n mod 100] when these are a time of day, and is absent otherwise. *)
Theorem time_cell_is_hhmm (s : string) (d : datetime) (n : Z) :
  parse_flexible_date s = inr (Some d) ->
  0 <= n < 10000 ->
  combine_date_time (Some d) (Str.zfill 4 (Str.of_Z n))
  = if (n / 100 <? 24) && (n mod 100 <? 60)
    then Some (mk_datetime (year d) (month d) (day d) (n / 100) (n mod 100) 0 0)
    else None.
Proof.
  intros Hd Hn.
  apply parsed_date_valid in Hd as (Hv & _ & _ & Hs & Hus).
  pose proof (reads_hhmm_below_10000 n Hn) as H. unfold reads_hhmm in H.
  cbv zeta in H. unfold combine_date_time, try_except.
  destruct (py_int (Str.take 2 _)) as [e|hh]; [discriminate H|].
  destruct (py_int (Str.drop 2 _)) as [e|mm]; [discriminate H|].
  apply andb_true_iff in H as [Hh Hm].
  apply Z.eqb_eq in Hh. apply Z.eqb_eq in Hm. subst hh mm.
  cbn [bind]. unfold replace_hour_minute. rewrite Hs, Hus.
  pose proof (Z.div_pos n 100 ltac:(lia) ltac:(lia)) as Hq.
  pose proof (Z.mod_pos_bound n 100 ltac:(lia)) as Hr.
  destruct ((n / 100 <? 24) && (n mod 100 <? 60)) eqn:E.
  - apply andb_true_iff in E as [E1 E2].
    apply Z.ltb_lt in E1. apply Z.ltb_lt in E2.
    now rewrite (make_datetime_valid d _ _ Hv) by lia.
  - destruct (make_datetime _ _ _ _ _ _ _) as [e|dt] eqn:Em; [reflexivity|].
    exfalso. apply make_datetime_inr in Em as (_ & _ & E1 & E2 & _).
    apply andb_false_iff in E as [E|E]; apply Z.ltb_ge in E; lia.
Qed.

Lemma time_cell_is_hhmm_witness :
  combine_date_time (Some (mk_datetime 2025 12 20 0 0 0 0)) (Str.zfill 4 (Str.of_Z 930))
  = Some (mk_datetime 2025 12 20 9 30 0 0)
  /\ combine_date_time (Some (mk_datetime 2025 12 20 0 0 0 0)) (Str.zfill 4 (Str.of_Z 2460))
     = None.
Proof.
  split.
  - apply (time_cell_is_hhmm "20Dec25" (mk_datetime 2025 12 20 0 0 0 0) 930);
      [vm_compute; reflexivity | lia].
  - apply (time_cell_is_hhmm "20Dec25" (mk_datetime 2025 12 20 0 0 0 0) 2460);
      [vm_compute; reflexivity | lia].
Defined.

(** ** The UTC offset field *)

Lemma two_digits (k : Z) :
  0 <= k < 100 ->
  String.length (Str.zfill 2 (Str.of_Z k)) = 2%nat
  /\ digits_only (Str.zfill 2 (Str.of_Z k)) = true.
Proof. intros Hk. cases_below k 100%nat ltac:(split; reflexivity). Qed.

Lemma Qfloor_bounds (x : Q) (a b : Z) :
  (inject_Z a <= x)%Q -> (x < inject_Z b)%Q -> a <= Qfloor x < b.
Proof.
  intros Ha Hb. split.
  - rewrite <- (Qfloor_Z a). now apply Qfloor_resp_le.
  - apply Z.lt_nge. intros H.
    apply (Qlt_irrefl x). eapply Qlt_le_trans; [exact Hb|].
    eapply Qle_trans; [|apply Qfloor_le].
    rewrite <- Zle_Qle. exact H.
Qed.

Lemma round_half_even_bounds (x : Q) (a b : Z) :
  (inject_Z a <= x)%Q -> (x < inject_Z b)%Q -> a <= round_half_even x <= b.
Proof.
  intros Ha Hb. pose proof (Qfloor_bounds x a b Ha Hb).
  unfold round_half_even. cbv zeta.
  destruct (_ ?= _)%Q; [destruct (Z.even _)|..]; lia.
Qed.

(** X7.  For an offset of less than a hundred hours the field written by
    [format_utc_offset] has five characters: the sign, minus for a
    negative offset and plus otherwise, two digits for the hours and two
    digits for the minutes, which lie between 00 and 60.  Without an
    offset the text is [0000], four characters and no sign. *)
Theorem utc_offset_field_shape (off : Q) :
  (Qabs off < inject_Z 100)%Q ->
  exists hh mm : Z,
    0 <= hh <= 99 /\ 0 <= mm <= 60
    /\ format_utc_offset (Some off)
       = (if Qlt_le_dec off 0 then "-" else "+")
         +:+ Str.zfill 2 (Str.of_Z hh) +:+ Str.zfill 2 (Str.of_Z mm)
    /\ String.length (format_utc_offset (Some off)) = 5%nat
    /\ format_utc_offset None = "0000".
Proof.
  intros Hoff. unfold format_utc_offset. cbv zeta.
  set (hours := Qfloor (Qabs off)).
  set (mins := round_half_even ((Qabs off - inject_Z hours) * inject_Z 60)%Q).
  assert (0 <= hours < 100) as Hh.
  { apply Qfloor_bounds; [apply Qabs_nonneg | exact Hoff]. }
  assert (0 <= mins <= 60) as Hm.
  { apply round_half_even_bounds.
    - apply Qmult_le_0_compat; [|discriminate].
      unfold Qminus. rewrite <- Qle_minus_iff. apply Qfloor_le.
    - apply Qlt_le_trans with (1 * inject_Z 60)%Q; [|discriminate].
      apply Qmult_lt_compat_r; [reflexivity|].
      apply (proj1 (Qplus_lt_l _ _ (inject_Z hours))).
      assert (Qabs off - inject_Z hours + inject_Z hours == Qabs off)%Q as ->
        by ring.
      assert (1 + inject_Z hours == inject_Z (hours + 1))%Q as ->
        by (rewrite inject_Z_plus; ring).
      apply Qlt_floor. }
  exists hours, mins. split; [lia|]. split; [exact Hm|]. split; [reflexivity|].
  split; [|reflexivity].
  destruct (two_digits hours) as [L1 _]; [lia|].
  assert (String.length (Str.zfill 2 (Str.of_Z mins)) = 2%nat) as L2.
  { destruct (decide (mins = 60)) as [->|]; [reflexivity|].
    now destruct (two_digits mins) as [L2 _]; [lia|]. }
  rewrite !str_length_app, L1, L2. now destruct (Qlt_le_dec off 0).
Qed.

Lemma utc_offset_field_shape_witness :
  exists hh mm : Z,
    0 <= hh <= 99 /\ 0 <= mm <= 60
    /\ format_utc_offset (Some (-11 # 2)%Q)
       = (if Qlt_le_dec (-11 # 2) 0 then "-" else "+")
         +:+ Str.zfill 2 (Str.of_Z hh) +:+ Str.zfill 2 (Str.of_Z mm)
    /\ String.length (format_utc_offset (Some (-11 # 2)%Q)) = 5%nat
    /\ format_utc_offset None = "0000".
Proof. apply (utc_offset_field_shape (-11 # 2)%Q). reflexivity. Defined.

Lemma format_whole_hours (h : Z) :
  format_utc_offset (Some (inject_Z h))
  = (if h <? 0 then "-" else "+") +:+ Str.zfill 2 (Str.of_Z (Z.abs h)) +:+ "00".
Proof.
  unfold format_utc_offset. cbv zeta.
  assert ((if Qlt_le_dec (inject_Z h) 0 then "-" else "+")
          = (if h <? 0 then "-" else "+")) as ->.
  { destruct (Qlt_le_dec (inject_Z h) 0) as [H|H];
      unfold Qlt, Qle, inject_Z in H; cbn in H;
      destruct (Z.ltb_spec h 0); try reflexivity; lia. }
  assert (Qfloor (Qabs (inject_Z h)) = Z.abs h) as ->.
  { unfold Qabs, inject_Z, Qfloor. apply Z.div_1_r. }
  assert (round_half_even
            ((Qabs (inject_Z h) - inject_Z (Z.abs h)) * inject_Z 60)%Q = 0) as ->;
    [|reflexivity].
  unfold round_half_even, Qabs, inject_Z, Qminus, Qplus, Qopp, Qmult, Qfloor,
    Qcompare. cbn [Qnum Qden Pos.mul].
  replace ((Z.abs h * 1 + - Z.abs h * 1) * 60) with 0 by lia.
  reflexivity.
Qed.

(** X8.  An offset of whole hours is written exactly: sign, two digits of
    hours and [00]; zero hours get a plus sign. *)
Theorem whole_hours_are_written_exactly (h : Z) :
  -99 <= h <= 99 ->
  format_utc_offset (Some (inject_Z h))
  = (if h <? 0 then "-" else "+") +:+ Str.zfill 2 (Str.of_Z (Z.abs h)) +:+ "00"
  /\ String.length (format_utc_offset (Some (inject_Z h))) = 5%nat
  /\ py_int (Str.slice 1 2 (format_utc_offset (Some (inject_Z h)))) = inr (Z.abs h).
Proof.
  intros Hh. rewrite format_whole_hours.
  assert (0 <= Z.abs h < 100) as Ha by lia.
  revert Ha. generalize (Z.abs h). intros a Ha.
  assert (String.length (Str.zfill 2 (Str.of_Z a)) = 2%nat
          /\ py_int (Str.zfill 2 (Str.of_Z a)) = inr a) as [L P].
  { cases_below a 100%nat ltac:(split; reflexivity). }
  split; [reflexivity|]. split.
  - rewrite !str_length_app, L. now destruct (h <? 0).
  - assert (forall sign : ascii,
              Str.slice 1 2 (String sign "" +:+ Str.zfill 2 (Str.of_Z a) +:+ "00")
              = Str.zfill 2 (Str.of_Z a)) as Hs.
    { intros sign. rewrite str_app_cons. unfold Str.slice. cbn [Str.drop].
      rewrite str_app_nil.
      rewrite (take_app_exact _ _ 2) by exact L. reflexivity. }
    destruct (h <? 0); now rewrite Hs.
Qed.

Lemma whole_hours_are_written_exactly_witness :
  format_utc_offset (Some (inject_Z (-5))) = "-0500".
Proof. apply (whole_hours_are_written_exactly (-5)). lia. Defined.

(** X9.  The offset that the static estimator gives is always written as
    a negative number of whole hours between 4 and 8: the field is one of
    [-0400] to [-0800], and its hour digits read as minus the offset. *)
Theorem estimated_offset_field (code : string) (d : datetime) :
  exists h : Z,
    4 <= h <= 8
    /\ estimate_us_timezone_offset code d = inject_Z (- h)
    /\ format_utc_offset (Some (estimate_us_timezone_offset code d))
       = "-0" +:+ Str.of_Z h +:+ "00".
Proof.
  unfold estimate_us_timezone_offset. cbv zeta.
  repeat match goal with
         | |- context [if ?b then _ else _] => destruct b
         end;
    first [ exists 4; split; [lia | split; reflexivity]
          | exists 5; split; [lia | split; reflexivity]
          | exists 6; split; [lia | split; reflexivity]
          | exists 7; split; [lia | split; reflexivity]
          | exists 8; split; [lia | split; reflexivity] ].
Qed.

(** ** The layout of the records *)

Lemma length_zfill (w : nat) (s : string) :
  String.length (Str.zfill w s) = Nat.max w (String.length s).
Proof.
  destruct s as [|c s]; cbn [Str.zfill].
  - rewrite length_rep. cbn. lia.
  - destruct (_ || _)%bool; cbn [String.length];
      rewrite str_length_app, length_rep; cbn [String.length]; lia.
Qed.

Lemma time_field (t : string) :
  pad_right (ssim_time_field t) 4 = Str.take 4 (Str.zfill 4 t).
Proof.
  unfold ssim_time_field. apply pad_right_long. rewrite length_zfill. lia.
Qed.

Lemma length_upper (s : string) : String.length (Str.upper s) = String.length s.
Proof. induction s as [|c s IH]; cbn; congruence. Qed.

Lemma length_format_ssim_date (d : datetime) :
  valid_date d -> String.length (format_ssim_date (Some d)) = 7%nat.
Proof.
  intros (Hy & Hm & Hd). unfold format_ssim_date, strftime_dby.
  assert (day d <= 31) as Hd31.
  { etransitivity; [apply Hd|]. unfold days_in_month.
    destruct (_ && _); [lia|].
    assert (forall i, 0 <= i < 12 -> nth (Z.to_nat i) DAYS_IN_MONTH 0 <= 31) as Hmax.
    { intros i Hi. cases_below i 12%nat ltac:(apply Z.leb_le; reflexivity). }
    apply Hmax. lia. }
  destruct (two_digits (day d)) as [L1 _]; [lia|].
  destruct (two_digits (year d mod 100)) as [L3 _];
    [apply Z.mod_pos_bound; lia|].
  assert (String.length (nth (Z.to_nat (month d - 1)) MONTH_ABBR "") = 3%nat) as L2.
  { assert (forall i, 0 <= i < 12 ->
                      String.length (nth (Z.to_nat i) MONTH_ABBR "") = 3%nat) as H.
    { intros i Hi. cases_below i 12%nat ltac:(reflexivity). }
    apply H. lia. }
  now rewrite length_upper, !str_length_app, L1, L2, L3.
Qed.

(** X10.  Each field of a Type-3 record sits at the positions that the
    script documents, whatever the leg holds: identification in 1-14, the
    stations, the times (each written twice, as the first four characters
    of the zero-filled time) and the offsets in 37-70, the equipment in
    73-75, the configuration followed by [VV10] in 173-192, and blanks in
    between. *)
Theorem type3_record_layout (leg : Leg) (next : option Leg) (serial : Z) :
  let rec := type3_record leg next serial in
  Str.positions 1 2 rec = "3 "
  /\ Str.positions 3 5 rec = pad_right (leg_get leg "Aln" "DL") 3
  /\ Str.positions 6 9 rec = pad_left (leg_get leg "Flt Num" "") 4 " "
  /\ Str.positions 10 11 rec = pad_left (leg_get leg "Line Num" "1") 2 "0"
  /\ Str.positions 12 13 rec = pad_left (leg_get leg "Leg Seq num" "1") 2 "0"
  /\ Str.positions 14 14 rec = pad_right (leg_get leg "Service Type" "J") 1
  /\ Str.positions 36 36 rec = " "
  /\ Str.positions 37 39 rec = pad_right (leg_get leg "Dept Sta" "") 3
  /\ Str.positions 40 43 rec = Str.take 4 (Str.zfill 4 (Dept_Time leg))
  /\ Str.positions 44 47 rec = Str.take 4 (Str.zfill 4 (Dept_Time leg))
  /\ Str.positions 48 52 rec = pad_right (format_utc_offset (Dept_UTC_Offset leg)) 5
  /\ Str.positions 53 54 rec = "  "
  /\ Str.positions 55 57 rec = pad_right (leg_get leg "Arvl Sta" "") 3
  /\ Str.positions 58 61 rec = Str.take 4 (Str.zfill 4 (Arvl_Time leg))
  /\ Str.positions 62 65 rec = Str.take 4 (Str.zfill 4 (Arvl_Time leg))
  /\ Str.positions 66 70 rec = pad_right (format_utc_offset (Arvl_UTC_Offset leg)) 5
  /\ Str.positions 71 72 rec = "  "
  /\ Str.positions 73 75 rec = pad_right (leg_get leg "Equip" "73J") 3
  /\ Str.positions 76 137 rec = Str.rep 62 " "
  /\ Str.positions 145 172 rec = Str.rep 28 " "
  /\ Str.positions 173 192 rec = pad_right (leg_get leg "AC Config" "" +:+ "VV10") 20
  /\ Str.positions 193 194 rec = "  ".
Proof.
  cbv zeta. rewrite type3_record_fields, !time_field.
  set (t1 := Str.take 4 (Str.zfill 4 (Dept_Time leg))).
  set (t2 := Str.take 4 (Str.zfill 4 (Arvl_Time leg))).
  assert (t1 = pad_right t1 4) as E1.
  { symmetry. apply pad_right_exact. unfold t1.
    rewrite length_take, length_zfill. lia. }
  assert (t2 = pad_right t2 4) as E2.
  { symmetry. apply pad_right_exact. unfold t2.
    rewrite length_take, length_zfill. lia. }
  rewrite E1, E2. clearbody t1 t2. clear E1 E2.
  change (pad_right "3" 1 +:+ pad_right "" 1 +:+ ?x) with (pad_right "3 " 2 +:+ x).
  change (pad_right "" 23 +:+ pad_right "" 3 +:+ pad_right "" 36 +:+ ?x)
    with (pad_right "" 62 +:+ x).
  change (pad_left "" 1 " " +:+ pad_left "" 1 " " +:+ pad_right "" 26 +:+ ?x)
    with (pad_right "" 28 +:+ x).
  repeat split; now read_field.
Qed.

(** X11.  Each field of a Type-4 record sits at the positions that the
    script documents: the identification of the leg in 1-14 as in its
    Type-3 record, the indicators [A] and [B] and the data element [997]
    in 29-33, the board and off points in 34-39 and the reason code in
    40-194. *)
Theorem type4_record_layout (leg : Leg) (serial : Z) :
  let seg := type4_record leg serial in
  Str.positions 1 2 seg = "4 "
  /\ Str.positions 3 5 seg = pad_right (leg_get leg "Aln" "DL") 3
  /\ Str.positions 6 9 seg = pad_left (leg_get leg "Flt Num" "") 4 " "
  /\ Str.positions 10 11 seg = pad_left (leg_get leg "Line Num" "1") 2 "0"
  /\ Str.positions 12 13 seg = pad_left (leg_get leg "Leg Seq num" "1") 2 "0"
  /\ Str.positions 14 14 seg = pad_right (leg_get leg "Service Type" "J") 1
  /\ Str.positions 15 28 seg = Str.rep 14 " "
  /\ Str.positions 29 33 seg = "AB997"
  /\ Str.positions 34 36 seg = pad_right (leg_get leg "Dept Sta" "") 3
  /\ Str.positions 37 39 seg = pad_right (leg_get leg "Arvl Sta" "") 3
  /\ Str.positions 40 194 seg = pad_right (leg_get leg "REASON CODE" " ") 155.
Proof.
  cbv zeta. rewrite type4_record_fields.
  change (pad_right "4" 1 +:+ pad_right "" 1 +:+ ?x) with (pad_right "4 " 2 +:+ x).
  change (pad_right "" 13 +:+ pad_right "" 1 +:+ ?x) with (pad_right "" 14 +:+ x).
  change (pad_right "A" 1 +:+ pad_right "B" 1 +:+ pad_left "997" 3 "0" +:+ ?x)
    with (pad_right "AB997" 5 +:+ x).
  repeat split; now read_field.
Qed.

Lemma pad_left_exact (s : string) (n : nat) (fill : ascii) :
  String.length s = n -> pad_left s n fill = s.
Proof.
  intros H. destruct n as [|n].
  - destruct s; [reflexivity | discriminate H].
  - rewrite pad_left_long by lia. rewrite H, Nat.sub_diag. apply drop_0.
Qed.

Lemma slice_last_pad_right (s : string) (w i : nat) :
  i = 0%nat -> Str.slice i w (pad_right s w) = pad_right s w.
Proof. intros ->. apply slice_whole, length_pad_right. Qed.

Lemma header2_record_fields (d1 d2 d3 : datetime) :
  valid_date d1 -> valid_date d2 -> valid_date d3 ->
  header2_record "L" d1 d2 d3
  = pad_right "2LDL  0008    " 14
    +:+ pad_right (format_ssim_date (Some d1)) 7
    +:+ pad_right (format_ssim_date (Some d2)) 7
    +:+ pad_right (format_ssim_date (Some d3)) 7
    +:+ pad_right "" 36
    +:+ pad_right "PCreated by Python LoW-to-SSIM Converter" 40
    +:+ pad_right "" 77
    +:+ pad_right "EN1140000002" 12.
Proof.
  intros H1 H2 H3.
  apply length_format_ssim_date in H1, H2, H3.
  unfold header2_record. cbv zeta. cbn [format_ssim_date] in *.
  generalize dependent (Str.upper (strftime_dby d1)). intros D1 L1.
  generalize dependent (Str.upper (strftime_dby d2)). intros D2 L2.
  generalize dependent (Str.upper (strftime_dby d3)). intros D3 L3.
  rewrite !(pad_right_exact _ 7) by assumption.
  unfold pad_right at 1, Str.ljust.
  rewrite take_all by (rewrite !str_length_app, L1, L2, L3; cbn; lia).
  rewrite !str_length_app, L1, L2, L3.
  rewrite !str_app_assoc. reflexivity.
Qed.

(** X12.  The Type-2 header holds the first and the last date of
    operation and the day of the run in 15-21, 22-28 and 29-35, the
    creator text from 72 on and [EN1140000002] in 189-200; the Type-5
    trailer holds the day of the run in 6-12, [000999] in 188-193 and [E]
    in 194, before its serial. *)
Theorem header_and_trailer_layout (d1 d2 today : datetime) (serial : Z) :
  valid_date d1 -> valid_date d2 -> valid_date today ->
  let header2 := header2_record "L" d1 d2 today in
  let las := type5_record today serial in
  Str.positions 1 14 header2 = "2LDL  0008    "
  /\ Str.positions 15 21 header2 = format_ssim_date (Some d1)
  /\ Str.positions 22 28 header2 = format_ssim_date (Some d2)
  /\ Str.positions 29 35 header2 = format_ssim_date (Some today)
  /\ Str.positions 36 71 header2 = Str.rep 36 " "
  /\ Str.positions 72 111 header2 = "PCreated by Python LoW-to-SSIM Converter"
  /\ Str.positions 112 188 header2 = Str.rep 77 " "
  /\ Str.positions 189 200 header2 = "EN1140000002"
  /\ Str.positions 1 5 las = "5 DL "
  /\ Str.positions 6 12 las = format_ssim_date (Some today)
  /\ Str.positions 13 187 las = Str.rep 175 " "
  /\ Str.positions 188 194 las = "000999E".
Proof.
  intros H1 H2 H3. cbv zeta.
  rewrite (header2_record_fields _ _ _ H1 H2 H3), type5_record_fields.
  pose proof (length_format_ssim_date _ H1) as L1.
  pose proof (length_format_ssim_date _ H2) as L2.
  pose proof (length_format_ssim_date _ H3) as L3.
  cbn [format_ssim_date] in *.
  generalize dependent (Str.upper (strftime_dby d1)). intros D1 L1.
  generalize dependent (Str.upper (strftime_dby d2)). intros D2 L2.
  generalize dependent (Str.upper (strftime_dby today)). intros D3 L3.
  change (pad_right "5" 1 +:+ pad_right "" 1 +:+ pad_right "DL" 3 +:+ ?x)
    with (pad_right "5 DL " 5 +:+ x).
  change (pad_left "" 175 " " +:+ pad_left "000999" 6 " " +:+ pad_left "E" 1 " " +:+ ?x)
    with (pad_right "" 175 +:+ pad_right "000999E" 7 +:+ x).
  repeat split; try (now read_field);
    try (read_field; first [now apply pad_right_exact | now apply pad_left_exact]).
  skip_fields. now rewrite slice_last_pad_right by lia.
Qed.

Lemma header_and_trailer_layout_witness :
  Str.positions 15 21 (header2_record "L" (mk_datetime 2025 12 20 9 30 0 0)
                         (mk_datetime 2025 12 21 0 5 0 0) example_now)
  = "20DEC25"
  /\ Str.positions 6 12 (type5_record example_now 7) = "03NOV26".
Proof.
  assert (valid_date (mk_datetime 2025 12 20 9 30 0 0)) as H1.
  { unfold valid_date. cbn [year month day].
    replace (days_in_month 2025 12) with 31 by reflexivity. lia. }
  assert (valid_date (mk_datetime 2025 12 21 0 5 0 0)) as H2.
  { unfold valid_date. cbn [year month day].
    replace (days_in_month 2025 12) with 31 by reflexivity. lia. }
  assert (valid_date example_now) as H3.
  { unfold valid_date, example_now. cbn [year month day].
    replace (days_in_month 2026 11) with 30 by reflexivity. lia. }
  destruct (header_and_trailer_layout _ _ _ 7 H1 H2 H3)
    as (_ & E1 & _ & _ & _ & _ & _ & _ & _ & E2 & _).
  split; [exact E1 | exact E2].
Defined.

(** X13.  What a record shows for a column that the row does not have:
    the airline is [DL], the flight number is blank, the itinerary
    variant and the leg sequence are [01], the service type is [J], the
    equipment is [73J], the configuration is [VV10] alone, the stations
    are blank and the reason code of the Type-4 record is blank. *)
Theorem fields_of_missing_columns (leg : Leg) (next : option Leg) (serial : Z) :
  let rec := type3_record leg next serial in
  let seg := type4_record leg serial in
  (row leg !! "Aln" = None ->
   Str.positions 3 5 rec = "DL " /\ Str.positions 3 5 seg = "DL ")
  /\ (row leg !! "Flt Num" = None ->
      Str.positions 6 9 rec = "    " /\ Str.positions 6 9 seg = "    ")
  /\ (row leg !! "Line Num" = None ->
      Str.positions 10 11 rec = "01" /\ Str.positions 10 11 seg = "01")
  /\ (row leg !! "Leg Seq num" = None ->
      Str.positions 12 13 rec = "01" /\ Str.positions 12 13 seg = "01")
  /\ (row leg !! "Service Type" = None ->
      Str.positions 14 14 rec = "J" /\ Str.positions 14 14 seg = "J")
  /\ (row leg !! "Dept Sta" = None ->
      Str.positions 37 39 rec = "   " /\ Str.positions 34 36 seg = "   ")
  /\ (row leg !! "Arvl Sta" = None ->
      Str.positions 55 57 rec = "   " /\ Str.positions 37 39 seg = "   ")
  /\ (row leg !! "Equip" = None -> Str.positions 73 75 rec = "73J")
  /\ (row leg !! "AC Config" = None ->
      Str.positions 173 192 rec = "VV10" +:+ Str.rep 16 " ")
  /\ (row leg !! "REASON CODE" = None ->
      Str.positions 40 194 seg = Str.rep 155 " ").
Proof.
  cbv zeta. rewrite type3_record_fields, type4_record_fields.
  rewrite !leg_get_row by reflexivity.
  repeat split; try intros ->;
    try match goal with H : row leg !! _ = None |- _ => rewrite H end;
    now read_field.
Qed.

(** X14.  A leg with a departure date shows that date twice as its period
    of operation, in 15-21 and in 22-28, and a single digit in 35 after
    six blanks: the ISO day of the week of the departure, 1 for Monday to
    7 for Sunday. *)
Theorem dated_leg_period_and_weekday
    (leg : Leg) (next : option Leg) (serial : Z) (d : datetime) :
  Dept_DateTime leg = Some d ->
  valid_date d ->
  let rec := type3_record leg next serial in
  Str.positions 15 21 rec = format_ssim_date (Some d)
  /\ Str.positions 22 28 rec = format_ssim_date (Some d)
  /\ exists w : Z,
       1 <= w <= 7 /\ (toordinal d - w) mod 7 = 0
       /\ Str.positions 29 35 rec = "      " +:+ Str.of_Z w.
Proof.
  intros Hd Hv. cbv zeta. rewrite type3_record_fields, Hd.
  pose proof (length_format_ssim_date d Hv) as L.
  generalize dependent (format_ssim_date (Some d)). intros D L.
  assert (pad_right (D +:+ D) 14 = pad_right D 7 +:+ pad_right D 7) as E.
  { rewrite (pad_right_exact D 7 L). apply pad_right_exact.
    rewrite str_length_app. lia. }
  rewrite E, str_app_assoc.
  split; [read_field; now apply pad_right_exact|].
  split; [read_field; now apply pad_right_exact|].
  unfold strftime_u.
  pose proof (Z.mod_pos_bound (toordinal d) 7 ltac:(lia)) as Hw.
  pose proof (Z.div_mod (toordinal d) 7 ltac:(lia)) as Hq.
  set (w := if toordinal d mod 7 =? 0 then 7 else toordinal d mod 7).
  assert (1 <= w <= 7 /\ (toordinal d - w) mod 7 = 0) as [Hr Hc].
  { unfold w. destruct (Z.eqb_spec (toordinal d mod 7) 0) as [E0|E0].
    - split; [lia|].
      replace (toordinal d - 7) with (toordinal d + (-1) * 7) by lia.
      now rewrite Z.mod_add by lia.
    - split; [lia|].
      replace (toordinal d - toordinal d mod 7) with (toordinal d / 7 * 7) by lia.
      apply Z.mod_mul. lia. }
  exists w. split; [exact Hr|]. split; [exact Hc|].
  read_field. clearbody w. clear -Hr.
  assert (0 <= w < 8) as Hr' by lia. revert Hr. 
  cases_below w 8%nat ltac:(intros H; first [ exfalso; cbn in H; lia | reflexivity ]).
Qed.

Lemma dated_leg_period_and_weekday_witness :
  Str.positions 15 21 (type3_record leg_JFK_ATL None 3) = "20DEC25"
  /\ Str.positions 22 28 (type3_record leg_JFK_ATL None 3) = "20DEC25"
  /\ exists w : Z,
       1 <= w <= 7 /\ (toordinal (mk_datetime 2025 12 20 9 30 0 0) - w) mod 7 = 0
       /\ Str.positions 29 35 (type3_record leg_JFK_ATL None 3)
          = "      " +:+ Str.of_Z w.
Proof.
  apply (dated_leg_period_and_weekday leg_JFK_ATL None 3
           (mk_datetime 2025 12 20 9 30 0 0)); [reflexivity|].
  unfold valid_date. cbn [year month day].
  replace (days_in_month 2025 12) with 31 by reflexivity. lia.
Defined.

(** ** The search for a connecting shell *)

Lemma find_connecting_shell_skip (before rest : Shells) (P : gset string) (a : string) :
  Forall (fun kl => ~ connects P a kl) before ->
  find_connecting_shell (before ++ rest) P a = find_connecting_shell rest P a.
Proof.
  induction 1 as [|[k legs] before Hk _ IH]; [reflexivity|].
  cbn [app find_connecting_shell].
  case_bool_decide as Hin; [exact IH|].
  destruct legs as [|first more]; [exact IH|].
  unfold Str.eqb. case_bool_decide as Heq; [|exact IH].
  exfalso. apply Hk. split; [exact Hin|]. cbn. eauto.
Qed.

Lemma find_connecting_shell_here (rest : Shells) (P : gset string) (a id : string)
    (legs : list Leg) :
  connects P a (id, legs) ->
  find_connecting_shell ((id, legs) :: rest) P a = Some id.
Proof.
  intros (Hn & first & more & E & Hm). cbn in Hn, E. subst legs.
  cbn [find_connecting_shell].
  rewrite bool_decide_eq_false_2 by exact Hn.
  unfold Str.eqb. now rewrite bool_decide_eq_true_2 by exact Hm.
Qed.

Lemma find_connecting_shell_no (shells : Shells) (P : gset string) (a : string) :
  Forall (fun kl => ~ connects P a kl) shells ->
  find_connecting_shell shells P a = None.
Proof.
  intros H. rewrite <- (app_nil_r shells).
  now rewrite find_connecting_shell_skip.
Qed.

(** X15.  [find_connecting_shell] gives no shell exactly when no shell
    connects, that is, is unvisited, not empty and has a first leg that
    departs from the airport, compared without regard to case; and it
    gives an id exactly when that id is the first shell of the dict that
    connects. *)
Theorem connecting_shell_is_the_first_that_connects
    (shells : Shells) (P : gset string) (a : string) :
  (find_connecting_shell shells P a = None
   <-> Forall (fun kl => ~ connects P a kl) shells)
  /\ (forall id,
        find_connecting_shell shells P a = Some id
        <-> exists before legs after,
              shells = before ++ (id, legs) :: after
              /\ connects P a (id, legs)
              /\ Forall (fun kl => ~ connects P a kl) before).
Proof.
  split.
  - split; [apply find_connecting_shell_none | apply find_connecting_shell_no].
  - intros id. split; [apply find_connecting_shell_first|].
    intros (before & legs & after & -> & Hc & Hb).
    rewrite find_connecting_shell_skip by exact Hb.
    now apply find_connecting_shell_here.
Qed.

(** ** The first writer *)

Lemma length_onward_in_shell (legs : list Leg) :
  length (onward_in_shell legs) = length legs.
Proof. induction legs as [|leg rest IH]; cbn; [reflexivity | now rewrite IH]. Qed.

Lemma fst_zip_onward_in_shell (legs : list Leg) :
  map fst (zip legs (onward_in_shell legs)) = legs.
Proof.
  induction legs as [|leg rest IH]; [reflexivity|].
  cbn [onward_in_shell zip zip_with map fst]. now rewrite IH.
Qed.

Lemma length_pairs_of_shell (legs : list Leg) :
  length (zip legs (onward_in_shell legs)) = length legs.
Proof.
  induction legs as [|leg rest IH]; [reflexivity|].
  cbn [onward_in_shell zip zip_with length]. now rewrite IH.
Qed.

Lemma emit_shell_v0_record_pairs (legs : list Leg) :
  forall s : Z,
    emit_shell_v0 legs s
    = (record_pairs s (zip legs (onward_in_shell legs)),
       s + 2 * Z.of_nat (length legs)).
Proof.
  induction legs as [|leg rest IH]; intros s.
  - cbn. f_equal. lia.
  - cbn [emit_shell_v0 onward_in_shell zip zip_with record_pairs length].
    rewrite IH. replace (s + 1 + 1) with (s + 2) by lia.
    f_equal. lia.
Qed.

Lemma fst_pairs_in_order (shells : Shells) :
  map fst (pairs_in_order shells) = all_shell_legs shells.
Proof.
  unfold pairs_in_order, all_shell_legs.
  induction shells as [|[k legs] shells IH]; [reflexivity|].
  cbn [flat_map map snd concat]. now rewrite map_app, fst_zip_onward_in_shell, IH.
Qed.

Lemma length_pairs_in_order (shells : Shells) :
  length (pairs_in_order shells) = length (all_shell_legs shells).
Proof. now rewrite <- fst_pairs_in_order, length_map. Qed.

Lemma emit_shells_v0_record_pairs (shells : Shells) :
  forall s : Z,
    emit_shells_v0 shells s
    = (record_pairs s (pairs_in_order shells),
       s + 2 * Z.of_nat (length (all_shell_legs shells))).
Proof.
  induction shells as [|[k legs] shells IH]; intros s.
  - cbn. f_equal. lia.
  - cbn [emit_shells_v0]. rewrite emit_shell_v0_record_pairs, IH.
    unfold pairs_in_order, all_shell_legs.
    cbn [flat_map map snd concat].
    rewrite record_pairs_app, length_pairs_of_shell, length_app.
    f_equal. lia.
Qed.

Lemma record_pairs_is_200 (pairs : list (Leg * option Leg)) :
  forall s : Z, Forall is_200 (record_pairs s pairs).
Proof.
  induction pairs as [|[leg next] pairs IH]; intros s; cbn [record_pairs].
  - constructor.
  - constructor; [apply length_type3_record|].
    constructor; [apply length_type4_record | apply IH].
Qed.

Lemma head_lines_is_200 (d1 d2 today : datetime) :
  Forall is_200 (head_lines d1 d2 today).
Proof.
  unfold head_lines. apply Forall_app. split.
  - constructor; [apply length_TYPE1_HEADER | constructor].
  - apply Forall_app. split; [apply Forall_zero_lines|].
    apply Forall_app. split; [|apply Forall_zero_lines].
    constructor; [apply length_header2_record | constructor].
Qed.



(** ** The chained writer when no shell connects *)

Section NoConnection.

Variable shells : Shells.
Hypothesis keys_distinct : NoDup (map fst shells).
Hypothesis shells_nonempty : Forall (fun kl => snd kl <> []) shells.
Hypothesis nothing_connects : no_connection shells.

Lemma no_connecting_shell (P : gset string) (kl : string * list Leg) (last_leg : Leg) :
  kl ∈ shells -> last (snd kl) = Some last_leg ->
  find_connecting_shell shells P (leg_get last_leg "Arvl Sta" "") = None.
Proof.
  intros Hkl Hlast. apply find_connecting_shell_no, Forall_forall.
  intros kl' Hkl' (_ & first & rest & E & Hm).
  exact (nothing_connects kl kl' last_leg first rest Hkl Hkl' Hlast E Hm).
Qed.

Lemma onward_legs_in_shell (P : gset string) (legs : list Leg) :
  (forall last_leg, last legs = Some last_leg ->
     find_connecting_shell shells P (leg_get last_leg "Arvl Sta" "") = None) ->
  onward_legs shells P legs = onward_in_shell legs.
Proof.
  induction legs as [|leg rest IH]; intros H; [reflexivity|].
  cbn [onward_legs onward_in_shell]. destruct rest as [|next rest].
  - cbn [onward_legs onward_in_shell]. f_equal.
    apply connecting_leg_none, H. reflexivity.
  - f_equal. apply IH. intros l Hl. apply H. exact Hl.
Qed.

Lemma unprocessed_after (done rest : Shells) (k : string) (legs : list Leg)
    (P : gset string) :
  shells = done ++ (k, legs) :: rest ->
  (forall x, x ∈ P <-> x ∈ map fst done \/ x = k) ->
  unprocessed_shells shells P = map fst rest.
Proof.
  intros E HP. unfold unprocessed_shells.
  pose proof keys_distinct as Hnd. rewrite E in Hnd |- *.
  rewrite map_app in Hnd |- *. cbn [map fst] in Hnd |- *.
  apply NoDup_app in Hnd as (Hd & Hdisj & Hr).
  apply NoDup_cons in Hr as [Hk Hr].
  rewrite filter_app, filter_cons_False.
  - rewrite filter_none, filter_all; [reflexivity | |].
    + apply Forall_forall. intros x Hx Hin.
      apply HP in Hin as [Hin| ->]; [|contradiction].
      apply (Hdisj x Hin). now apply list_elem_of_further.
    + apply Forall_forall. intros x Hx Hn. apply Hn. apply HP. now left.
  - intros Hn. apply Hn. apply HP. now right.
Qed.

Lemma chain_loop_done (fuel : nat) (P : gset string) (cur : string) (s : Z)
    (out : list string) :
  (size P <? length shells)%nat = false ->
  chain_loop fuel shells P cur s out = (out, s, Completed).
Proof. intros H. destruct fuel; cbn [chain_loop]; now rewrite H. Qed.

Lemma chain_loop_step (fuel : nat) (P : gset string) (cur : string) (s : Z)
    (out : list string) (legs : list Leg) (last_leg : Leg) :
  (size P <? length shells)%nat = true ->
  shells_lookup shells cur = Some legs ->
  last legs = Some last_leg ->
  find_connecting_shell shells (P ∪ {[ cur ]}) (leg_get last_leg "Arvl Sta" "") = None ->
  chain_loop (S fuel) shells P cur s out
  = chain_loop fuel shells (P ∪ {[ cur ]})
      (if (size (P ∪ {[ cur ]}) <? length shells)%nat
       then match unprocessed_shells shells (P ∪ {[ cur ]}) with
            | k :: _ => k
            | [] => cur
            end
       else cur)
      (snd (emit_shell shells (P ∪ {[ cur ]}) legs s))
      (out ++ fst (emit_shell shells (P ∪ {[ cur ]}) legs s)).
Proof.
  intros H1 H2 H3 H4. cbn [chain_loop]. rewrite H1, H2.
  destruct (emit_shell shells (P ∪ {[ cur ]}) legs s) as [recs s'].
  cbn [fst snd]. rewrite H3, H4.
  now destruct (size (P ∪ {[ cur ]}) <? length shells)%nat.
Qed.

Lemma chain_loop_in_order (fuel : nat) :
  forall (done todo : Shells) (P : gset string) (cur : string) (s : Z)
         (out : list string),
    shells = done ++ todo ->
    (forall x, x ∈ P <-> x ∈ map fst done) ->
    (forall kl rest, todo = kl :: rest -> cur = fst kl) ->
    (length todo <= fuel)%nat ->
    chain_loop fuel shells P cur s out
    = (out ++ record_pairs s (pairs_in_order todo),
       s + 2 * Z.of_nat (length (all_shell_legs todo)),
       Completed).
Proof.
  induction fuel as [|fuel IH]; intros done todo P cur s out E HP Hcur Hfuel.
  all: assert (NoDup (map fst done)) as Hd
      by (pose proof keys_distinct as Hnd; rewrite E, map_app in Hnd;
          now apply NoDup_app in Hnd as (Hd & _)).
  all: assert (P = list_to_set (map fst done)) as EP
      by (apply set_eq; intros x; rewrite HP; symmetry; apply elem_of_list_to_set).
  all: assert (size P = length done) as Hsize
      by (rewrite EP, size_list_to_set by exact Hd; apply length_map).
  all: assert (length shells = (length done + length todo)%nat) as Hlen
      by (rewrite E; apply length_app).
  all: clear EP.
  - destruct todo; [|cbn in Hfuel; lia].
    rewrite chain_loop_done by (apply Nat.ltb_ge; cbn in Hlen; lia).
    cbn. rewrite app_nil_r. do 2 f_equal. lia.
  - destruct todo as [|[k legs] rest].
    + rewrite chain_loop_done by (apply Nat.ltb_ge; cbn in Hlen; lia).
      cbn. rewrite app_nil_r. do 2 f_equal. lia.
    + rewrite (Hcur _ _ eq_refl). cbn [fst]. cbn [length] in Hlen, Hfuel.
      assert (shells_lookup shells k = Some legs) as Hlook.
      { rewrite E. apply shells_lookup_distinct. rewrite <- E. exact keys_distinct. }
      assert ((k, legs) ∈ shells) as Hin.
      { rewrite E. apply elem_of_app. right. apply list_elem_of_here. }
      assert (legs <> []) as Hlegs.
      { pose proof shells_nonempty as Hne. rewrite Forall_forall in Hne.
        exact (Hne _ Hin). }
      destruct (last legs) as [last_leg|] eqn:Hlast;
        [|apply last_None in Hlast; contradiction].
      assert (forall Q, find_connecting_shell shells Q
                          (leg_get last_leg "Arvl Sta" "") = None) as Hnone.
      { intros Q. now apply (no_connecting_shell Q (k, legs)). }
      rewrite (chain_loop_step fuel P k s out legs last_leg)
        by first [ apply Nat.ltb_lt; lia | assumption | apply Hnone ].
      rewrite emit_shell_record_pairs. cbn [fst snd].
      rewrite onward_legs_in_shell
        by (intros l Hl; rewrite Hlast in Hl; injection Hl as <-; apply Hnone).
      assert (forall x, x ∈ P ∪ {[ k ]} <-> x ∈ map fst (done ++ [(k, legs)])) as HP'.
      { intros x. rewrite elem_of_union, elem_of_singleton, map_app, elem_of_app, HP.
        cbn [map fst]. now rewrite list_elem_of_singleton. }
      assert (shells = (done ++ [(k, legs)]) ++ rest) as E'
        by now rewrite <- app_assoc.
      match goal with
      | |- chain_loop _ _ _ ?c _ _ = _ =>
          assert (forall kl r, rest = kl :: r -> c = fst kl) as Hcur'
      end.
      { intros kl r ->.
        assert (size (P ∪ {[ k ]}) = S (length done)) as Hsize'.
        { assert (P ∪ {[ k ]} = list_to_set (map fst (done ++ [(k, legs)]))) as ->
            by (apply set_eq; intros x; rewrite HP'; symmetry;
                apply elem_of_list_to_set).
          rewrite size_list_to_set.
          - rewrite length_map, length_app. cbn. lia.
          - pose proof keys_distinct as Hnd. rewrite E' , map_app in Hnd.
            now apply NoDup_app in Hnd as (Hd' & _). }
        replace (size (P ∪ {[ k ]}) <? length shells)%nat with true
          by (symmetry; apply Nat.ltb_lt; cbn [length] in Hlen; lia).
        rewrite (unprocessed_after done (kl :: r) k legs (P ∪ {[ k ]}) E);
          [reflexivity|].
        intros x. rewrite elem_of_union, elem_of_singleton, HP. tauto. }
      rewrite (IH (done ++ [(k, legs)]) rest (P ∪ {[ k ]}) _ _ _ E' HP' Hcur')
        by lia.
      unfold pairs_in_order, all_shell_legs. cbn [flat_map map snd concat].
      rewrite record_pairs_app, length_pairs_of_shell, length_app, <- app_assoc.
      do 2 f_equal. lia.
Qed.

End NoConnection.


Lemma separate_shells_do_not_connect : no_connection separate_shells.
Proof.
  intros kl kl' l f r Hkl Hkl' Hl Hf.
  unfold separate_shells in Hkl, Hkl'.
  repeat (apply elem_of_cons in Hkl as [->|Hkl]);
    [| |now apply elem_of_nil in Hkl];
    (repeat (apply elem_of_cons in Hkl' as [->|Hkl']);
     [| |now apply elem_of_nil in Hkl']);
    cbn in Hl, Hf; injection Hl as <-; injection Hf as <- _;
    vm_compute; discriminate.
Qed.


(** ** The first and the last date *)

Lemma min_datetime_spec (l : list datetime) :
  forall d : datetime,
    min_datetime d l ∈ d :: l
    /\ forall x, x ∈ d :: l -> datetime_ltb x (min_datetime d l) = false.
Proof.
  unfold min_datetime, datetime_ltb.
  induction l as [|y l IH]; intros d; cbn [fold_left].
  - split; [apply list_elem_of_here|].
    intros x Hx. apply list_elem_of_singleton in Hx as ->. apply Z.ltb_irrefl.
  - destruct (IH (if to_micros y <? to_micros d then y else d)) as [H1 H2].
    split.
    + apply elem_of_cons in H1 as [H1|H1].
      * rewrite H1. destruct (_ <? _);
          [apply list_elem_of_further, list_elem_of_here | apply list_elem_of_here].
      * now do 2 apply list_elem_of_further.
    + intros x Hx.
      assert (to_micros (fold_left
                (fun m x0 => if to_micros x0 <? to_micros m then x0 else m) l
                (if to_micros y <? to_micros d then y else d))
              <= to_micros (if to_micros y <? to_micros d then y else d)) as Hle.
      { apply Z.ltb_ge, H2, list_elem_of_here. }
      apply elem_of_cons in Hx as [->|Hx]; [|apply elem_of_cons in Hx as [->|Hx]].
      * apply Z.ltb_ge. revert Hle.
        destruct (Z.ltb_spec (to_micros y) (to_micros d)); intros; lia.
      * apply Z.ltb_ge. revert Hle.
        destruct (Z.ltb_spec (to_micros y) (to_micros d)); intros; lia.
      * apply H2. now apply list_elem_of_further.
Qed.

Lemma max_datetime_spec (l : list datetime) :
  forall d : datetime,
    max_datetime d l ∈ d :: l
    /\ forall x, x ∈ d :: l -> datetime_ltb (max_datetime d l) x = false.
Proof.
  unfold max_datetime, datetime_ltb.
  induction l as [|y l IH]; intros d; cbn [fold_left].
  - split; [apply list_elem_of_here|].
    intros x Hx. apply list_elem_of_singleton in Hx as ->. apply Z.ltb_irrefl.
  - destruct (IH (if to_micros d <? to_micros y then y else d)) as [H1 H2].
    split.
    + apply elem_of_cons in H1 as [H1|H1].
      * rewrite H1. destruct (_ <? _);
          [apply list_elem_of_further, list_elem_of_here | apply list_elem_of_here].
      * now do 2 apply list_elem_of_further.
    + intros x Hx.
      assert (to_micros (if to_micros d <? to_micros y then y else d)
              <= to_micros (fold_left
                   (fun m x0 => if to_micros m <? to_micros x0 then x0 else m) l
                   (if to_micros d <? to_micros y then y else d))) as Hle.
      { apply Z.ltb_ge, H2, list_elem_of_here. }
      apply elem_of_cons in Hx as [->|Hx]; [|apply elem_of_cons in Hx as [->|Hx]].
      * apply Z.ltb_ge. revert Hle.
        destruct (Z.ltb_spec (to_micros d) (to_micros y)); intros; lia.
      * apply Z.ltb_ge. revert Hle.
        destruct (Z.ltb_spec (to_micros d) (to_micros y)); intros; lia.
      * apply H2. now apply list_elem_of_further.
Qed.

Lemma operation_dates_leg_dates (all_legs : list Leg) :
  operation_dates all_legs "L" = inr (flat_map leg_dates all_legs).
Proof. apply operation_dates_local. Qed.

(** X18.  In local mode the date range of the operation is the earliest
    and the latest of the date-times of the legs, departures and arrivals
    alike: both are date-times of legs and no date-time of a leg lies
    outside them.  When no leg has a date-time the range is the clock and
    the clock one day later. *)
Theorem operation_date_range_bounds
    (all_legs : list Leg) (now d1 d2 : datetime) :
  find_operation_date_range all_legs "L" now = inr (d1, d2) ->
  let dates := flat_map leg_dates all_legs in
  (dates = [] -> d1 = now /\ add_micros now (timedelta_days 1) = inr d2)
  /\ (dates <> [] ->
      d1 ∈ dates /\ d2 ∈ dates
      /\ forall d, d ∈ dates ->
           datetime_ltb d d1 = false /\ datetime_ltb d2 d = false).
Proof.
  unfold find_operation_date_range. rewrite operation_dates_leg_dates.
  cbn [bind]. cbv zeta.
  destruct (flat_map leg_dates all_legs) as [|d ds].
  - destruct (add_micros now (timedelta_days 1)) as [e|t]; cbn [bind ret];
      [discriminate|].
    intros [= <- <-]. split; [auto | intros H; contradiction].
  - intros [= <- <-]. split; [discriminate|]. intros _.
    destruct (min_datetime_spec ds d) as [M1 M2].
    destruct (max_datetime_spec ds d) as [X1 X2].
    split; [exact M1|]. split; [exact X1|]. auto.
Qed.

Lemma operation_date_range_bounds_witness :
  let dates := flat_map leg_dates (example_legs "2") in
  (dates = [] ->
   mk_datetime 2025 12 20 9 30 0 0 = example_now
   /\ add_micros example_now (timedelta_days 1)
      = inr (mk_datetime 2025 12 20 15 10 0 0))
  /\ (dates <> [] ->
      mk_datetime 2025 12 20 9 30 0 0 ∈ dates
      /\ mk_datetime 2025 12 20 15 10 0 0 ∈ dates
      /\ forall d, d ∈ dates ->
           datetime_ltb d (mk_datetime 2025 12 20 9 30 0 0) = false
           /\ datetime_ltb (mk_datetime 2025 12 20 15 10 0 0) d = false).
Proof.
  exact (operation_date_range_bounds (example_legs "2") example_now _ _
           (example_range "2")).
Defined.

(** ** The scan of the file for airports and dates *)

Lemma scan_date_spec (r : gmap string string) (key : string) :
  scan_date r key = inr (cell_dates r key).
Proof.
  unfold scan_date, cell_dates. destruct (r !! key) as [v|]; [|reflexivity].
  rewrite parse_flexible_date_first_success. cbn [bind ret].
  destruct v as [|c v]; reflexivity.
Qed.

Lemma scan_rows_spec (rows : list (gmap string string)) :
  forall (codes : gset string) (all_dates : list datetime)
         (res : gset string * list datetime),
    scan_rows rows codes all_dates = inr res ->
    (forall c, c ∈ fst res
               <-> c ∈ codes
                   \/ exists r sta, r ∈ rows /\ sta ∈ row_stations r
                                    /\ c = Str.upper sta)
    /\ snd res = all_dates ++ flat_map row_dates rows.
Proof.
  induction rows as [|r rows IH]; intros codes all_dates res; cbn [scan_rows].
  - intros [= <-]. cbn [fst snd flat_map]. rewrite app_nil_r. split; [|reflexivity].
    intros c. split; [now left|].
    intros [H|(r & sta & H & _)]; [exact H | now apply elem_of_nil in H].
  - unfold row_get.
    destruct (r !! "Dept Sta") as [v1|] eqn:E1; cbn [bind]; [|discriminate].
    destruct (r !! "Arvl Sta") as [v2|] eqn:E2; cbn [bind]; [|discriminate].
    rewrite !scan_date_spec. cbn [bind].
    intros H. apply IH in H as [H1 H2]. split.
    + intros c. rewrite H1, !elem_of_union, !elem_of_singleton.
      split.
      * intros [[[Hc| ->]| ->]|(r' & sta & Hr' & Hsta & ->)].
        -- now left.
        -- right. exists r, v1. split; [apply list_elem_of_here|].
           split; [|reflexivity]. unfold row_stations. rewrite E1, E2.
           apply list_elem_of_here.
        -- right. exists r, v2. split; [apply list_elem_of_here|].
           split; [|reflexivity]. unfold row_stations. rewrite E1, E2.
           apply list_elem_of_further, list_elem_of_here.
        -- right. exists r', sta. split; [now apply list_elem_of_further | auto].
      * intros [Hc|(r' & sta & Hr' & Hsta & ->)]; [auto|].
        apply elem_of_cons in Hr' as [->|Hr']; [|right; eauto].
        left. unfold row_stations in Hsta. rewrite E1, E2 in Hsta.
        cbn [app] in Hsta.
        apply elem_of_cons in Hsta as [->|Hsta]; [auto|].
        apply list_elem_of_singleton in Hsta as ->. auto.
    + rewrite H2. cbn [flat_map]. unfold row_dates. now rewrite <- !app_assoc.
Qed.

Lemma upper_char_idem (c : ascii) : Str.upper_char (Str.upper_char c) = Str.upper_char c.
Proof. destruct c as [[] [] [] [] [] [] [] []]; reflexivity. Qed.

Lemma upper_idem (s : string) : Str.upper (Str.upper s) = Str.upper s.
Proof.
  induction s as [|c s IH]; [reflexivity|].
  cbn [Str.upper]. now rewrite upper_char_idem, IH.
Qed.

(** X19.  The scan gives the set of the station cells of the rows,
    departure and arrival, in upper case and without the empty string; and
    as first and last date the earliest and the latest of the dates that
    the parser finds in the two date cells of the rows, or the clock and
    the clock one day later when it finds none. *)
Theorem scan_of_the_file
    (rows : list (gmap string string)) (now : datetime)
    (codes : gset string) (first_date last_date : option datetime) :
  extract_airport_codes_and_date_range (Some rows) now
  = inr (codes, first_date, last_date) ->
  (forall c, c ∈ codes
             <-> c <> ""
                 /\ exists r sta, r ∈ rows /\ sta ∈ row_stations r
                                  /\ c = Str.upper sta)
  /\ (forall c, c ∈ codes -> Str.upper c = c)
  /\ let dates := flat_map row_dates rows in
     (dates = [] ->
      first_date = Some now
      /\ exists t, add_micros now (timedelta_days 1) = inr t /\ last_date = Some t)
     /\ (dates <> [] ->
         exists d1 d2,
           first_date = Some d1 /\ last_date = Some d2
           /\ d1 ∈ dates /\ d2 ∈ dates
           /\ forall d, d ∈ dates ->
                datetime_ltb d d1 = false /\ datetime_ltb d2 d = false).
Proof.
  unfold extract_airport_codes_and_date_range.
  destruct (scan_rows rows ∅ []) as [e|res] eqn:E; cbn [bind]; [discriminate|].
  apply scan_rows_spec in E as [Hc Hd]. cbn [app] in Hd. rewrite Hd. cbv zeta.
  assert (forall c, c ∈ fst res ∖ {[ "" ]}
                    <-> c <> ""
                        /\ exists r sta, r ∈ rows /\ sta ∈ row_stations r
                                         /\ c = Str.upper sta) as Hcodes.
  { intros c. rewrite elem_of_difference, elem_of_singleton, Hc.
    split.
    - intros [[H|H] Hn]; [now apply elem_of_empty in H | auto].
    - intros [Hn H]. auto. }
  destruct (flat_map row_dates rows) as [|d ds].
  - destruct (add_micros now (timedelta_days 1)) as [e|t]; cbn [bind ret];
      [discriminate|].
    intros [= <- <- <-]. split; [exact Hcodes|]. split.
    + intros c Hin. apply Hcodes in Hin as (_ & r & sta & _ & _ & ->).
      apply upper_idem.
    + split; [eauto | intros H; contradiction].
  - intros [= <- <- <-]. split; [exact Hcodes|]. split.
    + intros c Hin. apply Hcodes in Hin as (_ & r & sta & _ & _ & ->).
      apply upper_idem.
    + split; [discriminate|]. intros _.
      destruct (min_datetime_spec ds d) as [M1 M2].
      destruct (max_datetime_spec ds d) as [X1 X2].
      exists (min_datetime d ds), (max_datetime d ds). auto 10.
Qed.

Lemma example_rows_scan :
  extract_airport_codes_and_date_range (Some example_rows) example_now
  = inr ({[ "ATL"; "JFK"; "BOS"; "MIA" ]}, Some example_now,
         Some (mk_datetime 2026 11 4 10 0 0 0)).
Proof. vm_compute. reflexivity. Qed.

Lemma scan_of_the_file_witness :
  (forall c, c ∈ ({[ "ATL"; "JFK"; "BOS"; "MIA" ]} : gset string)
             <-> c <> ""
                 /\ exists r sta, r ∈ example_rows /\ sta ∈ row_stations r
                                  /\ c = Str.upper sta)
  /\ (forall c, c ∈ ({[ "ATL"; "JFK"; "BOS"; "MIA" ]} : gset string) ->
                Str.upper c = c).
Proof.
  destruct (scan_of_the_file example_rows example_now _ _ _ example_rows_scan)
    as (H1 & H2 & _).
  split; [exact H1 | exact H2].
Defined.

(** ** The table of offsets *)

Lemma offsets_fold (f : string -> Q) (l : list string) :
  forall (m : gmap string Q) (c : string),
    fold_left (fun offsets code => <[ code := f code ]> offsets) l m !! c
    = if decide (c ∈ l) then Some (f c) else m !! c.
Proof.
  induction l as [|a l IH]; intros m c; cbn [fold_left].
  - destruct (decide (c ∈ [])) as [H|_]; [now apply elem_of_nil in H | reflexivity].
  - rewrite IH. destruct (decide (c ∈ l)) as [Hl|Hl].
    + rewrite decide_True by now apply list_elem_of_further. reflexivity.
    + destruct (decide (c = a)) as [->|Hne].
      * rewrite decide_True by apply list_elem_of_here. apply lookup_insert_eq.
      * rewrite decide_False by (rewrite elem_of_cons; tauto).
        now apply lookup_insert_ne.
Qed.

Lemma offsets_lookup (libraries : option tz_libraries) (codes : gset string)
    (reference_date : datetime) (c : string) :
  calculate_airport_utc_offsets libraries codes reference_date !! c
  = if decide (c ∈ codes) then Some (airport_offset libraries c reference_date)
    else None.
Proof.
  unfold calculate_airport_utc_offsets. rewrite offsets_fold, lookup_empty.
  destruct (decide (c ∈ elements codes)) as [H|H].
  - apply elem_of_elements in H. now rewrite decide_True.
  - rewrite elem_of_elements in H. now rewrite decide_False.
Qed.

(** X20.  The table of offsets has an entry for each of the codes given
    and for no other string.  The entry is the static estimate for the
    reference date when the libraries are missing, when the airport has no
    time zone in the airport data, and when the computation with the time
    zone fails; otherwise it is the offset that the time zone gives. *)
Theorem table_of_offsets (libraries : option tz_libraries) (codes : gset string)
    (reference_date : datetime) (c : string) :
  (c ∉ codes ->
   calculate_airport_utc_offsets libraries codes reference_date !! c = None)
  /\ (c ∈ codes ->
      calculate_airport_utc_offsets libraries codes reference_date !! c
      = Some (match libraries with
              | None => estimate_us_timezone_offset c reference_date
              | Some lib =>
                  match airport_tz lib c with
                  | None => estimate_us_timezone_offset c reference_date
                  | Some tz =>
                      match tz_utcoffset lib tz reference_date with
                      | None => estimate_us_timezone_offset c reference_date
                      | Some offset_hours => offset_hours
                      end
                  end
              end)).
Proof.
  rewrite offsets_lookup. split; intros H.
  - now rewrite decide_False.
  - rewrite decide_True by exact H. reflexivity.
Qed.

(** ** The whole run *)

Lemma make_leg_offsets (r : gmap string string) (offsets : gmap string Q) (leg : Leg) :
  make_leg r offsets = inr leg ->
  exists dept arvl,
    r !! "Dept Sta" = Some dept /\ r !! "Arvl Sta" = Some arvl
    /\ row leg = r
    /\ Dept_UTC_Offset leg = offsets !! Str.upper dept
    /\ Arvl_UTC_Offset leg = offsets !! Str.upper arvl.
Proof.
  unfold make_leg, row_get.
  destruct (r !! "Dept Time"); cbn [bind]; [|discriminate].
  destruct (r !! "Arvl Time"); cbn [bind]; [|discriminate].
  rewrite !parse_flexible_date_first_success. cbn [bind].
  destruct (r !! "Dept Sta") as [dept|]; cbn [bind]; [|discriminate].
  destruct (r !! "Arvl Sta") as [arvl|]; cbn [bind]; [|discriminate].
  intros [= <-]. exists dept, arvl. cbn. auto.
Qed.

Lemma read_rows_legs (offsets : gmap string Q) (rows : list (gmap string string)) :
  forall (acc : list Leg) (shells : Shells) (res : list Leg * Shells),
    read_rows rows offsets acc shells = inr res ->
    exists legs,
      fst res = acc ++ legs
      /\ Forall2 (fun r leg => make_leg r offsets = inr leg) rows legs.
Proof.
  induction rows as [|r rows IH]; intros acc shells res; cbn [read_rows].
  - intros [= <-]. exists []. cbn. rewrite app_nil_r. split; [reflexivity | constructor].
  - destruct (make_leg r offsets) as [e|leg] eqn:E; cbn [bind]; [discriminate|].
    destruct (row_get r "Line Num") as [e|id]; cbn [bind]; [discriminate|].
    intros H. apply IH in H as (legs & H1 & H2).
    exists (leg :: legs). rewrite H1, <- app_assoc. split; [reflexivity|].
    now constructor.
Qed.

Lemma read_low_csv_legs (rows : list (gmap string string)) (offsets : gmap string Q)
    (all_legs : list Leg) (shells : Shells) :
  read_low_csv rows offsets = inr (all_legs, shells) ->
  Forall2 (fun r leg => make_leg r offsets = inr leg) rows all_legs.
Proof.
  unfold read_low_csv.
  destruct (read_rows rows offsets [] []) as [e|res] eqn:E; cbn [bind];
    [discriminate|].
  destruct (sort_shells (snd res)) as [e|shells']; cbn [bind ret]; [discriminate|].
  intros [= <- <-]. apply read_rows_legs in E as (legs & -> & H). exact H.
Qed.

Lemma main_wrote (libraries : option tz_libraries)
    (file : option (list (gmap string string))) (fuel : nat)
    (now_scan now_range today_date : datetime) (w : written) :
  main libraries file fuel now_scan now_range today_date = Wrote w ->
  exists rows codes first_date last_date all_legs shells,
    file = Some rows
    /\ extract_airport_codes_and_date_range (Some rows) now_scan
       = inr (codes, Some first_date, last_date)
    /\ codes <> ∅
    /\ read_low_csv rows (calculate_airport_utc_offsets libraries codes first_date)
       = inr (all_legs, shells)
    /\ w = write_ssim_with_segments fuel all_legs shells now_range today_date.
Proof.
  unfold main.
  destruct (extract_airport_codes_and_date_range file now_scan)
    as [e|[[codes first_date] last_date]] eqn:E; [discriminate|].
  destruct (decide (codes = ∅)) as [|Hne]; [discriminate|].
  destruct first_date as [first_date|]; [|discriminate].
  destruct file as [rows|]; [|discriminate].
  destruct (read_low_csv rows _) as [e|[all_legs shells]] eqn:Er; [discriminate|].
  intros [= <-]. exists rows, codes, first_date, last_date, all_legs, shells.
  auto.
Qed.

(** X21.  In a run of [main] that writes a file, every leg gets its two
    offsets from one table, made for the first date of the scan: a leg
    whose station cell is empty has no offset, and every other leg has the
    offset of its station in upper case at that first date, whatever the
    date of the leg itself. *)
Theorem offsets_of_the_legs (libraries : option tz_libraries)
    (rows : list (gmap string string)) (fuel : nat)
    (now_scan now_range today_date : datetime) (w : written) :
  main libraries (Some rows) fuel now_scan now_range today_date = Wrote w ->
  exists codes first_date last_date all_legs shells,
    extract_airport_codes_and_date_range (Some rows) now_scan
    = inr (codes, Some first_date, last_date)
    /\ read_low_csv rows (calculate_airport_utc_offsets libraries codes first_date)
       = inr (all_legs, shells)
    /\ w = write_ssim_with_segments fuel all_legs shells now_range today_date
    /\ forall leg, leg ∈ all_legs ->
         let dept := Str.upper (leg_get leg "Dept Sta" "") in
         let arvl := Str.upper (leg_get leg "Arvl Sta" "") in
         Dept_UTC_Offset leg
         = (if decide (dept = "") then None
            else Some (airport_offset libraries dept first_date))
         /\ Arvl_UTC_Offset leg
            = (if decide (arvl = "") then None
               else Some (airport_offset libraries arvl first_date)).
Proof.
  intros H. apply main_wrote in H
    as (rows' & codes & first_date & last_date & all_legs & shells
        & [= <-] & Escan & _ & Eread & ->).
  exists codes, first_date, last_date, all_legs, shells.
  split; [exact Escan|]. split; [exact Eread|]. split; [reflexivity|].
  pose proof (read_low_csv_legs _ _ _ _ Eread) as Hlegs.
  assert (forall r sta, r ∈ rows -> sta ∈ row_stations r ->
            calculate_airport_utc_offsets libraries codes first_date !! Str.upper sta
            = if decide (Str.upper sta = "") then None
              else Some (airport_offset libraries (Str.upper sta) first_date)) as Hoff.
  { intros r sta Hr Hsta. rewrite offsets_lookup.
    unfold extract_airport_codes_and_date_range in Escan.
    destruct (scan_rows rows ∅ []) as [e|res] eqn:E; cbn [bind] in Escan;
      [discriminate|].
    apply scan_rows_spec in E as [Hc _].
    assert (codes = fst res ∖ {[ "" ]}) as ->.
    { destruct (snd res); [|now injection Escan as <- _ _].
      destruct (add_micros _ _); cbn [bind ret] in Escan; [discriminate|].
      now injection Escan as <- _ _. }
    destruct (decide (Str.upper sta = "")) as [E0|E0].
    - rewrite decide_False; [reflexivity|].
      rewrite elem_of_difference, elem_of_singleton. tauto.
    - rewrite decide_True; [reflexivity|].
      rewrite elem_of_difference, elem_of_singleton. split; [|exact E0].
      apply Hc. right. eauto. }
  intros leg Hleg. cbv zeta.
  apply list_elem_of_lookup in Hleg as [i Hi].
  destruct (Forall2_lookup_r _ _ _ _ _ Hlegs Hi) as (r & Hr & Hmk).
  apply list_elem_of_lookup_2 in Hr.
  apply make_leg_offsets in Hmk as (dept & arvl & E1 & E2 & Erow & O1 & O2).
  rewrite !leg_get_row by reflexivity. rewrite Erow, E1, E2, O1, O2.
  split; apply (Hoff r); [exact Hr | | exact Hr |];
    unfold row_stations; rewrite E1, E2;
    [apply list_elem_of_here | apply list_elem_of_further, list_elem_of_here].
Qed.

Lemma example_main :
  main None (Some [row_JFK_ATL; row_ATL_JFK "2"]) 2 example_now example_now example_now
  = Wrote (write_ssim_with_segments 2 (example_legs "2") (example_shells "2")
             example_now example_now).
Proof. vm_compute. reflexivity. Qed.

Lemma offsets_of_the_legs_witness :
  exists codes first_date last_date all_legs shells,
    extract_airport_codes_and_date_range (Some [row_JFK_ATL; row_ATL_JFK "2"]) example_now
    = inr (codes, Some first_date, last_date)
    /\ read_low_csv [row_JFK_ATL; row_ATL_JFK "2"]
         (calculate_airport_utc_offsets None codes first_date)
       = inr (all_legs, shells)
    /\ write_ssim_with_segments 2 (example_legs "2") (example_shells "2")
         example_now example_now
       = write_ssim_with_segments 2 all_legs shells example_now example_now
    /\ forall leg, leg ∈ all_legs ->
         let dept := Str.upper (leg_get leg "Dept Sta" "") in
         let arvl := Str.upper (leg_get leg "Arvl Sta" "") in
         Dept_UTC_Offset leg
         = (if decide (dept = "") then None
            else Some (airport_offset None dept first_date))
         /\ Arvl_UTC_Offset leg
            = (if decide (arvl = "") then None
               else Some (airport_offset None arvl first_date)).
Proof.
  exact (offsets_of_the_legs None [row_JFK_ATL; row_ATL_JFK "2"] 2
           example_now example_now example_now _ example_main).
Defined.

Lemma scan_rows_total (rows : list (gmap string string)) :
  Forall has_required_columns rows ->
  forall (codes : gset string) (all_dates : list datetime),
  exists res, scan_rows rows codes all_dates = inr res.
Proof.
  induction 1 as [|r rows Hr _ IH]; intros codes all_dates; cbn [scan_rows].
  - eauto.
  - unfold has_required_columns, required_columns in Hr.
    rewrite !Forall_cons in Hr. destruct Hr as (_ & _ & [v1 E1] & [v2 E2] & _).
    rewrite (row_get_Some _ _ _ E1), (row_get_Some _ _ _ E2). cbn [bind].
    rewrite !scan_date_spec. cbn [bind]. apply IH.
Qed.

Lemma scan_total (rows : list (gmap string string)) (now t : datetime) :
  Forall has_required_columns rows ->
  add_micros now (timedelta_days 1) = inr t ->
  exists codes first_date last_date,
    extract_airport_codes_and_date_range (Some rows) now
    = inr (codes, Some first_date, last_date).
Proof.
  intros Hrows Hclock. unfold extract_airport_codes_and_date_range.
  destruct (scan_rows_total rows Hrows ∅ []) as [res ->]. cbn [bind].
  destruct (snd res); [rewrite Hclock|]; cbn [bind ret]; eauto.
Qed.

Lemma find_operation_date_range_total (all_legs : list Leg) (now t : datetime) :
  add_micros now (timedelta_days 1) = inr t ->
  exists d1 d2, find_operation_date_range all_legs "L" now = inr (d1, d2).
Proof.
  intros Hclock. unfold find_operation_date_range.
  rewrite operation_dates_leg_dates. cbn [bind].
  destruct (flat_map leg_dates all_legs); [rewrite Hclock|]; cbn [bind ret]; eauto.
Qed.

Lemma length_shells_le (shells : Shells) :
  Forall (fun kl => snd kl <> []) shells ->
  (length shells <= length (all_shell_legs shells))%nat.
Proof.
  unfold all_shell_legs.
  induction 1 as [|[k legs] shells Hk _ IH]; [reflexivity|].
  cbn [map snd concat length]. rewrite length_app.
  destruct legs; [contradiction | cbn [length]; lia].
Qed.


Lemma example_stations :
  exists r sta,
    r ∈ [row_JFK_ATL; row_ATL_JFK "2"] /\ sta ∈ row_stations r /\ Str.upper sta <> "".
Proof.
  exists row_JFK_ATL, "JFK". split; [apply list_elem_of_here|].
  split; [vm_compute; apply list_elem_of_here | discriminate].
Qed.

Lemma example_columns : Forall has_required_columns [row_JFK_ATL; row_ATL_JFK "2"].
Proof.
  apply Forall_cons; split; [|apply Forall_cons; split; [|apply List.Forall_nil]];
    apply first_missing_None; vm_compute; reflexivity.
Qed.

Lemma example_seq_nums : Forall seq_num_ok [row_JFK_ATL; row_ATL_JFK "2"].
Proof.
  apply Forall_cons; split; [|apply Forall_cons; split; [|apply List.Forall_nil]];
    unfold seq_num_ok.
  - assert (row_JFK_ATL !! "Leg Seq num" = Some "1") as ->
      by (vm_compute; reflexivity).
    exists 1. vm_compute. reflexivity.
  - assert (row_ATL_JFK "2" !! "Leg Seq num" = Some "1") as ->
      by (vm_compute; reflexivity).
    exists 1. vm_compute. reflexivity.
Qed.



(** ** The onward leg and the order of the records *)

Lemma linked_to_app (a b : list (Leg * option Leg)) (after : option Leg) :
  linked_to a (match b with _ :: _ => first_leg b | [] => after end) ->
  linked_to b after ->
  linked_to (a ++ b) after.
Proof.
  intros Ha Hb. induction a as [|[leg o] a IH]; [exact Hb|].
  cbn [app linked_to] in *. destruct Ha as [H1 H2]. split; [|now apply IH].
  intros n Hn. specialize (H1 n Hn).
  destruct a as [|[leg' o'] a]; [|exact H1].
  cbn [app]. destruct b as [|[leg' o'] b]; exact H1.
Qed.

Lemma linked_shell (shells : Shells) (P : gset string) (legs : list Leg)
    (after : option Leg) :
  (forall last_leg n,
     last legs = Some last_leg -> connecting_leg shells P last_leg = Some n ->
     after = Some n) ->
  linked_to (zip legs (onward_legs shells P legs)) after.
Proof.
  induction legs as [|leg rest IH]; intros H; [exact I|].
  cbn [onward_legs zip zip_with linked_to]. destruct rest as [|next rest].
  - cbn [onward_legs zip zip_with linked_to]. split; [|exact I].
    intros n Hn. now apply (H leg).
  - split.
    + intros n [= <-]. reflexivity.
    + apply IH. intros l n Hl. apply H. exact Hl.
Qed.

Section Linked.

Variable shells : Shells.
Hypothesis keys_distinct : NoDup (map fst shells).
Hypothesis shells_nonempty : Forall (fun kl => snd kl <> []) shells.

Lemma first_leg_of_visit (P : gset string) (k : string) (rest : list string)
    (n : Leg) (more : list Leg) :
  legs_of shells k = n :: more ->
  first_leg (visit shells P (k :: rest)) = Some n.
Proof. intros H. cbn [visit]. rewrite H. reflexivity. Qed.

Lemma visit_nonempty (P : gset string) (k : string) (rest : list string)
    (n : Leg) (more : list Leg) :
  legs_of shells k = n :: more ->
  visit shells P (k :: rest) <> [].
Proof. intros H. cbn [visit]. rewrite H. discriminate. Qed.

Lemma chain_loop_linked (fuel : nat) :
  forall (P : gset string) (cur : string) (s : Z) (out : list string),
    (forall k, k ∈ P -> k ∈ map fst shells) ->
    ((size P < length shells)%nat -> cur ∈ map fst shells /\ cur ∉ P) ->
    (length shells - size P <= fuel)%nat ->
    exists order : list string,
      chain_loop fuel shells P cur s out
      = (out ++ record_pairs s (visit shells P order),
         s + 2 * Z.of_nat (length (visit shells P order)),
         Completed)
      /\ NoDup order
      /\ (forall k, k ∈ order <-> k ∈ map fst shells /\ k ∉ P)
      /\ ((size P < length shells)%nat -> exists rest, order = cur :: rest)
      /\ linked_to (visit shells P order) None.
Proof.
  induction fuel as [|fuel IH]; intros P cur s out Hsub Hcur Hfuel.
  - assert (length shells <= size P)%nat as Hall by lia.
    exists []. cbn [chain_loop visit record_pairs length linked_to].
    replace (size P <? length shells)%nat with false
      by (symmetry; apply Nat.ltb_ge; lia).
    rewrite app_nil_r, Z.mul_0_r, Z.add_0_r.
    split; [reflexivity|]. split; [constructor|]. split; [|split; [lia | exact I]].
    intros k. split; [intros H; now apply elem_of_nil in H|].
    intros [Hk Hn]. exfalso. apply Hn. now apply (all_processed shells).
  - cbn [chain_loop].
    destruct (size P <? length shells)%nat eqn:Hlt.
    2:{ apply Nat.ltb_ge in Hlt.
        exists []. cbn [visit record_pairs length linked_to].
        rewrite app_nil_r, Z.mul_0_r, Z.add_0_r.
        split; [reflexivity|]. split; [constructor|].
        split; [|split; [lia | exact I]].
        intros k. split; [intros H; now apply elem_of_nil in H|].
        intros [Hk Hn]. exfalso. apply Hn. now apply (all_processed shells). }
    apply Nat.ltb_lt in Hlt. destruct (Hcur Hlt) as [Hin Hnew].
    destruct (shells_lookup_Some shells cur Hin) as (legs & Elook & Hmem).
    rewrite Elook.
    assert (legs <> []) as Hlegs.
    { pose proof shells_nonempty as Hne. rewrite Forall_forall in Hne.
      exact (Hne (cur, legs) Hmem). }
    rewrite emit_shell_record_pairs.
    set (P' := P ∪ {[cur]}).
    assert (size P' = S (size P)) as HsizeP'.
    { unfold P'. rewrite size_union by (now apply disjoint_singleton_r).
      rewrite size_singleton. lia. }
    assert (forall k, k ∈ P' -> k ∈ map fst shells) as Hsub'.
    { intros k Hk. unfold P' in Hk. apply elem_of_union in Hk as [Hk|Hk].
      - now apply Hsub.
      - apply elem_of_singleton in Hk. now subst. }
    assert (legs_of shells cur = legs) as Hlegs_of
      by (unfold legs_of; now rewrite Elook).
    assert (forall cur',
              ((size P' < length shells)%nat -> cur' ∈ map fst shells /\ cur' ∉ P') ->
              (forall last_leg n,
                 last legs = Some last_leg ->
                 connecting_leg shells P' last_leg = Some n ->
                 (size P' < length shells)%nat
                 /\ exists more, legs_of shells cur' = n :: more) ->
              exists order,
                chain_loop fuel shells P' cur' (s + 2 * Z.of_nat (length legs))
                  (out ++ record_pairs s (zip legs (onward_legs shells P' legs)))
                = (out ++ record_pairs s (visit shells P order),
                   s + 2 * Z.of_nat (length (visit shells P order)),
                   Completed)
                /\ NoDup order
                /\ (forall k, k ∈ order <-> k ∈ map fst shells /\ k ∉ P)
                /\ ((size P < length shells)%nat -> exists rest, order = cur :: rest)
                /\ linked_to (visit shells P order) None)
      as Hstep.
    { intros cur' Hc Hlink.
      destruct (IH P' cur' (s + 2 * Z.of_nat (length legs))
                  (out ++ record_pairs s (zip legs (onward_legs shells P' legs)))
                  Hsub' Hc)
        as (order & E & Hnd & Hiff & Hhd & Hlinked); [lia|].
      exists (cur :: order). split; [|split; [|split; [|split; [eauto|]]]].
      - rewrite E. cbn [visit]. fold P'. rewrite Hlegs_of.
        rewrite record_pairs_app, !length_app, length_zip, length_onward_legs.
        rewrite Nat.min_id, <- app_assoc. do 2 f_equal. lia.
      - constructor; [|exact Hnd].
        intros Hc'. apply Hiff in Hc' as [_ Hc']. apply Hc'.
        unfold P'. now apply elem_of_union_r, elem_of_singleton.
      - intros k. rewrite elem_of_cons, Hiff. unfold P'. split.
        + intros [->|[Hk Hn]]; [tauto|]. split; [exact Hk|].
          intros HP. now apply Hn, elem_of_union_l.
        + intros [Hk Hn]. destruct (decide (k = cur)) as [|Hne]; [tauto|].
          right. split; [exact Hk|].
          intros [HP|Hs%elem_of_singleton]%elem_of_union; contradiction.
      - cbn [visit]. fold P'. rewrite Hlegs_of.
        apply linked_to_app; [|exact Hlinked].
        apply linked_shell. intros last_leg n Hl Hn.
        destruct (Hlink last_leg n Hl Hn) as (Hlt' & more & Hmore).
        destruct (Hhd Hlt') as [rest ->].
        pose proof (visit_nonempty P' cur' rest n more Hmore) as Hv.
        rewrite <- (first_leg_of_visit P' cur' rest n more Hmore).
        now destruct (visit shells P' (cur' :: rest)). }
    assert (forall last_leg n,
              connecting_leg shells P' last_leg = Some n ->
              exists id more,
                find_connecting_shell shells P' (leg_get last_leg "Arvl Sta" "")
                = Some id
                /\ truthy id = true /\ legs_of shells id = n :: more) as Hconn.
    { intros last_leg n. unfold connecting_leg.
      destruct (find_connecting_shell shells P' _) as [id|]; [|discriminate].
      destruct (truthy id) eqn:Et; [|discriminate].
      destruct (shells_lookup shells id) as [[|first more]|] eqn:El;
        try discriminate.
      intros [= <-]. exists id, more. split; [reflexivity|].
      split; [exact Et|]. unfold legs_of. now rewrite El. }
    destruct (size P' <? length shells)%nat eqn:Hlt'.
    + apply Nat.ltb_lt in Hlt'.
      destruct (last legs) as [last_leg|] eqn:Elast.
      2:{ apply last_None in Elast. contradiction. }
      destruct (some_unprocessed shells P' keys_distinct Hlt') as (u & us & Eun).
      rewrite Eun. apply Hstep.
      * intros _.
        destruct (find_connecting_shell shells P' (leg_get last_leg "Arvl Sta" ""))
          as [next|] eqn:Efind.
        -- destruct (truthy next).
           ++ now apply find_connecting_shell_unprocessed in Efind.
           ++ now apply unprocessed_shells_head in Eun.
        -- now apply unprocessed_shells_head in Eun.
      * intros l n [= <-] Hn. split; [exact Hlt'|].
        destruct (Hconn _ _ Hn) as (id & more & -> & -> & Hmore). eauto.
    + apply Nat.ltb_ge in Hlt'. apply Hstep.
      * intros Hc. lia.
      * intros l n _ Hn. exfalso.
        destruct (Hconn _ _ Hn) as (id & more & Hfind & _).
        apply find_connecting_shell_unprocessed in Hfind as [Hk Hnot].
        apply Hnot. now apply (all_processed shells).
Qed.

End Linked.

Lemma writer_on_shells (fuel : nat) (all_legs : list Leg) (shells : Shells)
    (k0 : string) (l0 : list Leg) (rest : Shells)
    (now_range today_date d1 d2 : datetime) :
  shells = (k0, l0) :: rest ->
  find_operation_date_range all_legs "L" now_range = inr (d1, d2) ->
  write_ssim_with_segments fuel all_legs shells now_range today_date
  = let '(body, record_serial, st) := chain_loop fuel shells ∅ k0 3 [] in
    match st with
    | Completed =>
        mk_written
          (head_lines d1 d2 today_date ++ body ++ tail_lines today_date record_serial)
          Completed
    | _ => mk_written (head_lines d1 d2 today_date ++ body) st
    end.
Proof.
  intros -> H. unfold write_ssim_with_segments. rewrite H. reflexivity.
Qed.


